(** * BlazorDataOrchestrator job template (CodePython/main.py)

    A shallow embedding of [JobLogger] and [execute_job] and the properties
    of the logging / run-bookkeeping lifecycle.

    Python values are modelled as follows.
    - [int] is [Z]; [str] is [string]; a list is a [list].
    - A [datetime] is the number of microseconds since 0001-01-01T00:00:00,
      with the calendar fields recovered the way CPython's [_ord2ymd] does.
    - Code that can raise runs in the monad [M]: a world transformer that
      returns either a value or the raised exception, the effects performed
      before the raise being kept.
    - The collaborators that live outside the file (clock, uuid generator,
      ODBC driver, table-store client, HTTP endpoint, JSON parser) are an
      environment of oracles, over which every statement is quantified.
    - Exceptions are instances of Python's [Exception]; signals outside that
      hierarchy (interpreter exit, keyboard interrupt) are not modelled.
      [print], the clock and the uuid generator do not raise, and neither
      does closing a connection that is open.  Every other call into the
      driver, the table-store client or the endpoint may raise, as the
      oracles decide.
    - [strftime] is the one of CPython on Linux, which hands the format to
      glibc: the two-digit fields are zero-padded, the year of [%Y] is
      not. *)

From Stdlib Require Import ZArith List String Ascii Bool Lia DecimalString.
From Stdlib Require Import RelationClasses.
Import ListNotations.
Local Open Scope string_scope.
Local Open Scope Z_scope.
Set Warnings "-register-all".

(* ================================================================== *)
(** ** Text *)

(** [str(n)] for an [int]. *)
Definition str_int (n : Z) : string := NilZero.string_of_int (Z.to_int n).

Definition digit (n : Z) : ascii := ascii_of_nat (48 + Z.to_nat n).

(** The [w] low-order decimal digits of [n], most significant first. *)
Fixpoint low_digits (w : nat) (n : Z) : string :=
  match w with
  | O => ""
  | S k => low_digits k (n / 10) ++ String (digit (n mod 10)) ""
  end.

(** A decimal rendering zero-padded to width [w] (the [%02d] of
    [strftime]'s two-digit directives). *)
Definition zpad (w : nat) (n : Z) : string :=
  if (0 <=? n) && (n <? 10 ^ Z.of_nat w) then low_digits w n else str_int n.

Definition is_digit (c : ascii) : bool :=
  let n := nat_of_ascii c in (48 <=? n)%nat && (n <=? 57)%nat.

Fixpoint all_digits (s : string) : bool :=
  match s with
  | "" => true
  | String c r => is_digit c && all_digits r
  end.

(** [str.lower()] on ASCII letters. *)
Definition lower_char (c : ascii) : ascii :=
  let n := nat_of_ascii c in
  if (65 <=? n)%nat && (n <=? 90)%nat then ascii_of_nat (n + 32) else c.

Fixpoint lower (s : string) : string :=
  match s with
  | "" => ""
  | String c r => String (lower_char c) (lower r)
  end.

(** [s[:n]]. *)
Definition take (n : nat) (s : string) : string := substring 0 n s.

(** [needle in s]. *)
Fixpoint contains (needle s : string) : bool :=
  prefix needle s ||
  match s with
  | "" => false
  | String _ r => contains needle r
  end.

(** [s.replace(old, new)] for a non-empty [old]: occurrences are replaced
    left to right without overlap.  [skip] counts the characters of a
    matched occurrence still to be dropped. *)
Fixpoint replace_from (old new : string) (skip : nat) (s : string) : string :=
  match s with
  | "" => ""
  | String c r =>
      match skip with
      | S k => replace_from old new k r
      | O =>
          if prefix old s
          then new ++ replace_from old new (String.length old - 1) r
          else String c (replace_from old new O r)
      end
  end.

Definition replace (old new s : string) : string := replace_from old new O s.

(* ================================================================== *)
(** ** datetime *)

Definition datetime := Z.
Definition timedelta := Z.

Definition us_per_second : Z := 1000000.
Definition us_per_day : Z := 86400 * us_per_second.

(** Ordinal of 9999-12-31, the last day a [datetime] can hold. *)
Definition MAXORDINAL : Z := 3652059.

Definition in_range (t : Z) : bool :=
  (0 <=? t) && (t <? MAXORDINAL * us_per_day).

Definition days_before_month (m : Z) : Z :=
  nth (Z.to_nat m) [0; 0; 31; 59; 90; 120; 151; 181; 212; 243; 273; 304; 334] 0.

Definition days_in_month (m : Z) : Z :=
  nth (Z.to_nat m) [0; 31; 28; 31; 30; 31; 30; 31; 31; 30; 31; 30; 31] 0.

Definition b2z (b : bool) : Z := if b then 1 else 0.

(** CPython's [_ord2ymd]: proleptic Gregorian ordinal (0001-01-01 is day 1)
    to (year, month, day). *)
Definition ord2ymd (ordinal : Z) : Z * Z * Z :=
  let n := ordinal - 1 in
  let n400 := n / 146097 in
  let n := n mod 146097 in
  let year := n400 * 400 + 1 in
  let n100 := n / 36524 in
  let n := n mod 36524 in
  let n4 := n / 1461 in
  let n := n mod 1461 in
  let n1 := n / 365 in
  let n := n mod 365 in
  let year := year + n100 * 100 + n4 * 4 + n1 in
  if (n1 =? 4) || (n100 =? 4) then (year - 1, 12, 31)
  else
    let leapyear := (n1 =? 3) && (negb (n4 =? 24) || (n100 =? 3)) in
    let month := Z.shiftr (n + 50) 5 in
    let preceding := days_before_month month + b2z ((2 <? month) && leapyear) in
    if n <? preceding
    then
      let month := month - 1 in
      let preceding :=
        preceding - (days_in_month month + b2z ((month =? 2) && leapyear)) in
      (year, month, n - preceding + 1)
    else (year, month, n - preceding + 1).

Definition dt_ordinal (t : datetime) : Z := t / us_per_day + 1.
Definition dt_year (t : datetime) : Z := fst (fst (ord2ymd (dt_ordinal t))).
Definition dt_month (t : datetime) : Z := snd (fst (ord2ymd (dt_ordinal t))).
Definition dt_day (t : datetime) : Z := snd (ord2ymd (dt_ordinal t)).
Definition dt_hour (t : datetime) : Z := (t mod us_per_day) / (3600 * us_per_second).
Definition dt_minute (t : datetime) : Z := (t mod (3600 * us_per_second)) / (60 * us_per_second).
Definition dt_second (t : datetime) : Z := (t mod (60 * us_per_second)) / us_per_second.

(** Hour on the 12-hour clock, [%I]. *)
Definition dt_hour12 (t : datetime) : Z := (dt_hour t + 11) mod 12 + 1.

(** [%p] in the C locale. *)
Definition dt_ampm (t : datetime) : string := if dt_hour t <? 12 then "AM" else "PM".

(** [t.strftime(fmt)] for the directives the program uses, as glibc
    renders them: month, day, hour, minute and second zero-padded to two
    digits, the year of [%Y] in plain decimal without padding (999 for
    the year 999, where the documentation of [datetime] shows 0999); any
    other character is copied. *)
Fixpoint strftime (fmt : string) (t : datetime) : string :=
  match fmt with
  | "" => ""
  | String "%" (String d r) =>
      (if Ascii.eqb d "Y" then str_int (dt_year t)
       else if Ascii.eqb d "m" then zpad 2 (dt_month t)
       else if Ascii.eqb d "d" then zpad 2 (dt_day t)
       else if Ascii.eqb d "H" then zpad 2 (dt_hour t)
       else if Ascii.eqb d "I" then zpad 2 (dt_hour12 t)
       else if Ascii.eqb d "M" then zpad 2 (dt_minute t)
       else if Ascii.eqb d "S" then zpad 2 (dt_second t)
       else if Ascii.eqb d "p" then dt_ampm t
       else String "%" (String d ""))
      ++ strftime r t
  | String c r => String c (strftime r t)
  end.


(* ================================================================== *)
(** ** Exceptions and dynamically typed values *)

Inductive exn_class :=
| URLError | JSONDecodeError | KeyError | IndexError | TypeError
| AttributeError | OverflowError | ProgrammingError
| OtherError (name : string).

(** An [Exception] instance: its class, [str(e)], [e.reason] (meaningful
    for [URLError] and its subclasses) and the text that
    [traceback.format_exc()] gives while it is being handled. *)
Record exn := Exn {
  exn_class_of : exn_class;
  exn_str : string;
  exn_reason : string;
  exn_traceback : string
}.

Definition is_URLError (e : exn) : bool :=
  match exn_class_of e with URLError => true | _ => false end.

Definition is_JSONDecodeError (e : exn) : bool :=
  match exn_class_of e with JSONDecodeError => true | _ => false end.

Definition mk_exn (c : exn_class) (msg : string) : exn := Exn c msg "" "".

Inductive Res (A : Type) :=
| Ok (a : A)
| Raise (e : exn).
Arguments Ok {A} a.
Arguments Raise {A} e.

(** What [json.loads] can return. *)
Inductive json :=
| JNull
| JBool (b : bool)
| JInt (n : Z)
| JFloat (repr : string)
| JStr (s : string)
| JArr (items : list json)
| JObj (members : list (string * json)).

Definition type_name (v : json) : string :=
  match v with
  | JNull => "NoneType" | JBool _ => "bool" | JInt _ => "int"
  | JFloat _ => "float" | JStr _ => "str" | JArr _ => "list"
  | JObj _ => "dict"
  end.

(** Truth value of a parsed value; a float is falsy exactly when it is a
    zero, which [float_is_zero] decides on its text. *)
Definition float_is_zero (repr : string) : bool :=
  (repr =? "0.0")%string || (repr =? "-0.0")%string.

Definition truthy (v : json) : bool :=
  match v with
  | JNull => false
  | JBool b => b
  | JInt n => negb (n =? 0)
  | JFloat r => negb (float_is_zero r)
  | JStr s => negb (s =? "")%string
  | JArr l => match l with [] => false | _ => true end
  | JObj l => match l with [] => false | _ => true end
  end.

Fixpoint lookup (k : string) (l : list (string * json)) : option json :=
  match l with
  | [] => None
  | (k', v) :: r => if (k =? k')%string then Some v else lookup k r
  end.

(** [v.get(key, default)]: only a dict has the method. *)
Definition dict_get (v : json) (key : string) (default : json) : Res json :=
  match v with
  | JObj l => Ok (match lookup key l with Some x => x | None => default end)
  | _ => Raise (mk_exn AttributeError
                  ("'" ++ type_name v ++ "' object has no attribute 'get'"))
  end.

(** [v[key]] for a string key. *)
Definition getitem (v : json) (key : string) : Res json :=
  match v with
  | JObj l =>
      match lookup key l with
      | Some x => Ok x
      | None => Raise (mk_exn KeyError ("'" ++ key ++ "'"))
      end
  | JArr _ => Raise (mk_exn TypeError "list indices must be integers or slices, not str")
  | JStr _ => Raise (mk_exn TypeError "string indices must be integers, not 'str'")
  | _ => Raise (mk_exn TypeError ("'" ++ type_name v ++ "' object is not subscriptable"))
  end.

(** [v[0]]. *)
Definition getitem0 (v : json) : Res json :=
  match v with
  | JArr (x :: _) => Ok x
  | JArr [] => Raise (mk_exn IndexError "list index out of range")
  | JStr (String c _) => Ok (JStr (String c ""))
  | JStr "" => Raise (mk_exn IndexError "string index out of range")
  | JObj _ => Raise (mk_exn KeyError "0")
  | _ => Raise (mk_exn TypeError ("'" ++ type_name v ++ "' object is not subscriptable"))
  end.

(** [t + d], which raises when the result leaves years 1..9999. *)
Definition dt_add (t : datetime) (d : timedelta) : Res datetime :=
  if in_range (t + d) then Ok (t + d)
  else Raise (mk_exn OverflowError "date value out of range").

(* ================================================================== *)
(** ** The relational store *)

Definition LAST_RUN : string := "Last Job Run Time".
Definition EXECUTOR : string := "JobExecutor".

(** A [JobData] row.  The server-side timestamps ([CreatedDate],
    [UpdatedDate]) are values of the server's own clock and are left out. *)
Record JobDataRow := {
  jd_Id : Z;
  jd_JobId : Z;
  jd_JobFieldDescription : string;
  jd_JobStringValue : option string;
  jd_JobDateValue : option datetime;
  jd_CreatedBy : string;
  jd_UpdatedBy : option string
}.

Record JobInstancesRow := {
  jis_Id : Z;
  jis_HasError : bool;
  jis_UpdatedBy : option string
}.

Record Tables := {
  JobInstance : list (Z * Z);        (* Id, JobScheduleId *)
  JobSchedule : list (Z * Z);        (* Id, JobId *)
  JobInstances : list JobInstancesRow;
  JobData : list JobDataRow;
  next_identity : Z                  (* next generated JobData.Id *)
}.

(** The seven statements the program sends, with their parameters. *)
Inductive Sql :=
| SelectJobIdOfInstance (job_instance_id : Z)
| UpdateInstanceHasError (job_instance_id : Z)
| InsertErrorRecord (job_id : Z) (field_desc error_message : string)
| SelectLastRunValue (job_id : Z)
| SelectLastRunId (job_id : Z)
| UpdateLastRun (current_time : datetime) (id : Z)
| InsertLastRun (job_id : Z) (current_time : datetime).

Definition is_last_run (job_id : Z) (r : JobDataRow) : bool :=
  (jd_JobId r =? job_id) && (jd_JobFieldDescription r =? LAST_RUN)%string.

(** SELECT js.JobId FROM JobInstance ji JOIN JobSchedule js
    ON ji.JobScheduleId = js.Id WHERE ji.Id = ? *)
Definition select_job_id (job_instance_id : Z) (t : Tables) : list Z :=
  flat_map
    (fun ji =>
       if fst ji =? job_instance_id
       then map snd (filter (fun js => fst js =? snd ji) (JobSchedule t))
       else [])
    (JobInstance t).

(** SELECT JobDateValue FROM JobData
    WHERE JobId = ? AND JobFieldDescription = 'Last Job Run Time' *)
Definition select_last_run_value (job_id : Z) (t : Tables) : list (option datetime) :=
  map jd_JobDateValue (filter (is_last_run job_id) (JobData t)).

(** SELECT Id FROM JobData
    WHERE JobId = ? AND JobFieldDescription = 'Last Job Run Time' *)
Definition select_last_run_id (job_id : Z) (t : Tables) : list Z :=
  map jd_Id (filter (is_last_run job_id) (JobData t)).

Definition set_JobData (rows : list JobDataRow) (t : Tables) : Tables :=
  {| JobInstance := JobInstance t; JobSchedule := JobSchedule t;
     JobInstances := JobInstances t; JobData := rows;
     next_identity := next_identity t |}.

Definition insert_JobData (mk : Z -> JobDataRow) (t : Tables) : Tables :=
  {| JobInstance := JobInstance t; JobSchedule := JobSchedule t;
     JobInstances := JobInstances t;
     JobData := JobData t ++ [mk (next_identity t)];
     next_identity := next_identity t + 1 |}.

(** The effect of a statement on the tables (none for a SELECT). *)
Definition sql_apply (s : Sql) (t : Tables) : Tables :=
  match s with
  | UpdateInstanceHasError iid =>
      {| JobInstance := JobInstance t; JobSchedule := JobSchedule t;
         JobInstances :=
           map (fun r => if jis_Id r =? iid
                         then {| jis_Id := jis_Id r; jis_HasError := true;
                                 jis_UpdatedBy := Some EXECUTOR |}
                         else r) (JobInstances t);
         JobData := JobData t; next_identity := next_identity t |}
  | InsertErrorRecord jid desc msg =>
      insert_JobData
        (fun id => {| jd_Id := id; jd_JobId := jid;
                      jd_JobFieldDescription := desc;
                      jd_JobStringValue := Some msg; jd_JobDateValue := None;
                      jd_CreatedBy := EXECUTOR; jd_UpdatedBy := None |}) t
  | UpdateLastRun now id =>
      set_JobData
        (map (fun r => if jd_Id r =? id
                       then {| jd_Id := jd_Id r; jd_JobId := jd_JobId r;
                               jd_JobFieldDescription := jd_JobFieldDescription r;
                               jd_JobStringValue := jd_JobStringValue r;
                               jd_JobDateValue := Some now;
                               jd_CreatedBy := jd_CreatedBy r;
                               jd_UpdatedBy := Some EXECUTOR |}
                       else r) (JobData t)) t
  | InsertLastRun jid now =>
      insert_JobData
        (fun id => {| jd_Id := id; jd_JobId := jid;
                      jd_JobFieldDescription := LAST_RUN;
                      jd_JobStringValue := None; jd_JobDateValue := Some now;
                      jd_CreatedBy := EXECUTOR; jd_UpdatedBy := None |}) t
  | _ => t
  end.

(* ================================================================== *)
(** ** The table store *)

Record Entity := {
  PartitionKey : string;
  RowKey : string;
  Action : string;
  Details : string;
  Level : string;
  Timestamp : datetime;
  JobId : Z;
  JobInstanceId : Z
}.

(* ================================================================== *)
(** ** The world outside the program *)

Inductive Connection := PyodbcConnection.
Inductive TableClient := JobLogsClient.

(** Everything the program does to the outside, in order.  A call is
    recorded when it is made, whether or not it then raises.
    [ELogProgress] and [ELogError] mark the entry into the two logging
    methods. *)
Inductive Event :=
| EPrint (line : string)
| ELogProgress (message level : string)
| ELogError (message stack_trace : string)
| EConnect (connection_string : string)
| ECursor
| EExecute (statement : Sql)
| EFetchone
| ECommit
| EClose
| ETableService (connection_string : json)
| ECreateTable (name : string)
| ECreateEntity (entity : Entity)
| EUrlopen (url : string) (timeout : Z).

Inductive ConnState := NotConnected | Open | Closed.

(** The oracles: which collaborator call fails and how, what the clock
    and the uuid generator return, what the endpoint answers, how
    [json.loads] and [str] behave, and the import-time feature flags. *)
Record Env := {
  HAS_PYODBC : bool;
  HAS_AZURE_TABLES : bool;
  odbc_drivers : list string;            (* pyodbc.drivers() *)
  utc_offset : timedelta;                (* local time minus UTC *)
  clock : nat -> datetime;               (* n-th reading of the UTC clock *)
  uuid_hex : nat -> string;              (* n-th uuid4().hex *)
  db_fault : nat -> option exn;          (* does the n-th driver call raise *)
  table_fault : nat -> option exn;       (* does the n-th table-store call raise *)
  http_response : nat -> Res string;     (* decoded body of the n-th fetch *)
  json_loads : string -> Res json;
  py_str : json -> string;               (* str(v) of a parsed value *)
  reclose : option exn                   (* close() on a closed connection *)
}.

Record World := {
  trace : list Event;
  clock_reads : nat;
  uuid_draws : nat;
  db_calls : nat;
  table_calls : nat;
  http_calls : nat;
  conn : ConnState;
  session : Tables;          (* the tables as the open connection sees them *)
  durable : Tables;          (* the committed tables *)
  JobLogs : list Entity;     (* the table-store table *)
  logs : list string         (* the list [logs] of the running execute_job *)
}.

Definition emit (ev : Event) (w : World) : World :=
  {| trace := trace w ++ [ev]; clock_reads := clock_reads w;
     uuid_draws := uuid_draws w; db_calls := db_calls w;
     table_calls := table_calls w; http_calls := http_calls w;
     conn := conn w; session := session w; durable := durable w;
     JobLogs := JobLogs w; logs := logs w |}.

Definition tick_clock (w : World) : World :=
  {| trace := trace w; clock_reads := S (clock_reads w);
     uuid_draws := uuid_draws w; db_calls := db_calls w;
     table_calls := table_calls w; http_calls := http_calls w;
     conn := conn w; session := session w; durable := durable w;
     JobLogs := JobLogs w; logs := logs w |}.

Definition tick_uuid (w : World) : World :=
  {| trace := trace w; clock_reads := clock_reads w;
     uuid_draws := S (uuid_draws w); db_calls := db_calls w;
     table_calls := table_calls w; http_calls := http_calls w;
     conn := conn w; session := session w; durable := durable w;
     JobLogs := JobLogs w; logs := logs w |}.

Definition tick_db (w : World) : World :=
  {| trace := trace w; clock_reads := clock_reads w;
     uuid_draws := uuid_draws w; db_calls := S (db_calls w);
     table_calls := table_calls w; http_calls := http_calls w;
     conn := conn w; session := session w; durable := durable w;
     JobLogs := JobLogs w; logs := logs w |}.

Definition tick_table (w : World) : World :=
  {| trace := trace w; clock_reads := clock_reads w;
     uuid_draws := uuid_draws w; db_calls := db_calls w;
     table_calls := S (table_calls w); http_calls := http_calls w;
     conn := conn w; session := session w; durable := durable w;
     JobLogs := JobLogs w; logs := logs w |}.

Definition tick_http (w : World) : World :=
  {| trace := trace w; clock_reads := clock_reads w;
     uuid_draws := uuid_draws w; db_calls := db_calls w;
     table_calls := table_calls w; http_calls := S (http_calls w);
     conn := conn w; session := session w; durable := durable w;
     JobLogs := JobLogs w; logs := logs w |}.

Definition set_db (c : ConnState) (s d : Tables) (w : World) : World :=
  {| trace := trace w; clock_reads := clock_reads w;
     uuid_draws := uuid_draws w; db_calls := db_calls w;
     table_calls := table_calls w; http_calls := http_calls w;
     conn := c; session := s; durable := d;
     JobLogs := JobLogs w; logs := logs w |}.

Definition set_JobLogs (l : list Entity) (w : World) : World :=
  {| trace := trace w; clock_reads := clock_reads w;
     uuid_draws := uuid_draws w; db_calls := db_calls w;
     table_calls := table_calls w; http_calls := http_calls w;
     conn := conn w; session := session w; durable := durable w;
     JobLogs := l; logs := logs w |}.

Definition set_logs (l : list string) (w : World) : World :=
  {| trace := trace w; clock_reads := clock_reads w;
     uuid_draws := uuid_draws w; db_calls := db_calls w;
     table_calls := table_calls w; http_calls := http_calls w;
     conn := conn w; session := session w; durable := durable w;
     JobLogs := JobLogs w; logs := l |}.

(* ================================================================== *)
(** ** The monad of effectful, fallible code *)

Definition M (A : Type) : Type := World -> Res A * World.

Definition ret {A} (a : A) : M A := fun w => (Ok a, w).

Definition bind {A B} (m : M A) (k : A -> M B) : M B :=
  fun w =>
    match m w with
    | (Ok a, w') => k a w'
    | (Raise e, w') => (Raise e, w')
    end.

Definition raise {A} (e : exn) : M A := fun w => (Raise e, w).

Definition lift {A} (r : Res A) : M A := fun w => (r, w).

(** [try: m  except Exception as e: handler e]. *)
Definition try_except {A} (m : M A) (handler : exn -> M A) : M A :=
  fun w =>
    match m w with
    | (Ok a, w') => (Ok a, w')
    | (Raise e, w') => handler e w'
    end.

(** [try: m  finally: fin]: [fin] runs on both exits; a failure of [fin]
    itself replaces the outcome of [m]. *)
Definition try_finally {A} (m : M A) (fin : M unit) : M A :=
  fun w =>
    let (r, w') := m w in
    match fin w' with
    | (Ok _, w'') => (r, w'')
    | (Raise e, w'') => (Raise e, w'')
    end.

Declare Scope py_scope.
Delimit Scope py_scope with py.
Notation "x <- m ;; k" := (bind m (fun x => k))
  (at level 100, m at next level, right associativity) : py_scope.
Notation "m ;; k" := (bind m (fun _ => k))
  (at level 100, right associativity) : py_scope.
Local Open Scope py_scope.

Definition when (b : bool) (m : M unit) : M unit := if b then m else ret tt.

(** [str(uuid.uuid4())] from the 32 hex digits. *)
Definition uuid_str (h : string) : string :=
  substring 0 8 h ++ "-" ++ substring 8 4 h ++ "-" ++ substring 12 4 h
  ++ "-" ++ substring 16 4 h ++ "-" ++ substring 20 12 h.

(** What pyodbc raises when a closed connection is used. *)
Definition closed_connection : exn :=
  mk_exn ProgrammingError "Attempt to use a closed connection.".

Definition same_key (a b : Entity) : bool :=
  (PartitionKey a =? PartitionKey b)%string && (RowKey a =? RowKey b)%string.

Section Collaborators.
Context (env : Env).

(** Record an event that cannot fail. *)
Definition mark (ev : Event) : M unit := fun w => (Ok tt, emit ev w).

Definition print (line : string) : M unit := mark (EPrint line).

(** [logs = []], [logs.append(line)] and the value of [logs]. *)
Definition logs_init : M unit := fun w => (Ok tt, set_logs [] w).

Definition logs_append (line : string) : M unit :=
  fun w => (Ok tt, set_logs (logs w ++ [line]) w).

Definition logs_get : M (list string) := fun w => (Ok (logs w), w).

(** [datetime.utcnow()] and [datetime.now()]: each is a reading of the
    clock. *)
Definition utcnow : M datetime :=
  fun w => (Ok (clock env (clock_reads w)), tick_clock w).

Definition now : M datetime :=
  fun w => (Ok (clock env (clock_reads w) + utc_offset env), tick_clock w).

Definition uuid4_hex : M string :=
  fun w => (Ok (uuid_hex env (uuid_draws w)), tick_uuid w).

(** One call into the ODBC driver on the connection. *)
Definition db_call (ev : Event) : M unit :=
  fun w =>
    let w' := tick_db (emit ev w) in
    match conn w with
    | Open =>
        match db_fault env (db_calls w) with
        | Some e => (Raise e, w')
        | None => (Ok tt, w')
        end
    | _ => (Raise closed_connection, w')
    end.

(** [pyodbc.connect(cs)]: a fresh session on the committed tables. *)
Definition connect (cs : string) : M Connection :=
  fun w =>
    let w' := tick_db (emit (EConnect cs) w) in
    match db_fault env (db_calls w) with
    | Some e => (Raise e, w')
    | None => (Ok PyodbcConnection, set_db Open (durable w') (durable w') w')
    end.

Definition cursor : M unit := db_call ECursor.

(** [cursor.execute] of a statement that changes rows. *)
Definition execute (s : Sql) : M unit :=
  db_call (EExecute s) ;;
  fun w => (Ok tt, set_db (conn w) (sql_apply s (session w)) (durable w) w).

(** [cursor.execute] of a SELECT: the rows it yields. *)
Definition query {A} (s : Sql) (select : Tables -> list A) : M (list A) :=
  db_call (EExecute s) ;;
  fun w => (Ok (select (session w)), w).

Definition fetchone {A} (rows : list A) : M (option A) :=
  db_call EFetchone ;; ret (hd_error rows).

Definition commit : M unit :=
  db_call ECommit ;;
  fun w => (Ok tt, set_db (conn w) (session w) (session w) w).

(** [connection.close()]: an open connection is released and its
    uncommitted work rolled back; on a connection that is not open the
    driver does what [reclose] says. *)
Definition connection_close : M unit :=
  fun w =>
    let w' := emit EClose w in
    match conn w with
    | Open => (Ok tt, set_db Closed (durable w') (durable w') w')
    | _ =>
        match reclose env with
        | Some e => (Raise e, w')
        | None => (Ok tt, w')
        end
    end.

(** One call into the table-store client library. *)
Definition table_call (ev : Event) : M unit :=
  fun w =>
    let w' := tick_table (emit ev w) in
    match table_fault env (table_calls w) with
    | Some e => (Raise e, w')
    | None => (Ok tt, w')
    end.

(** [table_client.create_entity(entity)]: an insert, refused when the
    (PartitionKey, RowKey) pair is already present. *)
Definition create_entity (entity : Entity) : M unit :=
  table_call (ECreateEntity entity) ;;
  fun w =>
    if existsb (same_key entity) (JobLogs w)
    then (Raise (mk_exn (OtherError "ResourceExistsError")
                   "The specified entity already exists."), w)
    else (Ok tt, set_JobLogs (JobLogs w ++ [entity]) w).

(** [urlopen(req, timeout=...)] followed by [response.read().decode()]. *)
Definition urlopen_read (url : string) (timeout : Z) : M string :=
  fun w =>
    (http_response env (http_calls w), tick_http (emit (EUrlopen url timeout) w)).

End Collaborators.

(* ================================================================== *)
(** ** class JobLogger *)

Record JobLogger := {
  self_connection_string : json;
  self_job_instance_id : Z;
  self_table_connection_string : json;
  self_connection : option Connection;
  self_job_id : Z;
  self_table_client : option TableClient
}.

Definition has_connection (self : JobLogger) : bool :=
  match self_connection self with Some _ => true | None => false end.

Definition has_table_client (self : JobLogger) : bool :=
  match self_table_client self with Some _ => true | None => false end.

(** The ODBC rewriting of the connection string (lines 41-54). *)
Definition odbc_dialect (connection_string : string) : string :=
  let cs := connection_string in
  let cs := replace "TrustServerCertificate=true" "TrustServerCertificate=yes" cs in
  let cs := replace "TrustServerCertificate=True" "TrustServerCertificate=yes" cs in
  let cs := replace "TrustServerCertificate=false" "TrustServerCertificate=no" cs in
  let cs := replace "TrustServerCertificate=False" "TrustServerCertificate=no" cs in
  let cs := replace "Encrypt=true" "Encrypt=yes" cs in
  let cs := replace "Encrypt=True" "Encrypt=yes" cs in
  let cs := replace "Encrypt=false" "Encrypt=no" cs in
  let cs := replace "Encrypt=False" "Encrypt=no" cs in
  let cs := replace "User ID=" "UID=" cs in
  let cs := replace "User Id=" "UID=" cs in
  replace "Password=" "PWD=" cs.

Definition mem (s : string) (l : list string) : bool :=
  existsb (String.eqb s) l.

(** Driver selection (lines 57-64). *)
Definition with_driver (drivers : list string) (cs : string) : string :=
  if contains "Driver={" cs then cs
  else if mem "ODBC Driver 17 for SQL Server" drivers
       then cs ++ ";Driver={ODBC Driver 17 for SQL Server};"
  else if mem "ODBC Driver 18 for SQL Server" drivers
       then cs ++ ";Driver={ODBC Driver 18 for SQL Server};TrustServerCertificate=yes;"
  else if mem "SQL Server" drivers
       then cs ++ ";Driver={SQL Server};"
  else cs.

(** [v.replace]: only a [str] has the method. *)
Definition as_str (v : json) : Res string :=
  match v with
  | JStr s => Ok s
  | _ => Raise (mk_exn AttributeError
                  ("'" ++ type_name v ++ "' object has no attribute 'replace'"))
  end.

Section Program.
Context (env : Env).

Definition _get_job_id_from_instance (self : JobLogger) : M Z :=
  if negb (has_connection self) || (self_job_instance_id self <=? 0) then ret 0
  else
    try_except
      (cursor env ;;
       rows <- query env (SelectJobIdOfInstance (self_job_instance_id self))
                 (select_job_id (self_job_instance_id self)) ;;
       row <- fetchone env rows ;;
       ret (match row with Some job_id => job_id | None => 0 end))
      (fun e =>
         print ("Warning: Could not get job_id from instance: " ++ exn_str e) ;;
         ret 0).

(** Lines 38-70 of [__init__]: connect and resolve the job id.  The
    result is what [self.connection] and [self.job_id] end up holding. *)
Definition open_connection (connection_string : json) (job_instance_id : Z)
    (self0 : JobLogger) : M (option Connection * Z) :=
  if HAS_PYODBC env && truthy connection_string then
    try_except
      (cs <- lift (as_str connection_string) ;;
       let cs := with_driver (odbc_drivers env) (odbc_dialect cs) in
       c <- connect env cs ;;
       job_id <- _get_job_id_from_instance
                   {| self_connection_string := self_connection_string self0;
                      self_job_instance_id := self_job_instance_id self0;
                      self_table_connection_string := self_table_connection_string self0;
                      self_connection := Some c;
                      self_job_id := self_job_id self0;
                      self_table_client := self_table_client self0 |} ;;
       ret (Some c, job_id))
      (fun e =>
         print ("Warning: Could not connect to database: " ++ exn_str e) ;;
         ret (None, 0))
  else ret (None, 0).

(** Lines 72-82 of [__init__]: the table-store client. *)
Definition open_table_client (table_connection_string : json)
    : M (option TableClient) :=
  if negb (HAS_AZURE_TABLES env) then
    print "[ERROR!] azure-data-tables package is not installed. Cannot log to Azure Table Storage." ;;
    ret None
  else if negb (truthy table_connection_string) then
    print "[ERROR!] Table connection string is missing. Cannot log to Azure Table Storage." ;;
    ret None
  else
    try_except
      (table_call env (ETableService table_connection_string) ;;
       table_call env (ECreateTable "JobLogs") ;;
       ret (Some JobLogsClient))
      (fun e =>
         print ("[ERROR!] Could not connect to Azure Table Storage: " ++ exn_str e) ;;
         ret None).

(** [JobLogger.__init__]. *)
Definition JobLogger_init (connection_string : json) (job_instance_id : Z)
    (table_connection_string : json) : M JobLogger :=
  let self0 :=
    {| self_connection_string := connection_string;
       self_job_instance_id := job_instance_id;
       self_table_connection_string := table_connection_string;
       self_connection := None;
       self_job_id := 0;
       self_table_client := None |} in
  cj <- open_connection connection_string job_instance_id self0 ;;
  table_client <- open_table_client table_connection_string ;;
  ret {| self_connection_string := connection_string;
         self_job_instance_id := job_instance_id;
         self_table_connection_string := table_connection_string;
         self_connection := fst cj;
         self_job_id := snd cj;
         self_table_client := table_client |}.

Definition _get_partition_key (self : JobLogger) : string :=
  str_int (self_job_id self) ++ "-" ++ str_int (self_job_instance_id self).

Definition log_progress (self : JobLogger) (message level : string) : M unit :=
  mark (ELogProgress message level) ;;
  t <- utcnow env ;;
  let timestamp := strftime "%Y-%m-%d %H:%M:%S" t in
  print ("[" ++ timestamp ++ "] [" ++ level ++ "] " ++ message) ;;
  when (has_table_client self && (0 <? self_job_id self))
    (try_except
       (let partition_key := _get_partition_key self in
        row_key <- uuid4_hex env ;;
        ts <- utcnow env ;;
        create_entity env
          {| PartitionKey := partition_key;
             RowKey := uuid_str row_key;
             Action := "JobProgress";
             Details := message;
             Level := level;
             Timestamp := ts;
             JobId := self_job_id self;
             JobInstanceId := self_job_instance_id self |})
       (fun e => print ("[ERROR!] Failed to log to Azure Table Storage: " ++ exn_str e))).

(** [f"{message}\n{stack_trace}" if stack_trace else message]. *)
Definition with_trace (message stack_trace : string) : string :=
  if (stack_trace =? "")%string then message
  else message ++ String "010" stack_trace.

(** Lines 133-155 of [log_error]: the relational sink. *)
Definition log_error_to_database (self : JobLogger) (message stack_trace : string)
    : M unit :=
  when (has_connection self && (0 <? self_job_instance_id self))
    (try_except
       (cursor env ;;
        execute env (UpdateInstanceHasError (self_job_instance_id self)) ;;
        when (0 <? self_job_id self)
          (t <- utcnow env ;;
           u <- uuid4_hex env ;;
           let field_desc := "Error_" ++ strftime "%Y%m%d%H%M%S" t ++ "_" ++ take 8 u in
           let error_message := with_trace message stack_trace in
           execute env (InsertErrorRecord (self_job_id self) field_desc error_message)) ;;
        commit env)
       (fun e => print ("Warning: Failed to log error to database: " ++ exn_str e))).

(** Lines 157-173 of [log_error]: the table-store sink. *)
Definition log_error_to_table (self : JobLogger) (message stack_trace : string)
    : M unit :=
  when (has_table_client self && (0 <? self_job_id self))
    (try_except
       (let error_message := with_trace message stack_trace in
        let partition_key := _get_partition_key self in
        row_key <- uuid4_hex env ;;
        ts <- utcnow env ;;
        create_entity env
          {| PartitionKey := partition_key;
             RowKey := uuid_str row_key;
             Action := "JobError";
             Details := error_message;
             Level := "Error";
             Timestamp := ts;
             JobId := self_job_id self;
             JobInstanceId := self_job_instance_id self |})
       (fun e => print ("[ERROR!] Failed to log error to Azure Table Storage: " ++ exn_str e))).

Definition log_error (self : JobLogger) (message stack_trace : string) : M unit :=
  mark (ELogError message stack_trace) ;;
  t <- utcnow env ;;
  let timestamp := strftime "%Y-%m-%d %H:%M:%S" t in
  print ("[" ++ timestamp ++ "] [ERROR] " ++ message) ;;
  log_error_to_database self message stack_trace ;;
  log_error_to_table self message stack_trace.

Definition close (self : JobLogger) : M unit :=
  when (has_connection self) (connection_close env).

End Program.

(* ================================================================== *)
(** ** execute_job *)

Definition WEATHER_URL : string := "https://wttr.in/Los+Angeles,CA?format=j1".

Section Job.
Context (env : Env).

(** Lines 195-203: the two connection descriptors out of the settings
    blob.  Only [json.loads] can raise [JSONDecodeError], and it runs
    before either descriptor is assigned, so the handler leaves both at
    their initial empty string. *)
Definition parse_settings (app_settings : option string) : M (json * json) :=
  try_except
    (settings <- (match app_settings with
                  | Some (String c r) => lift (json_loads env (String c r))
                  | _ => ret (JObj [])
                  end) ;;
     connection_strings <- lift (dict_get settings "ConnectionStrings" (JObj [])) ;;
     connection_string <- lift (dict_get connection_strings "blazororchestratordb" (JStr "")) ;;
     table_connection_string <- lift (dict_get connection_strings "tables" (JStr "")) ;;
     ret (connection_string, table_connection_string))
    (fun e => if is_JSONDecodeError e then ret (JStr "", JStr "") else raise e).

(** Lines 225-246: report the previous run time. *)
Definition report_previous_run (logger : JobLogger) (job_id : Z) : M unit :=
  when (has_connection logger && (0 <? job_id))
    (try_except
       (cursor env ;;
        rows <- query env (SelectLastRunValue job_id) (select_last_run_value job_id) ;;
        row <- fetchone env rows ;;
        match row with
        | Some (Some prev_run_time) =>
            local_now <- now env ;;
            utc_now <- utcnow env ;;
            local_time <- lift (dt_add prev_run_time (local_now - utc_now)) ;;
            let formatted_time :=
              strftime "%m/%d/%Y %I:%M" local_time ++ lower (strftime "%p" local_time) in
            let prev_run_msg := "Previous time the job was run: " ++ formatted_time in
            print prev_run_msg ;;
            log_progress env logger prev_run_msg "Info" ;;
            logs_append prev_run_msg
        | _ => ret tt
        end)
       (fun e => print ("Warning: Failed to read Last Job Run Time: " ++ exn_str e))).

(** Lines 261-268: the four readings out of the response body. *)
Definition extract_weather (body : string) : Res (json * json * json * json) :=
  match json_loads env body with
  | Raise e => Raise e
  | Ok weather_data =>
  match getitem weather_data "current_condition" with
  | Raise e => Raise e
  | Ok conditions =>
  match getitem0 conditions with
  | Raise e => Raise e
  | Ok current_condition =>
  match getitem current_condition "temp_C" with
  | Raise e => Raise e
  | Ok temp_c =>
  match getitem current_condition "temp_F" with
  | Raise e => Raise e
  | Ok temp_f =>
  match getitem current_condition "humidity" with
  | Raise e => Raise e
  | Ok humidity =>
  match getitem current_condition "weatherDesc" with
  | Raise e => Raise e
  | Ok descs =>
  match getitem0 descs with
  | Raise e => Raise e
  | Ok desc0 =>
  match getitem desc0 "value" with
  | Raise e => Raise e
  | Ok weather_desc => Ok (temp_c, temp_f, humidity, weather_desc)
  end end end end end end end end end.

(** The two messages of lines 215 and 220. *)
Definition exec_info (job_agent_id job_id job_instance_id job_schedule_id : Z)
    : string :=
  "Executing Job ID: " ++ str_int job_id ++ ", Instance: " ++ str_int job_instance_id
  ++ ", Schedule: " ++ str_int job_schedule_id ++ ", Agent: " ++ str_int job_agent_id.

Definition partition_key_info (job_id job_instance_id : Z) : string :=
  "Log partition key: " ++ str_int job_id ++ "-" ++ str_int job_instance_id.

(** Lines 212-223: the start of the run and its identifiers. *)
Definition announce (job_agent_id job_instance_id job_schedule_id : Z)
    (logger : JobLogger) (job_id : Z) : M unit :=
  log_progress env logger "Job started" "Info" ;;
  logs_append "Job started" ;;
  let exec_info := exec_info job_agent_id job_id job_instance_id job_schedule_id in
  print exec_info ;;
  log_progress env logger exec_info "Info" ;;
  logs_append exec_info ;;
  let partition_key_info := partition_key_info job_id job_instance_id in
  print partition_key_info ;;
  log_progress env logger partition_key_info "Info" ;;
  logs_append partition_key_info.

(** Lines 248-284: fetch and report the weather. *)
Definition fetch_weather (logger : JobLogger) : M unit :=
  log_progress env logger "Fetching weather data for Los Angeles, CA" "Info" ;;
  logs_append "Fetching weather data for Los Angeles, CA" ;;
  try_except
    (body <- urlopen_read env WEATHER_URL 30 ;;
     readings <- lift (extract_weather body) ;;
     let '(temp_c, temp_f, humidity, weather_desc) := readings in
     let weather_info :=
       "Los Angeles, CA - Temperature: " ++ py_str env temp_f ++ "°F ("
       ++ py_str env temp_c ++ "°C), Humidity: " ++ py_str env humidity
       ++ "%, Conditions: " ++ py_str env weather_desc in
     print weather_info ;;
     log_progress env logger weather_info "Info" ;;
     logs_append weather_info)
    (fun e =>
       if is_URLError e then
         let error_msg := "Failed to fetch weather data: " ++ exn_reason e in
         print error_msg ;;
         log_progress env logger error_msg "Warning" ;;
         logs_append error_msg
       else
         let error_msg := "Error processing weather data: " ++ exn_str e in
         print error_msg ;;
         log_progress env logger error_msg "Warning" ;;
         logs_append error_msg).

(** Lines 286-287. *)
Definition complete (logger : JobLogger) : M unit :=
  log_progress env logger "Job completed successfully!" "Info" ;;
  logs_append "Job completed successfully!".

(** Lines 212-287: the body of the [try]. *)
Definition job_steps (job_agent_id job_instance_id job_schedule_id : Z)
    (logger : JobLogger) (job_id : Z) : M unit :=
  announce job_agent_id job_instance_id job_schedule_id logger job_id ;;
  report_previous_run logger job_id ;;
  fetch_weather logger ;;
  complete logger.

(** Lines 289-295: the handler of the outer [try]. *)
Definition on_failure (logger : JobLogger) (e : exn) : M unit :=
  let error_msg := "Job execution error: " ++ exn_str e in
  let stack_trace := exn_traceback e in
  log_error env logger error_msg stack_trace ;;
  logs_append error_msg ;;
  raise e.

(** Lines 297-322: update Last Job Run Time. *)
Definition update_last_job_run_time (logger : JobLogger) (job_id : Z) : M unit :=
  when (has_connection logger && (0 <? job_id))
    (try_except
       (cursor env ;;
        rows <- query env (SelectLastRunId job_id) (select_last_run_id job_id) ;;
        row <- fetchone env rows ;;
        current_time <- utcnow env ;;
        match row with
        | Some id => execute env (UpdateLastRun current_time id)
        | None => execute env (InsertLastRun job_id current_time)
        end ;;
        commit env)
       (fun e => print ("Warning: Failed to update Last Job Run Time: " ++ exn_str e))).

(** Lines 296-324: the [finally] block. *)
Definition finalization (logger : JobLogger) (job_id : Z) : M unit :=
  update_last_job_run_time logger job_id ;;
  close env logger.

(** Line 208: adopt the resolved job id when none was supplied. *)
Definition effective_job_id (logger : JobLogger) (job_id : Z) : Z :=
  if (job_id <=? 0) && (0 <? self_job_id logger) then self_job_id logger else job_id.

(** Lines 193-205: the settings are read and the logger constructed. *)
Definition acquire_logger (app_settings : option string) (job_instance_id : Z)
    : M JobLogger :=
  logs_init ;;
  descriptors <- parse_settings app_settings ;;
  let connection_string := fst descriptors in
  let table_connection_string := snd descriptors in
  JobLogger_init env connection_string job_instance_id table_connection_string.

(** [execute_job] with the body of its [try] block as a parameter, so
    that the handler and the [finally] block can be studied against any
    behaviour of the steps. *)
Definition execute_job_with (steps : JobLogger -> Z -> M unit)
    (app_settings : option string) (job_id job_instance_id : Z)
    : M (list string) :=
  logger <- acquire_logger app_settings job_instance_id ;;
  let job_id := effective_job_id logger job_id in
  try_finally
    (try_except (steps logger job_id) (on_failure logger))
    (finalization logger job_id) ;;
  logs_get.

Definition execute_job (app_settings : option string)
    (job_agent_id job_id job_instance_id job_schedule_id : Z) : M (list string) :=
  execute_job_with (job_steps job_agent_id job_instance_id job_schedule_id)
    app_settings job_id job_instance_id.

End Job.

(* ================================================================== *)
(** ** Reasoning about runs *)

(** [total m]: [m] returns normally from every world.
    [keeps R m]: every world is [R]-related to the one [m] leaves behind,
    however [m] ends. *)
Definition total {A} (m : M A) : Prop :=
  forall w, exists a w', m w = (Ok a, w').

Definition keeps {A} (R : World -> World -> Prop) (m : M A) : Prop :=
  forall w, R w (snd (m w)).

Lemma bind_ok {A B} (m : M A) (k : A -> M B) w a w' :
  m w = (Ok a, w') -> bind m k w = k a w'.
Proof. intros E. unfold bind. rewrite E. reflexivity. Qed.

Lemma bind_raise {A B} (m : M A) (k : A -> M B) w e w' :
  m w = (Raise e, w') -> bind m k w = (Raise e, w').
Proof. intros E. unfold bind. rewrite E. reflexivity. Qed.

Lemma total_run {A} (m : M A) :
  total m -> forall w, exists a, m w = (Ok a, snd (m w)).
Proof. intros T w. destruct (T w) as (a & w' & E). exists a. rewrite E. reflexivity. Qed.

Section Totality.

Lemma total_ret {A} (a : A) : total (ret a).
Proof. intros w. exists a, w. reflexivity. Qed.

Lemma total_bind {A B} (m : M A) (k : A -> M B) :
  total m -> (forall a, total (k a)) -> total (bind m k).
Proof.
  intros Tm Tk w. destruct (Tm w) as (a & w1 & E).
  rewrite (bind_ok _ _ _ _ _ E). apply Tk.
Qed.

Lemma total_try_except {A} (m : M A) (h : exn -> M A) :
  (forall e, total (h e)) -> total (try_except m h).
Proof.
  intros Th w. unfold try_except.
  destruct (m w) as [[a|e] w1]; [exists a, w1; reflexivity | apply Th].
Qed.

Lemma total_when (b : bool) (m : M unit) : total m -> total (when b m).
Proof. destruct b; simpl; [trivial | intros _; apply total_ret]. Qed.

End Totality.

Section Keeping.
Context (R : World -> World -> Prop).

Lemma keeps_ret {A} `{!PreOrder R} (a : A) : keeps R (ret a).
Proof. intros w. reflexivity. Qed.

Lemma keeps_raise {A} `{!PreOrder R} (e : exn) : keeps R (@raise A e).
Proof. intros w. reflexivity. Qed.

Lemma keeps_lift {A} `{!PreOrder R} (r : Res A) : keeps R (lift r).
Proof. intros w. reflexivity. Qed.

Lemma keeps_bind {A B} `{!PreOrder R} (m : M A) (k : A -> M B) :
  keeps R m -> (forall a, keeps R (k a)) -> keeps R (bind m k).
Proof.
  intros Km Kk w. specialize (Km w). unfold bind.
  destruct (m w) as [[a|e] w1]; simpl in *.
  - etransitivity; [exact Km | apply Kk].
  - exact Km.
Qed.

Lemma keeps_try_except {A} `{!PreOrder R} (m : M A) (h : exn -> M A) :
  keeps R m -> (forall e, keeps R (h e)) -> keeps R (try_except m h).
Proof.
  intros Km Kh w. specialize (Km w). unfold try_except.
  destruct (m w) as [[a|e] w1]; simpl in *.
  - exact Km.
  - etransitivity; [exact Km | apply Kh].
Qed.

Lemma keeps_try_finally {A} `{!PreOrder R} (m : M A) (fin : M unit) :
  keeps R m -> keeps R fin -> keeps R (try_finally m fin).
Proof.
  intros Km Kf w. specialize (Km w). unfold try_finally.
  destruct (m w) as [r w1]; simpl in *. specialize (Kf w1).
  destruct (fin w1) as [[u|e] w2]; simpl in *; etransitivity; eauto.
Qed.

Lemma keeps_when `{!PreOrder R} (b : bool) (m : M unit) :
  keeps R m -> keeps R (when b m).
Proof. destruct b; simpl; [trivial | intros _; apply keeps_ret; assumption]. Qed.

End Keeping.

(** The relations that runs are shown to keep. *)

(** An observation of the world is left as it was. *)
Definition Same {T} (obs : World -> T) (w w' : World) : Prop := obs w' = obs w.

(** The trace grows by events that all satisfy [P]. *)
Definition Emits (P : Event -> Prop) (w w' : World) : Prop :=
  exists l, trace w' = (trace w ++ l)%list /\ Forall P l.

(** The table-store table grows by entities that all satisfy [P]. *)
Definition Stores (P : Entity -> Prop) (w w' : World) : Prop :=
  exists l, JobLogs w' = (JobLogs w ++ l)%list /\ Forall P l.

(** The list [logs] grows. *)
Definition Appends (w w' : World) : Prop :=
  exists l, logs w' = (logs w ++ l)%list.

#[export] Instance Same_PreOrder {T} (obs : World -> T) : PreOrder (Same obs).
Proof. split; unfold Same; [intros w; reflexivity | intros a b c; congruence]. Qed.

#[export] Instance Emits_PreOrder P : PreOrder (Emits P).
Proof.
  split.
  - intros w. exists []. rewrite app_nil_r. auto.
  - intros a b c (l1 & E1 & F1) (l2 & E2 & F2). exists (l1 ++ l2)%list.
    rewrite E2, E1, app_assoc. split; [reflexivity | apply Forall_app; auto].
Qed.

#[export] Instance Stores_PreOrder P : PreOrder (Stores P).
Proof.
  split.
  - intros w. exists []. rewrite app_nil_r. auto.
  - intros a b c (l1 & E1 & F1) (l2 & E2 & F2). exists (l1 ++ l2)%list.
    rewrite E2, E1, app_assoc. split; [reflexivity | apply Forall_app; auto].
Qed.

#[export] Instance Appends_PreOrder : PreOrder Appends.
Proof.
  split.
  - intros w. exists []. rewrite app_nil_r. auto.
  - intros a b c (l1 & E1) (l2 & E2). exists (l1 ++ l2)%list.
    rewrite E2, E1, app_assoc. reflexivity.
Qed.

Lemma Emits_same P w w' : trace w' = trace w -> Emits P w w'.
Proof. intros E. exists []. rewrite app_nil_r. auto. Qed.

Lemma Emits_one P ev w w' : trace w' = (trace w ++ [ev])%list -> P ev -> Emits P w w'.
Proof. intros E H. exists [ev]. auto. Qed.

Lemma Stores_same P w w' : JobLogs w' = JobLogs w -> Stores P w w'.
Proof. intros E. exists []. rewrite app_nil_r. auto. Qed.

Lemma Stores_one P ent w w' :
  JobLogs w' = (JobLogs w ++ [ent])%list -> P ent -> Stores P w w'.
Proof. intros E H. exists [ent]. auto. Qed.

Lemma Appends_same w w' : logs w' = logs w -> Appends w w'.
Proof. intros E. exists []. rewrite app_nil_r. auto. Qed.

Lemma Appends_one line w w' : logs w' = (logs w ++ [line])%list -> Appends w w'.
Proof. intros E. exists [line]. auto. Qed.

(** The entities that a logger writes: under its own partition key and
    job id, and only when it holds a table client and a positive job id. *)
Definition written_by (self : JobLogger) (ent : Entity) : Prop :=
  PartitionKey ent = _get_partition_key self /\
  JobId ent = self_job_id self /\
  JobInstanceId ent = self_job_instance_id self /\
  has_table_client self = true /\
  0 < self_job_id self.

(** A condition on the table-store writes among the events. *)
Definition writes (P : Entity -> Prop) (ev : Event) : Prop :=
  match ev with
  | ECreateEntity ent => P ent
  | _ => True
  end.

Definition nothing (ent : Entity) : Prop := False.

Lemma guard_written_by self rk act det lvl ts :
  has_table_client self && (0 <? self_job_id self) = true ->
  written_by self
    {| PartitionKey := _get_partition_key self; RowKey := rk; Action := act;
       Details := det; Level := lvl; Timestamp := ts;
       JobId := self_job_id self;
       JobInstanceId := self_job_instance_id self |}.
Proof.
  intros G. apply andb_prop in G. destruct G as [G1 G2].
  apply Z.ltb_lt in G2. unfold written_by. simpl. auto.
Qed.

Create HintDb run.
#[export] Hint Resolve guard_written_by : run.

(** Case analysis on everything a primitive branches on. *)
Ltac branches :=
  repeat match goal with
         | |- context [match ?x with _ => _ end] => destruct x eqn:?; simpl
         end.

Ltac unfold_prims :=
  cbv [bind ret raise lift mark print logs_init logs_append logs_get utcnow now
       uuid4_hex db_call connect cursor execute query fetchone commit
       connection_close table_call create_entity urlopen_read].

(** Projections of an updated world, and appends put in normal form. *)
Ltac world_simpl :=
  cbn [trace clock_reads uuid_draws db_calls table_calls http_calls conn
       session durable JobLogs logs emit tick_clock tick_uuid tick_db
       tick_table tick_http set_db set_JobLogs set_logs fst snd];
  rewrite <- ?app_assoc; cbn [app].

(** Case analysis on the state of the connection and on the oracles. *)
Ltac oracle_cases :=
  repeat (world_simpl;
          match goal with
          | |- context [match conn ?w with _ => _ end] => destruct (conn w) eqn:?
          | |- context [match db_fault ?e ?n with _ => _ end] =>
              destruct (db_fault e n) eqn:?
          | |- context [match table_fault ?e ?n with _ => _ end] =>
              destruct (table_fault e n) eqn:?
          | |- context [if existsb ?f ?l then _ else _] =>
              destruct (existsb f l) eqn:?
          | |- context [if 0 <? ?x then _ else _] => destruct (0 <? x) eqn:?
          | |- context [match hd_error ?l with _ => _ end] =>
              destruct (hd_error l) eqn:?
          end);
  world_simpl.

(** Closes [keeps R m] for a primitive [m] and one of the relations. *)
Ltac prim :=
  let w := fresh "w" in
  intro w; unfold_prims; branches; simpl;
  first [ reflexivity
        | apply Emits_same; reflexivity
        | eapply Emits_one; [reflexivity | simpl; auto with run]
        | apply Stores_same; reflexivity
        | eapply Stores_one; [reflexivity | simpl; auto with run]
        | apply Appends_same; reflexivity
        | eapply Appends_one; reflexivity ].

(** Splits [keeps R m] and [total m] along the structure of [m]. *)
Ltac keeping :=
  repeat first
    [ assumption
    | solve [auto with run]
    | apply keeps_ret; exact _
    | apply keeps_raise; exact _
    | apply keeps_lift; exact _
    | apply keeps_bind; [exact _ | | intro]
    | apply keeps_try_except; [exact _ | | intro]
    | apply keeps_try_finally; [exact _ | | ]
    | match goal with
      | |- keeps _ (when ?b _) =>
          destruct b eqn:?; unfold when; [| apply keeps_ret; exact _]
      | |- keeps _ (if ?b then _ else _) => destruct b eqn:?
      | |- keeps _ (match ?x with _ => _ end) => destruct x eqn:?
      end
    | solve [prim] ].

Ltac totality :=
  repeat first
    [ assumption
    | solve [auto with run]
    | apply total_ret
    | apply total_bind; [| intro]
    | apply total_try_except; intro
    | apply total_when
    | match goal with
      | |- total (if ?b then _ else _) => destruct b
      | |- total (match ?x with _ => _ end) => destruct x
      end
    | solve [intro; unfold_prims; eexists _, _; reflexivity] ].

Section Facts.
Context (env : Env).

(** *** The logger's methods *)

Lemma log_progress_total self message level :
  total (log_progress env self message level).
Proof. unfold log_progress. totality. Qed.

Lemma log_error_total self message stack_trace :
  total (log_error env self message stack_trace).
Proof. unfold log_error, log_error_to_database, log_error_to_table. totality. Qed.

Lemma log_progress_conn self message level :
  keeps (Same conn) (log_progress env self message level).
Proof. unfold log_progress. keeping. Qed.

Lemma log_progress_http self message level :
  keeps (Same http_calls) (log_progress env self message level).
Proof. unfold log_progress. keeping. Qed.

Lemma log_progress_logs self message level :
  keeps (Same logs) (log_progress env self message level).
Proof. unfold log_progress. keeping. Qed.

Lemma log_progress_writes self message level :
  keeps (Emits (writes (written_by self))) (log_progress env self message level).
Proof. unfold log_progress. keeping. Qed.

Lemma log_progress_stores self message level :
  keeps (Stores (written_by self)) (log_progress env self message level).
Proof. unfold log_progress. keeping. Qed.

Lemma log_error_conn self message stack_trace :
  keeps (Same conn) (log_error env self message stack_trace).
Proof. unfold log_error, log_error_to_database, log_error_to_table. keeping. Qed.

Lemma log_error_logs self message stack_trace :
  keeps (Same logs) (log_error env self message stack_trace).
Proof. unfold log_error, log_error_to_database, log_error_to_table. keeping. Qed.

Lemma log_error_writes self message stack_trace :
  keeps (Emits (writes (written_by self))) (log_error env self message stack_trace).
Proof. unfold log_error, log_error_to_database, log_error_to_table. keeping. Qed.

Lemma log_error_stores self message stack_trace :
  keeps (Stores (written_by self)) (log_error env self message stack_trace).
Proof. unfold log_error, log_error_to_database, log_error_to_table. keeping. Qed.

End Facts.

#[export] Hint Resolve log_progress_total log_error_total log_progress_conn
  log_progress_http log_progress_logs log_progress_writes log_progress_stores
  log_error_conn log_error_logs log_error_writes log_error_stores : run.

Section JobFacts.
Context (env : Env).

(** *** Construction of the logger *)

Lemma get_job_id_total self : total (_get_job_id_from_instance env self).
Proof. unfold _get_job_id_from_instance. totality. Qed.

Lemma JobLogger_init_total cs iid tcs : total (JobLogger_init env cs iid tcs).
Proof.
  unfold JobLogger_init, open_connection, open_table_client.
  pose proof get_job_id_total. totality.
Qed.

Lemma JobLogger_init_http cs iid tcs :
  keeps (Same http_calls) (JobLogger_init env cs iid tcs).
Proof.
  unfold JobLogger_init, open_connection, open_table_client,
    _get_job_id_from_instance.
  keeping.
Qed.

Lemma JobLogger_init_logs cs iid tcs :
  keeps (Same logs) (JobLogger_init env cs iid tcs).
Proof.
  unfold JobLogger_init, open_connection, open_table_client,
    _get_job_id_from_instance.
  keeping.
Qed.

Lemma JobLogger_init_writes cs iid tcs :
  keeps (Emits (writes nothing)) (JobLogger_init env cs iid tcs).
Proof.
  unfold JobLogger_init, open_connection, open_table_client,
    _get_job_id_from_instance.
  keeping.
Qed.

Lemma JobLogger_init_stores cs iid tcs :
  keeps (Same JobLogs) (JobLogger_init env cs iid tcs).
Proof.
  unfold JobLogger_init, open_connection, open_table_client,
    _get_job_id_from_instance.
  keeping.
Qed.

(** *** The steps *)

Lemma report_previous_run_total logger job_id :
  total (report_previous_run env logger job_id).
Proof. unfold report_previous_run. totality. Qed.

Lemma report_previous_run_conn logger job_id :
  keeps (Same conn) (report_previous_run env logger job_id).
Proof. unfold report_previous_run. keeping. Qed.

Lemma report_previous_run_http logger job_id :
  keeps (Same http_calls) (report_previous_run env logger job_id).
Proof. unfold report_previous_run. keeping. Qed.

Lemma report_previous_run_writes logger job_id :
  keeps (Emits (writes (written_by logger))) (report_previous_run env logger job_id).
Proof. unfold report_previous_run. keeping. Qed.

Lemma report_previous_run_stores logger job_id :
  keeps (Stores (written_by logger)) (report_previous_run env logger job_id).
Proof. unfold report_previous_run. keeping. Qed.

Lemma report_previous_run_appends logger job_id :
  keeps Appends (report_previous_run env logger job_id).
Proof.
  pose proof (fun m l w => Appends_same _ _ (log_progress_logs env logger m l w)).
  unfold report_previous_run. keeping.
Qed.

Lemma fetch_weather_total logger : total (fetch_weather env logger).
Proof. unfold fetch_weather. totality. Qed.

Lemma fetch_weather_conn logger : keeps (Same conn) (fetch_weather env logger).
Proof. unfold fetch_weather. keeping. Qed.

Lemma fetch_weather_writes logger :
  keeps (Emits (writes (written_by logger))) (fetch_weather env logger).
Proof. unfold fetch_weather. keeping. Qed.

Lemma fetch_weather_stores logger :
  keeps (Stores (written_by logger)) (fetch_weather env logger).
Proof. unfold fetch_weather. keeping. Qed.

Lemma fetch_weather_appends logger : keeps Appends (fetch_weather env logger).
Proof.
  pose proof (fun m l w => Appends_same _ _ (log_progress_logs env logger m l w)).
  unfold fetch_weather. keeping.
Qed.

Lemma announce_total a i s logger job_id : total (announce env a i s logger job_id).
Proof. unfold announce. totality. Qed.

Lemma announce_conn a i s logger job_id :
  keeps (Same conn) (announce env a i s logger job_id).
Proof. unfold announce. keeping. Qed.

Lemma announce_http a i s logger job_id :
  keeps (Same http_calls) (announce env a i s logger job_id).
Proof. unfold announce. keeping. Qed.

Lemma announce_writes a i s logger job_id :
  keeps (Emits (writes (written_by logger))) (announce env a i s logger job_id).
Proof. unfold announce. keeping. Qed.

Lemma announce_stores a i s logger job_id :
  keeps (Stores (written_by logger)) (announce env a i s logger job_id).
Proof. unfold announce. keeping. Qed.

Lemma complete_total logger : total (complete env logger).
Proof. unfold complete. totality. Qed.

Lemma complete_conn logger : keeps (Same conn) (complete env logger).
Proof. unfold complete. keeping. Qed.

Lemma complete_writes logger :
  keeps (Emits (writes (written_by logger))) (complete env logger).
Proof. unfold complete. keeping. Qed.

Lemma complete_stores logger :
  keeps (Stores (written_by logger)) (complete env logger).
Proof. unfold complete. keeping. Qed.

Lemma job_steps_total a i s logger job_id : total (job_steps env a i s logger job_id).
Proof.
  pose proof announce_total. pose proof complete_total.
  pose proof report_previous_run_total. pose proof fetch_weather_total.
  unfold job_steps. totality.
Qed.

Lemma job_steps_conn a i s logger job_id :
  keeps (Same conn) (job_steps env a i s logger job_id).
Proof.
  pose proof announce_conn. pose proof complete_conn.
  pose proof report_previous_run_conn. pose proof fetch_weather_conn.
  unfold job_steps. keeping.
Qed.

Lemma job_steps_writes a i s logger job_id :
  keeps (Emits (writes (written_by logger))) (job_steps env a i s logger job_id).
Proof.
  pose proof announce_writes. pose proof complete_writes.
  pose proof report_previous_run_writes. pose proof fetch_weather_writes.
  unfold job_steps. keeping.
Qed.

Lemma job_steps_stores a i s logger job_id :
  keeps (Stores (written_by logger)) (job_steps env a i s logger job_id).
Proof.
  pose proof announce_stores. pose proof complete_stores.
  pose proof report_previous_run_stores. pose proof fetch_weather_stores.
  unfold job_steps. keeping.
Qed.

(** *** The handler and the finally block *)

Lemma update_last_job_run_time_total logger job_id :
  total (update_last_job_run_time env logger job_id).
Proof. unfold update_last_job_run_time. totality. Qed.

Lemma update_last_job_run_time_conn logger job_id :
  keeps (Same conn) (update_last_job_run_time env logger job_id).
Proof. unfold update_last_job_run_time. keeping. Qed.

Lemma update_last_job_run_time_logs logger job_id :
  keeps (Same logs) (update_last_job_run_time env logger job_id).
Proof. unfold update_last_job_run_time. keeping. Qed.

Lemma update_last_job_run_time_stores logger job_id :
  keeps (Same JobLogs) (update_last_job_run_time env logger job_id).
Proof. unfold update_last_job_run_time. keeping. Qed.

Lemma finalization_writes P logger job_id :
  keeps (Emits (writes P)) (finalization env logger job_id).
Proof. unfold finalization, update_last_job_run_time, close. keeping. Qed.

Lemma finalization_stores logger job_id :
  keeps (Same JobLogs) (finalization env logger job_id).
Proof. unfold finalization, update_last_job_run_time, close. keeping. Qed.

Lemma finalization_logs logger job_id :
  keeps (Same logs) (finalization env logger job_id).
Proof. unfold finalization, update_last_job_run_time, close. keeping. Qed.

Lemma on_failure_writes logger e :
  keeps (Emits (writes (written_by logger))) (on_failure env logger e).
Proof. unfold on_failure. keeping. Qed.

Lemma on_failure_stores logger e :
  keeps (Stores (written_by logger)) (on_failure env logger e).
Proof. unfold on_failure. keeping. Qed.

(** [close] returns normally on a logger without a connection and on one
    whose connection is open. *)
Lemma close_ok self w :
  (has_connection self = true -> conn w = Open) ->
  exists w', close env self w = (Ok tt, w') /\ logs w' = logs w.
Proof.
  intros H. unfold close, when. destruct (has_connection self).
  - unfold connection_close. rewrite (H eq_refl). eexists. split; reflexivity.
  - eexists. split; reflexivity.
Qed.

End JobFacts.

(* ================================================================== *)
(** ** A concrete environment *)

Module Demo.

(** The text with each apostrophe turned into a double quote. *)
Definition dq (s : string) : string := replace "'" (String "034" "") s.

Definition settings_blob : string :=
  dq "{'ConnectionStrings': {'blazororchestratordb': 'Server=db;Encrypt=true;User ID=sa;Password=pw', 'tables': 'UseDevelopmentStorage=true'}}".

Definition weather_blob : string :=
  dq "{'current_condition': [{'temp_C': '20', 'temp_F': '68', 'humidity': '50', 'weatherDesc': [{'value': 'Sunny'}]}]}".

(** Settings that name the table store but no database. *)
Definition tables_only_blob : string :=
  dq "{'ConnectionStrings': {'tables': 'UseDevelopmentStorage=true'}}".

Definition settings_value : json :=
  JObj [("ConnectionStrings",
         JObj [("blazororchestratordb",
                JStr "Server=db;Encrypt=true;User ID=sa;Password=pw");
               ("tables", JStr "UseDevelopmentStorage=true")])].

Definition weather_value : json :=
  JObj [("current_condition",
         JArr [JObj [("temp_C", JStr "20"); ("temp_F", JStr "68");
                     ("humidity", JStr "50");
                     ("weatherDesc", JArr [JObj [("value", JStr "Sunny")]])]])].

(** A parser that knows five documents and rejects every other text. *)
Definition loads (s : string) : Res json :=
  if (s =? settings_blob)%string then Ok settings_value
  else if (s =? tables_only_blob)%string
  then Ok (JObj [("ConnectionStrings",
                  JObj [("tables", JStr "UseDevelopmentStorage=true")])])
  else if (s =? weather_blob)%string then Ok weather_value
  else if (s =? "{}")%string then Ok (JObj [])
  else if (s =? "[]")%string then Ok (JArr [])
  else Raise (Exn JSONDecodeError "Expecting value: line 1 column 1 (char 0)" ""
                "Traceback (most recent call last): json.decoder.JSONDecodeError").

Definition str_of (v : json) : string :=
  match v with
  | JStr s => s
  | JInt n => str_int n
  | JNull => "None"
  | JBool true => "True"
  | JBool false => "False"
  | JFloat r => r
  | JArr _ => "[...]"
  | JObj _ => "{...}"
  end.

(** 2024-04-25 13:05:09.000017 UTC. *)
Definition t0 : datetime := (739000 * 86400 + 13 * 3600 + 5 * 60 + 9) * 1000000 + 17.

Definition hex2 (n : nat) : string :=
  let d k := ascii_of_nat (97 + Nat.modulo k 6) in
  String (d (Nat.div n 6)) (String (d n) "").

Definition env : Env := {|
  HAS_PYODBC := true;
  HAS_AZURE_TABLES := true;
  odbc_drivers := ["SQL Server"; "ODBC Driver 18 for SQL Server"];
  utc_offset := - (7 * 3600 * 1000000);
  clock := fun n => t0 + Z.of_nat n * 1500;
  uuid_hex := fun n => "0123456789abcdef0123456789abcd" ++ hex2 n;
  db_fault := fun _ => None;
  table_fault := fun _ => None;
  http_response := fun _ => Ok weather_blob;
  json_loads := loads;
  py_str := str_of;
  reclose := Some closed_connection
|}.

Definition tables : Tables := {|
  JobInstance := [(12, 3)];
  JobSchedule := [(3, 5)];
  JobInstances := [{| jis_Id := 12; jis_HasError := false; jis_UpdatedBy := None |}];
  JobData := [];
  next_identity := 1
|}.

Definition world : World := {|
  trace := []; clock_reads := 0; uuid_draws := 0; db_calls := 0;
  table_calls := 0; http_calls := 0; conn := NotConnected;
  session := tables; durable := tables; JobLogs := []; logs := []
|}.

(** The endpoint times out. *)
Definition timeout : exn :=
  Exn URLError "<urlopen error timed out>" "timed out"
    "Traceback (most recent call last): urllib.error.URLError".

Definition env_offline : Env := {|
  HAS_PYODBC := HAS_PYODBC env;
  HAS_AZURE_TABLES := HAS_AZURE_TABLES env;
  odbc_drivers := odbc_drivers env;
  utc_offset := utc_offset env;
  clock := clock env;
  uuid_hex := uuid_hex env;
  db_fault := db_fault env;
  table_fault := table_fault env;
  http_response := fun _ => Raise timeout;
  json_loads := loads;
  py_str := str_of;
  reclose := reclose env
|}.

(** The logger that a run with [settings_blob] for instance 12 builds,
    and the world it starts its steps in. *)
Definition logger : JobLogger := {|
  self_connection_string := JStr "Server=db;Encrypt=true;User ID=sa;Password=pw";
  self_job_instance_id := 12;
  self_table_connection_string := JStr "UseDevelopmentStorage=true";
  self_connection := Some PyodbcConnection;
  self_job_id := 5;
  self_table_client := Some JobLogsClient
|}.

Definition started : World :=
  snd (acquire_logger env (Some settings_blob) 12 world).

(** The logger of a run with [tables_only_blob]: a table client, no
    connection, no resolved job id. *)
Definition logger_without_db : JobLogger := {|
  self_connection_string := JStr "";
  self_job_instance_id := 12;
  self_table_connection_string := JStr "UseDevelopmentStorage=true";
  self_connection := None;
  self_job_id := 0;
  self_table_client := Some JobLogsClient
|}.

(** A step that fails after the announcements. *)
Definition boom : exn :=
  Exn (OtherError "RuntimeError") "step failed" ""
    "Traceback (most recent call last): RuntimeError: step failed".

Definition failing_steps (logger : JobLogger) (job_id : Z) : M unit :=
  bind (announce env 7 12 3 logger job_id) (fun _ => raise boom).

Definition failed : World := snd (failing_steps logger 5 started).

(** A connected world whose job 5 ran at 2024-04-25 13:05:09.018017. *)
Definition tables_with_history : Tables := {|
  JobInstance := JobInstance tables;
  JobSchedule := JobSchedule tables;
  JobInstances := JobInstances tables;
  JobData := [{| jd_Id := 1; jd_JobId := 5;
                 jd_JobFieldDescription := LAST_RUN;
                 jd_JobStringValue := None;
                 jd_JobDateValue := Some (t0 + 18000);
                 jd_CreatedBy := EXECUTOR; jd_UpdatedBy := None |}];
  next_identity := 2
|}.

Definition connected (t : Tables) : World := set_db Open t t world.

End Demo.

(* ================================================================== *)
(** ** Outcomes of the calls to the driver and to the table store *)

(** What one call into the ODBC driver does in world [w] when [k] calls
    have been made since: [None] when it returns, the exception
    otherwise. *)
Definition driver_outcome (env : Env) (w : World) (k : nat) : option exn :=
  match conn w with
  | Open => db_fault env (k + db_calls w)
  | _ => Some closed_connection
  end.

(** What [create_entity] of [ent] does in world [w]. *)
Definition create_outcome (env : Env) (w : World) (ent : Entity) : option exn :=
  match table_fault env (table_calls w) with
  | Some e => Some e
  | None =>
      if existsb (same_key ent) (JobLogs w)
      then Some (mk_exn (OtherError "ResourceExistsError")
                   "The specified entity already exists.")
      else None
  end.

(** The effect on the tables of the statements among driver calls. *)
Definition apply_statements (calls : list Event) (t : Tables) : Tables :=
  fold_left (fun t ev => match ev with EExecute s => sql_apply s t | _ => t end)
    calls t.

(** The driver calls of lines 135-152 of [log_error], for the clock
    reading [t] and the uuid [u]. *)
Definition error_statements (self : JobLogger) (message stack_trace : string)
    (t : datetime) (u : string) : list Event :=
  [ECursor; EExecute (UpdateInstanceHasError (self_job_instance_id self))]
  ++ (if 0 <? self_job_id self
      then [EExecute (InsertErrorRecord (self_job_id self)
                        ("Error_" ++ strftime "%Y%m%d%H%M%S" t ++ "_" ++ take 8 u)
                        (with_trace message stack_trace))]
      else [])
  ++ [ECommit].

(** The entity of lines 160-169 of [log_error]. *)
Definition error_entity (self : JobLogger) (message stack_trace : string)
    (row_key : string) (ts : datetime) : Entity :=
  {| PartitionKey := _get_partition_key self;
     RowKey := uuid_str row_key;
     Action := "JobError";
     Details := with_trace message stack_trace;
     Level := "Error";
     Timestamp := ts;
     JobId := self_job_id self;
     JobInstanceId := self_job_instance_id self |}.

Definition database_warning (e : exn) : string :=
  "Warning: Failed to log error to database: " ++ exn_str e.

Definition table_warning (e : exn) : string :=
  "[ERROR!] Failed to log error to Azure Table Storage: " ++ exn_str e.

Ltac outcome_none :=
  unfold driver_outcome;
  match goal with H : conn _ = Open |- _ => rewrite H end;
  cbn [Nat.add]; assumption.

Ltac outcome_some :=
  unfold driver_outcome;
  match goal with H : conn _ = _ |- _ => rewrite H end;
  cbn [Nat.add]; first [eassumption | reflexivity].

(** The call of index [k] is the one that raises. *)
Tactic Notation "raises_at" constr(k) integer(n) :=
  right; exists k; eexists; split; [cbn [List.length app]; lia|];
  split;
  [ let i := fresh "i" in
    let Hi := fresh "Hi" in
    intros i Hi; do n (destruct i as [|i]; [outcome_none|]); exfalso; lia |];
  split; [outcome_some|]; repeat split; reflexivity.

(* ================================================================== *)
(** ** Properties of the logger *)

Section LoggerClaims.
Context (env : Env).

(** The line that both logging methods print first. *)
Definition console_line (w : World) (tag message : string) : string :=
  "[" ++ strftime "%Y-%m-%d %H:%M:%S" (clock env (clock_reads w)) ++ "] ["
  ++ tag ++ "] " ++ message.

(** One call of [log_progress]: it returns, the trace grows by the entry
    mark, the console line and what the table-store sink does, and
    [logs] is left alone. *)
Lemma log_progress_run self message level w :
  exists w' rest,
    log_progress env self message level w = (Ok tt, w') /\
    trace w' = (trace w ++ ELogProgress message level
                  :: EPrint (console_line w level message) :: rest)%list /\
    logs w' = logs w.
Proof.
  destruct (log_progress_total env self message level w) as ([] & w' & E).
  pose proof (log_progress_logs env self message level w) as L.
  rewrite E in L. unfold Same in L. cbn [snd] in L.
  assert (K : keeps (Emits (fun _ => True))
                (when (has_table_client self && (0 <? self_job_id self))
                   (try_except
                      (row_key <- uuid4_hex env ;;
                       ts <- utcnow env ;;
                       create_entity env
                         {| PartitionKey := _get_partition_key self;
                            RowKey := uuid_str row_key;
                            Action := "JobProgress";
                            Details := message;
                            Level := level;
                            Timestamp := ts;
                            JobId := self_job_id self;
                            JobInstanceId := self_job_instance_id self |})
                      (fun e => print ("[ERROR!] Failed to log to Azure Table Storage: "
                                       ++ exn_str e))))).
  { keeping. }
  specialize (K (emit (EPrint (console_line w level message))
                   (tick_clock (emit (ELogProgress message level) w)))).
  change (snd _) with (snd (log_progress env self message level w)) in K.
  rewrite E in K. cbn [snd] in K. destruct K as (rest & T & _).
  exists w', rest. split; [exact E|]. split; [| exact L].
  rewrite T. world_simpl. reflexivity.
Qed.

(** C7. [log_progress] returns normally for every logger, message, level
    and world.  It first prints the line stamped with the UTC clock
    reading.  It then attempts a table-store write only when the logger
    holds a table client and its job id is positive; the entity has action
    JobProgress, the message as details and the given level.  When that
    write raises, the table is unchanged and the failure is printed; the
    relational tables and [logs] are never touched. *)
Theorem log_progress_never_raises self message level w :
  exists w' rest,
    log_progress env self message level w = (Ok tt, w') /\
    trace w' = (trace w ++ ELogProgress message level
                  :: EPrint (console_line w level message) :: rest)%list /\
    session w' = session w /\ durable w' = durable w /\ conn w' = conn w /\
    logs w' = logs w /\
    ((has_table_client self && (0 <? self_job_id self) = false /\
      rest = [] /\ JobLogs w' = JobLogs w)
     \/
     (exists ent,
        has_table_client self = true /\ 0 < self_job_id self /\
        Action ent = "JobProgress" /\ Details ent = message /\
        Level ent = level /\ PartitionKey ent = _get_partition_key self /\
        ((rest = [ECreateEntity ent] /\ JobLogs w' = (JobLogs w ++ [ent])%list)
         \/
         (exists e,
            rest = [ECreateEntity ent;
                    EPrint ("[ERROR!] Failed to log to Azure Table Storage: " ++ exn_str e)] /\
            JobLogs w' = JobLogs w)))).
Proof.
  unfold log_progress, console_line.
  destruct (has_table_client self && (0 <? self_job_id self)) eqn:G.
  - apply andb_prop in G. destruct G as [G1 G2]. apply Z.ltb_lt in G2.
    unfold when, try_except. unfold_prims. cbn.
    destruct (table_fault env (table_calls w)) as [e|] eqn:F; cbn;
      [| destruct (existsb _ (JobLogs w)) eqn:X; cbn ];
      (eexists _, _; split; [reflexivity|]; cbn; rewrite <- !app_assoc; cbn;
       split; [reflexivity|]; repeat (split; [reflexivity|]);
       right;
       match goal with |- context [ECreateEntity ?x] => exists x end;
       repeat (split; [eassumption || reflexivity|])).
    + right. exists e. split; reflexivity.
    + right.
      exists (mk_exn (OtherError "ResourceExistsError")
                "The specified entity already exists.").
      split; reflexivity.
    + left. split; reflexivity.
  - unfold when. unfold_prims. cbn.
    eexists _, _. split; [reflexivity|]. cbn. rewrite <- !app_assoc. cbn.
    split; [reflexivity|]. repeat (split; [reflexivity|]).
    left. auto.
Qed.

(** The calls that go to the ODBC driver on the connection. *)
Definition driver_call (ev : Event) : Prop :=
  match ev with
  | ECursor | EExecute _ | EFetchone | ECommit => True
  | _ => False
  end.

Lemma log_error_to_database_spec self message stack_trace w :
  exists w' l,
    log_error_to_database env self message stack_trace w = (Ok tt, w') /\
    trace w' = (trace w ++ l)%list /\
    JobLogs w' = JobLogs w /\
    if has_connection self && (0 <? self_job_instance_id self)
    then exists calls,
           (l = ECursor :: calls \/
            exists e,
              l = (ECursor :: calls ++
                   [EPrint ("Warning: Failed to log error to database: " ++ exn_str e)])%list)
           /\ Forall driver_call calls
    else l = [].
Proof.
  unfold log_error_to_database, when, try_except.
  destruct (has_connection self && (0 <? self_job_instance_id self)).
  - unfold_prims. oracle_cases;
      (eexists _, _; split; [reflexivity|]; world_simpl;
       split; [reflexivity|]; split; [reflexivity|];
       match goal with
       | |- exists calls, (ECursor :: ?tl = _ \/ _) /\ _ =>
           first [ exists tl; split; [left; reflexivity | solve [repeat constructor]]
                 | exists (removelast tl); split;
                   [ right; eexists; reflexivity
                   | cbn [removelast]; solve [repeat constructor] ] ]
       end).
  - exists w, []. rewrite app_nil_r. auto.
Qed.

Lemma log_error_to_table_spec self message stack_trace w :
  exists w' l,
    log_error_to_table env self message stack_trace w = (Ok tt, w') /\
    trace w' = (trace w ++ l)%list /\
    session w' = session w /\ durable w' = durable w /\
    if has_table_client self && (0 <? self_job_id self)
    then exists ent,
           Action ent = "JobError" /\ Level ent = "Error" /\
           Details ent = with_trace message stack_trace /\
           PartitionKey ent = _get_partition_key self /\
           ((l = [ECreateEntity ent] /\ JobLogs w' = (JobLogs w ++ [ent])%list)
            \/
            (exists e,
               l = [ECreateEntity ent;
                    EPrint ("[ERROR!] Failed to log error to Azure Table Storage: "
                            ++ exn_str e)] /\
               JobLogs w' = JobLogs w))
    else l = [] /\ JobLogs w' = JobLogs w.
Proof.
  unfold log_error_to_table, when, try_except.
  destruct (has_table_client self && (0 <? self_job_id self)).
  - unfold_prims. oracle_cases;
      (eexists _, _; split; [reflexivity|]; world_simpl;
       split; [reflexivity|]; split; [reflexivity|]; split; [reflexivity|];
       match goal with |- context [ECreateEntity ?x] => exists x end;
       repeat (split; [reflexivity|]);
       first [ left; split; reflexivity | right; eexists; split; reflexivity ]).
  - exists w, []. rewrite app_nil_r. repeat split; reflexivity.
Qed.

Lemma log_error_to_database_run self message stack_trace w :
  exists w' l,
    log_error_to_database env self message stack_trace w = (Ok tt, w') /\
    trace w' = (trace w ++ l)%list /\
    JobLogs w' = JobLogs w /\ table_calls w' = table_calls w /\
    if has_connection self && (0 <? self_job_instance_id self)
    then
      let plan := error_statements self message stack_trace
                    (clock env (clock_reads w)) (uuid_hex env (uuid_draws w)) in
      ((forall k, (k < List.length plan)%nat -> driver_outcome env w k = None) /\
       l = plan /\
       session w' = apply_statements plan (session w) /\ durable w' = session w')
      \/
      (exists k e,
         (k < List.length plan)%nat /\
         (forall i, (i < k)%nat -> driver_outcome env w i = None) /\
         driver_outcome env w k = Some e /\
         l = (firstn (S k) plan ++ [EPrint (database_warning e)])%list /\
         session w' = apply_statements (firstn k plan) (session w) /\
         durable w' = durable w)
    else l = [] /\ w' = w.
Proof.
  unfold log_error_to_database, when, try_except, error_statements.
  destruct (has_connection self && (0 <? self_job_instance_id self));
    [| exists w, []; rewrite app_nil_r; repeat split; reflexivity].
  unfold_prims. oracle_cases;
    (eexists _, _; split; [reflexivity|]; world_simpl;
     split; [reflexivity|]; split; [reflexivity|]; split; [reflexivity|];
     cbv zeta;
     first
       [ exfalso; congruence
       | left; split;
         [ let k := fresh "k" in
           let Hk := fresh "Hk" in
           intros k Hk; cbn [List.length app] in Hk;
           do 4 (destruct k as [|k]; [first [outcome_none | exfalso; lia]|]);
           exfalso; lia
         | repeat split; reflexivity ]
       | raises_at 0%nat 0
       | raises_at 1%nat 1
       | raises_at 2%nat 2
       | raises_at 3%nat 3 ]).
Qed.

Lemma log_error_to_table_run self message stack_trace w :
  exists w' l,
    log_error_to_table env self message stack_trace w = (Ok tt, w') /\
    trace w' = (trace w ++ l)%list /\
    session w' = session w /\ durable w' = durable w /\
    if has_table_client self && (0 <? self_job_id self)
    then
      let ent := error_entity self message stack_trace
                   (uuid_hex env (uuid_draws w)) (clock env (clock_reads w)) in
      uuid_draws w' = S (uuid_draws w) /\ clock_reads w' = S (clock_reads w) /\
      match create_outcome env w ent with
      | None => l = [ECreateEntity ent] /\ JobLogs w' = (JobLogs w ++ [ent])%list
      | Some e =>
          l = [ECreateEntity ent; EPrint (table_warning e)] /\ JobLogs w' = JobLogs w
      end
    else l = [] /\ w' = w.
Proof.
  unfold log_error_to_table, when, try_except, create_outcome, error_entity.
  destruct (has_table_client self && (0 <? self_job_id self));
    [| exists w, []; rewrite app_nil_r; repeat split; reflexivity].
  unfold_prims. oracle_cases;
    (eexists _, _; split; [reflexivity|]; world_simpl;
     repeat split; reflexivity).
Qed.

(** C2. [log_error] returns normally for every logger and world, and
    what it does is, in this order: the console line; the relational
    sink; the table-store sink.  The relational sink runs only when the
    logger holds a connection and its instance id is positive; its calls
    are a cursor, the update of the instance, the insertion of the error
    record when the job id is positive, and a commit.  When no call
    raises, all are made and the work is committed.  When one raises, it
    is the last call made, the warning carrying that exception is printed
    and nothing is committed.  The table-store sink runs after that in
    either case, only when the logger holds a table client and its job id
    is positive: one write of the JobError entity, stamped with the last
    uuid drawn and the last clock reading.  When the write raises, the
    table is as it was and the line carrying that exception is printed;
    otherwise the entity is the last of the table. *)
Theorem log_error_attempts_every_sink self message stack_trace w :
  exists w' l_db l_table,
    log_error env self message stack_trace w = (Ok tt, w') /\
    trace w' = (trace w ++
                [ELogError message stack_trace;
                 EPrint (console_line w "ERROR" message)]
                ++ l_db ++ l_table)%list /\
    (if has_connection self && (0 <? self_job_instance_id self)
     then
       let plan := error_statements self message stack_trace
                     (clock env (S (clock_reads w))) (uuid_hex env (uuid_draws w)) in
       ((forall k, (k < List.length plan)%nat -> driver_outcome env w k = None) /\
        l_db = plan /\
        session w' = apply_statements plan (session w) /\ durable w' = session w')
       \/
       (exists k e,
          (k < List.length plan)%nat /\
          (forall i, (i < k)%nat -> driver_outcome env w i = None) /\
          driver_outcome env w k = Some e /\
          l_db = (firstn (S k) plan ++ [EPrint (database_warning e)])%list /\
          session w' = apply_statements (firstn k plan) (session w) /\
          durable w' = durable w)
     else l_db = [] /\ session w' = session w /\ durable w' = durable w) /\
    (if has_table_client self && (0 <? self_job_id self)
     then
       let ent := error_entity self message stack_trace
                    (uuid_hex env (Nat.pred (uuid_draws w')))
                    (clock env (Nat.pred (clock_reads w'))) in
       match create_outcome env w ent with
       | None =>
           l_table = [ECreateEntity ent] /\ JobLogs w' = (JobLogs w ++ [ent])%list
       | Some e =>
           l_table = [ECreateEntity ent; EPrint (table_warning e)] /\
           JobLogs w' = JobLogs w
       end
     else l_table = [] /\ JobLogs w' = JobLogs w).
Proof.
  pose (w1 := emit (EPrint (console_line w "ERROR" message))
                (tick_clock (emit (ELogError message stack_trace) w))).
  destruct (log_error_to_database_run self message stack_trace w1)
    as (w2 & l_db & E2 & T2 & J2 & C2 & D).
  destruct (log_error_to_table_run self message stack_trace w2)
    as (w3 & l_table & E3 & T3 & S3 & D3 & T).
  exists w3, l_db, l_table. split; [| split; [| split]].
  - change (log_error env self message stack_trace w)
      with (bind (log_error_to_database env self message stack_trace)
              (fun _ => log_error_to_table env self message stack_trace) w1).
    rewrite (bind_ok _ _ _ _ _ E2). exact E3.
  - rewrite T3, T2. subst w1. world_simpl. reflexivity.
  - rewrite S3, D3.
    destruct (has_connection self && (0 <? self_job_instance_id self)).
    + exact D.
    + destruct D as [-> ->]. auto.
  - destruct (has_table_client self && (0 <? self_job_id self)).
    + cbv zeta in T |- *. destruct T as (U & K & T).
      rewrite U, K. cbn [Nat.pred].
      unfold create_outcome in T |- *. rewrite C2, J2 in T. exact T.
    + destruct T as [-> ->]. auto.
Qed.

End LoggerClaims.

(* ================================================================== *)
(** ** Teardown and run bookkeeping *)

Definition last_run_rows (job_id : Z) (t : Tables) : list JobDataRow :=
  filter (is_last_run job_id) (JobData t).

Lemma filter_map_stable {A} (p : A -> bool) (f : A -> A) (l : list A) :
  (forall a, p (f a) = p a) -> filter p (map f l) = map f (filter p l).
Proof.
  intros H. induction l as [|a l IH]; simpl; [reflexivity|].
  rewrite H. destruct (p a); simpl; rewrite IH; reflexivity.
Qed.

Lemma last_run_rows_update j now id t :
  last_run_rows j (sql_apply (UpdateLastRun now id) t)
  = map (fun r => if jd_Id r =? id
                  then {| jd_Id := jd_Id r; jd_JobId := jd_JobId r;
                          jd_JobFieldDescription := jd_JobFieldDescription r;
                          jd_JobStringValue := jd_JobStringValue r;
                          jd_JobDateValue := Some now;
                          jd_CreatedBy := jd_CreatedBy r;
                          jd_UpdatedBy := Some EXECUTOR |}
                  else r) (last_run_rows j t).
Proof.
  unfold last_run_rows. simpl. apply filter_map_stable.
  intros r. destruct (jd_Id r =? id); reflexivity.
Qed.

Lemma last_run_rows_insert j job_id now t :
  last_run_rows j (sql_apply (InsertLastRun job_id now) t)
  = (last_run_rows j t ++
     if job_id =? j
     then [{| jd_Id := next_identity t; jd_JobId := job_id;
              jd_JobFieldDescription := LAST_RUN;
              jd_JobStringValue := None; jd_JobDateValue := Some now;
              jd_CreatedBy := EXECUTOR; jd_UpdatedBy := None |}]
     else [])%list.
Proof.
  unfold last_run_rows. cbn [sql_apply insert_JobData JobData].
  rewrite filter_app. cbn [filter]. unfold is_last_run at 2.
  cbn [jd_JobId jd_JobFieldDescription]. rewrite String.eqb_refl, andb_true_r.
  destruct (job_id =? j); reflexivity.
Qed.

Lemma no_id_no_row job_id t :
  hd_error (select_last_run_id job_id t) = None -> last_run_rows job_id t = [].
Proof.
  unfold select_last_run_id, last_run_rows.
  destruct (filter _ _); simpl; [reflexivity | discriminate].
Qed.

Section Bookkeeping.
Context (env : Env).

(** C9, as the code has it.  Without a connection [close] does nothing.
    With an open connection it returns normally, the connection is
    closed and its uncommitted work rolled back.  The logger keeps its
    reference to the connection, so a second [close] calls the driver's
    close again, on the closed connection: it raises exactly when the
    driver does so there, and leaves the connection and the tables as
    they were. *)
Theorem close_releases_connection self w :
  (has_connection self = false -> close env self w = (Ok tt, w)) /\
  (has_connection self = true -> conn w = Open ->
   exists w1,
     close env self w = (Ok tt, w1) /\
     conn w1 = Closed /\ session w1 = durable w /\ durable w1 = durable w /\
     trace w1 = (trace w ++ [EClose])%list /\
     close env self w1
     = (match reclose env with Some e => Raise e | None => Ok tt end,
        emit EClose w1)).
Proof.
  unfold close, when. split; intros H.
  - rewrite H. reflexivity.
  - intros O. rewrite H. unfold connection_close. rewrite O.
    eexists. split; [reflexivity|]. world_simpl.
    repeat (split; [reflexivity|]).
    destruct (reclose env); reflexivity.
Qed.

(** The update when nothing fails: the statement sent is an UPDATE of
    the row the SELECT found, or else an INSERT, and it is committed. *)
Lemma update_when_driver_works logger job_id w :
  has_connection logger = true -> 0 < job_id -> conn w = Open ->
  (forall n, db_fault env n = None) ->
  exists w',
    update_last_job_run_time env logger job_id w = (Ok tt, w') /\
    conn w' = Open /\
    clock_reads w' = S (clock_reads w) /\
    session w'
    = sql_apply
        (match hd_error (select_last_run_id job_id (session w)) with
         | Some id => UpdateLastRun (clock env (clock_reads w)) id
         | None => InsertLastRun job_id (clock env (clock_reads w))
         end) (session w) /\
    durable w' = session w'.
Proof.
  intros HC HJ HO HF.
  assert (G : has_connection logger && (0 <? job_id) = true).
  { rewrite HC. simpl. apply Z.ltb_lt. exact HJ. }
  unfold update_last_job_run_time, when, try_except. rewrite G.
  unfold_prims.
  repeat (progress (world_simpl; rewrite ?HO, ?HF)).
  destruct (hd_error (select_last_run_id job_id (session w)));
    repeat (progress (world_simpl; rewrite ?HO, ?HF));
    (eexists; split; [reflexivity|]; world_simpl; repeat split; assumption || reflexivity).
Qed.

(** C3. The update of Last Job Run Time never leaves more rows under
    the descriptor than it found when it found at most one, whatever
    fails.  When the logger holds an open connection, the job id is
    positive, the driver does not fail and the job has no row yet, a first
    update inserts exactly one row holding the clock reading taken during
    the update, and a second update rewrites that same row to the later
    reading: the job still has one row.  Both are committed. *)
Theorem last_run_time_is_upserted logger job_id w :
  (forall j,
     (List.length (last_run_rows j (session w)) <= 1)%nat ->
     (List.length (last_run_rows j
                (session (snd (update_last_job_run_time env logger job_id w)))) <= 1)%nat) /\
  (has_connection logger = true -> 0 < job_id -> conn w = Open ->
   (forall n, db_fault env n = None) ->
   last_run_rows job_id (session w) = [] ->
   exists w1 w2,
     update_last_job_run_time env logger job_id w = (Ok tt, w1) /\
     update_last_job_run_time env logger job_id w1 = (Ok tt, w2) /\
     last_run_rows job_id (session w1)
     = [{| jd_Id := next_identity (session w); jd_JobId := job_id;
           jd_JobFieldDescription := LAST_RUN;
           jd_JobStringValue := None;
           jd_JobDateValue := Some (clock env (clock_reads w));
           jd_CreatedBy := EXECUTOR; jd_UpdatedBy := None |}] /\
     last_run_rows job_id (session w2)
     = [{| jd_Id := next_identity (session w); jd_JobId := job_id;
           jd_JobFieldDescription := LAST_RUN;
           jd_JobStringValue := None;
           jd_JobDateValue := Some (clock env (clock_reads w1));
           jd_CreatedBy := EXECUTOR; jd_UpdatedBy := Some EXECUTOR |}] /\
     durable w1 = session w1 /\ durable w2 = session w2).
Proof.
  split.
  - intros j Hj. unfold update_last_job_run_time, when, try_except.
    destruct (has_connection logger && (0 <? job_id)); [| exact Hj].
    unfold_prims. oracle_cases;
      try exact Hj;
      try (rewrite last_run_rows_update, List.length_map; exact Hj);
      (rewrite last_run_rows_insert;
       destruct (job_id =? j) eqn:J;
       [ apply Z.eqb_eq in J; subst j;
         match goal with H : hd_error _ = None |- _ =>
           rewrite (no_id_no_row _ _ H) end; simpl; lia
       | rewrite app_nil_r; exact Hj ]).
  - intros HC HJ HO HF HR.
    destruct (update_when_driver_works logger job_id w HC HJ HO HF)
      as (w1 & E1 & O1 & _ & S1 & D1).
    destruct (update_when_driver_works logger job_id w1 HC HJ O1 HF)
      as (w2 & E2 & _ & _ & S2 & D2).
    exists w1, w2. repeat (split; [assumption|]).
    assert (R1 : last_run_rows job_id (session w1)
                 = [{| jd_Id := next_identity (session w); jd_JobId := job_id;
                       jd_JobFieldDescription := LAST_RUN;
                       jd_JobStringValue := None;
                       jd_JobDateValue := Some (clock env (clock_reads w));
                       jd_CreatedBy := EXECUTOR; jd_UpdatedBy := None |}]).
    { rewrite S1. unfold select_last_run_id. fold (last_run_rows job_id (session w)).
      rewrite HR. cbn [map hd_error].
      rewrite last_run_rows_insert, HR, Z.eqb_refl. reflexivity. }
    split; [exact R1|]. split; [| split; assumption].
    rewrite S2. unfold select_last_run_id. fold (last_run_rows job_id (session w1)).
    rewrite R1. cbn [map hd_error jd_Id].
    rewrite last_run_rows_update, R1. cbn [map jd_Id]. rewrite Z.eqb_refl.
    reflexivity.
Qed.

End Bookkeeping.

(* ================================================================== *)
(** ** The previous run time *)

Lemma is_digit_digit d : 0 <= d < 10 -> is_digit (digit d) = true.
Proof.
  intros H.
  assert (C : d = 0 \/ d = 1 \/ d = 2 \/ d = 3 \/ d = 4 \/ d = 5 \/ d = 6 \/ d = 7
              \/ d = 8 \/ d = 9) by lia.
  repeat (destruct C as [->|C]; [reflexivity|]). subst d. reflexivity.
Qed.

Lemma zpad_2 n :
  0 <= n < 100 ->
  zpad 2 n = String (digit (n / 10 mod 10)) (String (digit (n mod 10)) "").
Proof.
  intros H. unfold zpad.
  replace ((0 <=? n) && (n <? 10 ^ Z.of_nat 2)) with true.
  - reflexivity.
  - symmetry. apply andb_true_iff. split; [apply Z.leb_le | apply Z.ltb_lt]; simpl; lia.
Qed.

Lemma zpad_4 n :
  0 <= n < 10000 ->
  zpad 4 n = String (digit (n / 10 / 10 / 10 mod 10))
               (String (digit (n / 10 / 10 mod 10))
                  (String (digit (n / 10 mod 10)) (String (digit (n mod 10)) ""))).
Proof.
  intros H. unfold zpad.
  replace ((0 <=? n) && (n <? 10 ^ Z.of_nat 4)) with true.
  - reflexivity.
  - symmetry. apply andb_true_iff. split; [apply Z.leb_le | apply Z.ltb_lt]; simpl; lia.
Qed.

Lemma ord2ymd_range n :
  1 <= n <= MAXORDINAL ->
  1 <= fst (fst (ord2ymd n)) <= 9999 /\
  1 <= snd (fst (ord2ymd n)) <= 12 /\
  1 <= snd (ord2ymd n) <= 31.
Proof.
  unfold MAXORDINAL. intros H. unfold ord2ymd.
  set (a := n - 1).
  set (n400 := a / 146097). set (r400 := a mod 146097).
  set (n100 := r400 / 36524). set (r100 := r400 mod 36524).
  set (n4 := r100 / 1461). set (r4 := r100 mod 1461).
  set (n1 := r4 / 365). set (r := r4 mod 365).
  assert (B : 0 <= a <= 3652058) by (subst a; lia).
  assert (B400 : 0 <= n400 <= 24 /\ 0 <= r400 < 146097 /\ a = 146097 * n400 + r400).
  { subst n400 r400. Z.div_mod_to_equations. lia. }
  assert (B100 : 0 <= n100 <= 4 /\ 0 <= r100 < 36524 /\ r400 = 36524 * n100 + r100).
  { subst n100 r100. Z.div_mod_to_equations. lia. }
  assert (B4 : 0 <= n4 <= 24 /\ 0 <= r4 < 1461 /\ r100 = 1461 * n4 + r4).
  { subst n4 r4. Z.div_mod_to_equations. lia. }
  assert (B1 : 0 <= n1 <= 4 /\ 0 <= r < 365 /\ r4 = 365 * n1 + r).
  { subst n1 r. Z.div_mod_to_equations. lia. }
  clearbody n400 r400 n100 r100 n4 r4 n1 r. 
  destruct ((n1 =? 4) || (n100 =? 4)) eqn:E.
  - simpl. apply orb_true_iff in E. rewrite !Z.eqb_eq in E. lia.
  - apply orb_false_iff in E. rewrite !Z.eqb_neq in E.
    rewrite Z.shiftr_div_pow2 by lia. change (2 ^ 5) with 32.
    set (m := (r + 50) / 32).
    assert (Bm : 1 <= m <= 12 /\ 32 * m <= r + 50 < 32 * m + 32).
    { subst m. Z.div_mod_to_equations. lia. }
    clearbody m.
    set (leap := (n1 =? 3) && (negb (n4 =? 24) || (n100 =? 3))).
    assert (Y : 1 <= n400 * 400 + 1 + n100 * 100 + n4 * 4 + n1 <= 9999) by lia.
    clearbody leap.
    remember (days_before_month m + b2z ((2 <? m) && leap)) as before eqn:Eb.
    remember (days_in_month (m - 1) + b2z ((m - 1 =? 2) && leap)) as prev eqn:Ep.
    assert (C : m = 1 \/ m = 2 \/ m = 3 \/ m = 4 \/ m = 5 \/ m = 6 \/ m = 7 \/ m = 8
                \/ m = 9 \/ m = 10 \/ m = 11 \/ m = 12) by lia.
    destruct (Z.ltb_spec r before); cbn [fst snd];
      destruct leap;
      repeat (destruct C as [->|C]; [vm_compute in Eb, Ep; lia|]);
      subst m; vm_compute in Eb, Ep; lia.
Qed.

Lemma append_empty s : s ++ "" = s.
Proof. induction s; simpl; [reflexivity | rewrite IHs; reflexivity]. Qed.

Lemma append_assoc_string (a b c : string) : (a ++ b) ++ c = a ++ (b ++ c).
Proof. induction a; simpl; [reflexivity | rewrite IHa; reflexivity]. Qed.

(** The text of line 240. *)
Definition formatted_time (local_time : datetime) : string :=
  strftime "%m/%d/%Y %I:%M" local_time ++ lower (strftime "%p" local_time).

(** Two digits, a slash, two digits, a slash, four digits, a space, two
    digits, a colon, two digits, then "am" or "pm". *)
Definition mdy_hm_shape (s : string) : bool :=
  match s with
  | String m1 (String m2 (String "/" (String d1 (String d2 (String "/"
      (String y1 (String y2 (String y3 (String y4 (String " "
        (String h1 (String h2 (String ":" (String n1 (String n2 suffix)))))))))))))))
    => forallb is_digit [m1; m2; d1; d2; y1; y2; y3; y4; h1; h2; n1; n2]
       && ((suffix =? "am")%string || (suffix =? "pm")%string)
  | _ => false
  end.

Lemma formatted_time_fields t :
  formatted_time t
  = zpad 2 (dt_month t) ++ "/" ++ zpad 2 (dt_day t) ++ "/" ++ str_int (dt_year t)
    ++ " " ++ zpad 2 (dt_hour12 t) ++ ":" ++ zpad 2 (dt_minute t)
    ++ (if dt_hour t <? 12 then "am" else "pm").
Proof.
  unfold formatted_time. cbn [strftime Ascii.eqb Bool.eqb].
  rewrite !append_empty. unfold dt_ampm.
  destruct (dt_hour t <? 12);
    repeat (rewrite append_assoc_string; cbn [append]); reflexivity.
Qed.

Lemma digits_2 n : 0 <= n < 100 ->
  exists a b, zpad 2 n = String a (String b "") /\ is_digit a = true /\ is_digit b = true.
Proof.
  intros H. rewrite (zpad_2 n H). eexists _, _. split; [reflexivity|].
  split; apply is_digit_digit; apply Z.mod_pos_bound; lia.
Qed.

(** From 1000 on, the plain decimal of a year has four digits. *)
Lemma str_int_4 n : 1000 <= n < 10000 -> str_int n = zpad 4 n.
Proof.
  intros H.
  assert (A : forallb (fun k => (str_int (Z.of_nat k) =? zpad 4 (Z.of_nat k))%string)
                (seq (Z.to_nat 1000) (Z.to_nat 9000)) = true) by (vm_compute; reflexivity).
  rewrite forallb_forall in A. specialize (A (Z.to_nat n)).
  rewrite Z2Nat.id in A by lia. apply String.eqb_eq, A, in_seq. lia.
Qed.

Lemma digits_4 n : 1000 <= n < 10000 ->
  exists a b c d,
    str_int n = String a (String b (String c (String d ""))) /\
    is_digit a = true /\ is_digit b = true /\ is_digit c = true /\ is_digit d = true.
Proof.
  intros H. rewrite (str_int_4 n H), (zpad_4 n) by lia.
  eexists _, _, _, _. split; [reflexivity|].
  repeat split; apply is_digit_digit; apply Z.mod_pos_bound; lia.
Qed.

Lemma dt_fields_range t :
  in_range t = true ->
  1 <= dt_year t <= 9999 /\ 1 <= dt_month t <= 12 /\ 1 <= dt_day t <= 31 /\
  1 <= dt_hour12 t <= 12 /\ 0 <= dt_minute t <= 59.
Proof.
  unfold in_range. intros H. apply andb_prop in H. destruct H as [H1 H2].
  apply Z.leb_le in H1. apply Z.ltb_lt in H2.
  assert (O : 1 <= dt_ordinal t <= MAXORDINAL).
  { unfold dt_ordinal, MAXORDINAL, us_per_day, us_per_second in *.
    Z.div_mod_to_equations. lia. }
  destruct (ord2ymd_range _ O) as (Y & Mo & D).
  unfold dt_year, dt_month, dt_day. repeat (split; [assumption|]).
  unfold dt_hour12, dt_minute, us_per_second. split; Z.div_mod_to_equations; lia.
Qed.

Lemma formatted_time_shape t :
  in_range t = true -> 1000 <= dt_year t -> mdy_hm_shape (formatted_time t) = true.
Proof.
  intros H Y4. destruct (dt_fields_range t H) as (Y & Mo & D & H12 & Mi).
  rewrite formatted_time_fields.
  destruct (digits_2 (dt_month t)) as (m1 & m2 & -> & ? & ?); [lia|].
  destruct (digits_2 (dt_day t)) as (d1 & d2 & -> & ? & ?); [lia|].
  destruct (digits_4 (dt_year t)) as (y1 & y2 & y3 & y4 & -> & ? & ? & ? & ?); [lia|].
  destruct (digits_2 (dt_hour12 t)) as (h1 & h2 & -> & ? & ?); [lia|].
  destruct (digits_2 (dt_minute t)) as (n1 & n2 & -> & ? & ?); [lia|].
  cbn [append mdy_hm_shape forallb].
  repeat match goal with H : is_digit _ = true |- _ => rewrite H; clear H end.
  destruct (dt_hour t <? 12); reflexivity.
Qed.

Section PreviousRun.
Context (env : Env).

(** X18.  When the logger holds an open connection, the job id is
    positive, the driver does not fail and the job's row holds a run time,
    the message is built from that stored value plus the difference
    between a reading of the local clock and the following reading of the
    UTC clock.  If the sum is a representable date, the message is
    printed, logged as progress and appended to [logs]; its time is month,
    day, year, hour on the 12-hour clock and minute, the year in plain
    decimal and the others on two digits, followed by am or pm in lower
    case.  From the year 1000 on that reads MM/DD/YYYY hh:mm. *)
Theorem previous_run_time_is_reported logger job_id w prev others :
  has_connection logger = true -> 0 < job_id -> conn w = Open ->
  (forall n, db_fault env n = None) ->
  select_last_run_value job_id (session w) = Some prev :: others ->
  let local_now := clock env (clock_reads w) + utc_offset env in
  let utc_now := clock env (S (clock_reads w)) in
  let local_time := prev + (local_now - utc_now) in
  in_range local_time = true ->
  exists w',
    report_previous_run env logger job_id w = (Ok tt, w') /\
    let message := "Previous time the job was run: " ++ formatted_time local_time in
    logs w' = (logs w ++ [message])%list /\
    In (EPrint message) (trace w') /\
    In (ELogProgress message "Info") (trace w') /\
    formatted_time local_time
    = zpad 2 (dt_month local_time) ++ "/" ++ zpad 2 (dt_day local_time) ++ "/"
      ++ str_int (dt_year local_time) ++ " " ++ zpad 2 (dt_hour12 local_time) ++ ":"
      ++ zpad 2 (dt_minute local_time)
      ++ (if dt_hour local_time <? 12 then "am" else "pm") /\
    (1000 <= dt_year local_time -> mdy_hm_shape (formatted_time local_time) = true).
Proof.
  intros HC HJ HO HF HS local_now utc_now local_time HR.
  assert (G : has_connection logger && (0 <? job_id) = true).
  { rewrite HC. simpl. apply Z.ltb_lt. exact HJ. }
  unfold report_previous_run, when, try_except. rewrite G.
  unfold_prims.
  repeat (progress (world_simpl; rewrite ?HO, ?HF, ?HS; cbn [hd_error])).
  unfold dt_add. fold local_now utc_now. fold local_time. rewrite HR.
  fold (formatted_time local_time).
  match goal with
  | |- context [log_progress env logger ?m ?l ?W] =>
      destruct (log_progress_run env logger m l W)
        as (w1 & rest & E & T & L)
  end.
  rewrite E. eexists. split; [reflexivity|]. world_simpl.
  rewrite L, T. world_simpl.
  split; [reflexivity|].
  split; [apply in_or_app; right; repeat (try (left; reflexivity); right) |].
  split; [apply in_or_app; right; repeat (try (left; reflexivity); right) |].
  split; [apply formatted_time_fields | apply formatted_time_shape; exact HR].
Qed.

End PreviousRun.

(* ================================================================== *)
(** ** Whole runs *)

Section Runs.
Context (env : Env).

Lemma get_job_id_conn self : keeps (Same conn) (_get_job_id_from_instance env self).
Proof. unfold _get_job_id_from_instance. keeping. Qed.

Lemma open_table_client_total tcs : total (open_table_client env tcs).
Proof. unfold open_table_client. totality. Qed.

Lemma open_table_client_conn tcs : keeps (Same conn) (open_table_client env tcs).
Proof. unfold open_table_client. keeping. Qed.

(** The connection block returns normally; without a connection the job
    id stays 0, and with one the connection is open. *)
Lemma open_connection_spec cs iid self0 w :
  exists c j w',
    open_connection env cs iid self0 w = (Ok (c, j), w') /\
    (c = None -> j = 0) /\ (c <> None -> conn w' = Open).
Proof.
  unfold open_connection.
  destruct (HAS_PYODBC env && truthy cs);
    [| exists None, 0, w; split; [reflexivity | split; congruence]].
  unfold try_except.
  destruct (as_str cs) as [s|e] eqn:A.
  - rewrite (bind_ok (lift (Ok s)) _ w s w eq_refl).
    set (cs' := with_driver _ _).
    destruct (db_fault env (db_calls w)) as [e|] eqn:F.
    + assert (C : connect env cs' w = (Raise e, tick_db (emit (EConnect cs') w))).
      { unfold connect. rewrite F. reflexivity. }
      rewrite (bind_raise _ _ _ _ _ C).
      eexists None, 0, _. split; [reflexivity | split; congruence].
    + assert (C : connect env cs' w
                  = (Ok PyodbcConnection,
                     set_db Open (durable w) (durable w) (tick_db (emit (EConnect cs') w)))).
      { unfold connect. rewrite F. reflexivity. }
      rewrite (bind_ok _ _ _ _ _ C).
      match goal with
      | |- context [bind (_get_job_id_from_instance env ?self) ?k ?W] =>
          destruct (total_run _ (get_job_id_total env self) W) as (j & E);
          pose proof (get_job_id_conn self W) as K;
          rewrite (bind_ok _ _ _ _ _ E)
      end.
      eexists (Some PyodbcConnection), j, _. split; [reflexivity|].
      split; [congruence|]. intros _. exact K.
  - rewrite (bind_raise (lift (Raise e)) _ w e w eq_refl).
    eexists None, 0, _. split; [reflexivity | split; congruence].
Qed.

(** A constructed logger holds its connection open, and a logger without
    a connection has job id 0. *)
Lemma JobLogger_init_spec cs iid tcs w :
  exists logger w',
    JobLogger_init env cs iid tcs w = (Ok logger, w') /\
    (has_connection logger = true -> conn w' = Open) /\
    (has_connection logger = false -> self_job_id logger = 0) /\
    self_job_instance_id logger = iid.
Proof.
  unfold JobLogger_init.
  match goal with
  | |- context [bind (open_connection env cs iid ?s0) _ w] =>
      destruct (open_connection_spec cs iid s0 w) as (c & j & w1 & E1 & N & O)
  end.
  rewrite (bind_ok _ _ _ _ _ E1).
  destruct (total_run _ (open_table_client_total tcs) w1) as (t & E2).
  pose proof (open_table_client_conn tcs w1) as K. unfold Same in K.
  rewrite (bind_ok _ _ _ _ _ E2).
  eexists _, _. split; [reflexivity|]. unfold has_connection. cbn.
  repeat split.
  - intros H. rewrite K. apply O. destruct c; [discriminate | discriminate H].
  - intros H. apply N. destruct c; [discriminate H | reflexivity].
Qed.

Lemma parse_settings_pure app_settings w :
  snd (parse_settings env app_settings w) = w.
Proof.
  unfold parse_settings, try_except.
  destruct app_settings as [[|c r]|]; unfold_prims;
    repeat (cbn [fst snd];
            match goal with
            | |- context [json_loads env ?x] => destruct (json_loads env x)
            | |- context [dict_get ?a ?b ?c] => destruct (dict_get a b c)
            | |- context [is_JSONDecodeError ?e] => destruct (is_JSONDecodeError e)
            end);
    reflexivity.
Qed.

Lemma bind_unit_total {B} (m : M unit) (k : unit -> M B) w :
  total m -> bind m k w = k tt (snd (m w)).
Proof.
  intros T. destruct (T w) as ([] & w' & E). rewrite (bind_ok _ _ _ _ _ E), E. reflexivity.
Qed.

Lemma log_progress_logs_eq self message level w :
  logs (snd (log_progress env self message level w)) = logs w.
Proof. apply (log_progress_logs env self message level w). Qed.

Lemma log_progress_http_eq self message level w :
  http_calls (snd (log_progress env self message level w)) = http_calls w.
Proof. apply (log_progress_http env self message level w). Qed.

(** What the logger acquired by a run is like, and what acquiring it
    leaves untouched. *)
Lemma acquire_logger_spec app_settings iid w logger w1 :
  acquire_logger env app_settings iid w = (Ok logger, w1) ->
  (has_connection logger = true -> conn w1 = Open) /\
  (has_connection logger = false -> self_job_id logger = 0) /\
  self_job_instance_id logger = iid /\
  logs w1 = [] /\ http_calls w1 = http_calls w /\ JobLogs w1 = JobLogs w /\
  Emits (writes nothing) w w1.
Proof.
  unfold acquire_logger. rewrite (bind_ok logs_init _ w tt _ eq_refl).
  pose proof (parse_settings_pure app_settings (set_logs [] w)) as P.
  destruct (parse_settings env app_settings (set_logs [] w)) as [[d|e] w0] eqn:E;
    cbn [snd] in P; subst w0.
  - rewrite (bind_ok _ _ _ _ _ E).
    destruct (JobLogger_init_spec (fst d) iid (snd d) (set_logs [] w))
      as (lg & w' & I & O & Z0 & Iid).
    pose proof (JobLogger_init_logs env (fst d) iid (snd d) (set_logs [] w)) as L.
    pose proof (JobLogger_init_http env (fst d) iid (snd d) (set_logs [] w)) as H.
    pose proof (JobLogger_init_stores env (fst d) iid (snd d) (set_logs [] w)) as S.
    pose proof (JobLogger_init_writes env (fst d) iid (snd d) (set_logs [] w)) as Wr.
    rewrite I in *. cbn [snd] in *. unfold Same in *.
    intros X. inversion X; subst lg w'. clear X.
    repeat (split; [assumption|]). exact Wr.
  - rewrite (bind_raise _ _ _ _ _ E). discriminate.
Qed.

(** The finally block returns normally when the logger's connection,
    if any, is open. *)
Lemma finalization_ok logger job_id w :
  (has_connection logger = true -> conn w = Open) ->
  exists w', finalization env logger job_id w = (Ok tt, w') /\ logs w' = logs w.
Proof.
  intros O. unfold finalization.
  rewrite (bind_unit_total _ _ _ (update_last_job_run_time_total env logger job_id)).
  pose proof (update_last_job_run_time_conn env logger job_id w) as C.
  pose proof (update_last_job_run_time_logs env logger job_id w) as L.
  unfold Same in *.
  destruct (close_ok env logger (snd (update_last_job_run_time env logger job_id w)))
    as (w' & E & L').
  { intros H. rewrite C. auto. }
  exists w'. split; [exact E | congruence].
Qed.

(** A run whose logger was acquired performs every step, then the
    finally block, and returns [logs]. *)
Lemma execute_job_run app_settings a j i s w logger w1 :
  acquire_logger env app_settings i w = (Ok logger, w1) ->
  exists w2 w3,
    job_steps env a i s logger (effective_job_id logger j) w1 = (Ok tt, w2) /\
    finalization env logger (effective_job_id logger j) w2 = (Ok tt, w3) /\
    execute_job env app_settings a j i s w = (Ok (logs w2), w3).
Proof.
  intros A. destruct (acquire_logger_spec _ _ _ _ _ A) as (O & _).
  destruct (job_steps_total env a i s logger (effective_job_id logger j) w1)
    as ([] & w2 & E2).
  pose proof (job_steps_conn env a i s logger (effective_job_id logger j) w1) as C.
  rewrite E2 in C. unfold Same in C. cbn [snd] in C.
  destruct (finalization_ok logger (effective_job_id logger j) w2) as (w3 & E3 & L3).
  { intros H. rewrite C. auto. }
  exists w2, w3. split; [exact E2|]. split; [exact E3|].
  unfold execute_job, execute_job_with. rewrite (bind_ok _ _ _ _ _ A).
  unfold bind at 1. unfold try_finally, try_except. rewrite E2, E3.
  unfold logs_get. rewrite L3. reflexivity.
Qed.

(** Events other than an entry into [log_error]. *)
Definition not_log_error (ev : Event) : Prop :=
  match ev with
  | ELogError _ _ => False
  | _ => True
  end.

Lemma log_error_once self message stack_trace w :
  exists w' l,
    log_error env self message stack_trace w = (Ok tt, w') /\
    trace w' = (trace w ++ ELogError message stack_trace :: l)%list /\
    Forall not_log_error l /\ logs w' = logs w /\ conn w' = conn w.
Proof.
  destruct (log_error_total env self message stack_trace w) as ([] & w' & E).
  pose proof (log_error_logs env self message stack_trace w) as L.
  pose proof (log_error_conn env self message stack_trace w) as C.
  rewrite E in L, C. unfold Same in *. cbn [snd] in *.
  assert (K : keeps (Emits not_log_error)
                (t <- utcnow env ;;
                 print ("[" ++ strftime "%Y-%m-%d %H:%M:%S" t ++ "] [ERROR] " ++ message) ;;
                 log_error_to_database env self message stack_trace ;;
                 log_error_to_table env self message stack_trace)).
  { unfold log_error_to_database, log_error_to_table. keeping. }
  specialize (K (emit (ELogError message stack_trace) w)).
  change (snd _) with (snd (log_error env self message stack_trace w)) in K.
  rewrite E in K. cbn [snd] in K. destruct K as (l & T & F).
  exists w', l. split; [exact E|]. split; [| auto].
  rewrite T. world_simpl. reflexivity.
Qed.

Lemma try_cursor_first {A} P (k : unit -> M A) (h : exn -> M A) w :
  keeps (Emits P) (k tt) -> (forall e, keeps (Emits P) (h e)) ->
  exists tl,
    trace (snd (try_except (bind (cursor env) k) h w)) = (trace w ++ ECursor :: tl)%list /\
    Forall P tl.
Proof.
  intros Kk Kh.
  assert (K : keeps (Emits P) (try_except (k tt) h))
    by (apply keeps_try_except; [exact _ | assumption | assumption]).
  assert (E : forall r,
             cursor env w = (r, tick_db (emit ECursor w)) ->
             try_except (bind (cursor env) k) h w
             = match r with
               | Ok _ => try_except (k tt) h (tick_db (emit ECursor w))
               | Raise e => h e (tick_db (emit ECursor w))
               end).
  { intros r Er. unfold try_except, bind. rewrite Er. destruct r as [[]|e]; reflexivity. }
  assert (C : exists r, cursor env w = (r, tick_db (emit ECursor w))).
  { unfold cursor, db_call. destruct (conn w); [| destruct (db_fault env (db_calls w)) |];
      eexists; reflexivity. }
  destruct C as (r & Er). rewrite (E r Er).
  destruct r as [[]|e];
    [ destruct (K (tick_db (emit ECursor w))) as (l & T & F)
    | destruct (Kh e (tick_db (emit ECursor w))) as (l & T & F) ];
    exists l; (split; [| exact F]); rewrite T; world_simpl; reflexivity.
Qed.

(** The finally block, when the logger's connection, if any, is open:
    the update is attempted first when it applies, the connection is
    closed last, and [log_error] is not entered. *)
Lemma finalization_trace logger job_id w :
  (has_connection logger = true -> conn w = Open) ->
  exists w' l,
    finalization env logger job_id w = (Ok tt, w') /\
    trace w' = (trace w ++ l)%list /\
    Forall not_log_error l /\ logs w' = logs w /\
    (has_connection logger = true -> 0 < job_id -> exists tl, l = ECursor :: tl) /\
    (has_connection logger = true ->
     conn w' = Closed /\ exists l0, l = (l0 ++ [EClose])%list).
Proof.
  intros O. unfold finalization.
  rewrite (bind_unit_total _ _ _ (update_last_job_run_time_total env logger job_id)).
  pose proof (update_last_job_run_time_conn env logger job_id w) as C.
  pose proof (update_last_job_run_time_logs env logger job_id w) as L.
  assert (K : keeps (Emits not_log_error) (update_last_job_run_time env logger job_id)).
  { unfold update_last_job_run_time. keeping. }
  destruct (K w) as (lu & Tu & Fu).
  assert (First : has_connection logger = true -> 0 < job_id -> exists tl, lu = ECursor :: tl).
  { intros H J. revert Tu. unfold update_last_job_run_time, when.
    rewrite H. replace (0 <? job_id) with true by (symmetry; apply Z.ltb_lt; exact J).
    cbn [andb].
    match goal with
    | |- context [try_except (bind (cursor env) ?k) ?h w] =>
        destruct (try_cursor_first (fun _ => True) k h w) as (tl & T & _)
    end.
    { keeping. }
    { intro. keeping. }
    rewrite T. intros X. apply app_inv_head in X. eauto. }
  set (wu := snd (update_last_job_run_time env logger job_id w)) in *.
  unfold Same in *. unfold close, when.
  destruct (has_connection logger) eqn:H.
  - unfold connection_close. rewrite C, (O eq_refl).
    eexists _, (lu ++ [EClose])%list. split; [reflexivity|]. world_simpl.
    rewrite Tu, <- app_assoc. split; [reflexivity|].
    split; [apply Forall_app; split; [exact Fu | repeat constructor]|].
    split; [exact L|]. split.
    + intros _ J. destruct (First eq_refl J) as (tl & ->). eexists. reflexivity.
    + intros _. split; [reflexivity | eauto].
  - exists wu, lu. split; [reflexivity|]. split; [exact Tu|]. split; [exact Fu|].
    split; [exact L|]. split; intros X; discriminate X.
Qed.


(** *** What the steps append to [logs] *)

Ltac run_steps :=
  repeat first
    [ rewrite (bind_unit_total (log_progress env _ _ _) _ _
                 (log_progress_total env _ _ _))
    | rewrite (bind_ok (logs_append _) _ _ tt _ eq_refl)
    | rewrite (bind_ok (print _) _ _ tt _ eq_refl) ].

Lemma announce_logs a i s logger job_id w :
  logs (snd (announce env a i s logger job_id w))
  = (logs w ++
     ["Job started"; exec_info a job_id i s; partition_key_info job_id i])%list.
Proof.
  unfold announce. run_steps. unfold logs_append. cbn [snd logs set_logs].
  rewrite log_progress_logs_eq. cbn [logs emit set_logs].
  rewrite log_progress_logs_eq. cbn [logs emit set_logs].
  rewrite log_progress_logs_eq. rewrite <- !app_assoc. reflexivity.
Qed.

Lemma complete_run logger w :
  exists w' rest,
    complete env logger w = (Ok tt, w') /\
    logs w' = (logs w ++ ["Job completed successfully!"])%list /\
    trace w' = (trace w ++ ELogProgress "Job completed successfully!" "Info" :: rest)%list.
Proof.
  unfold complete.
  destruct (log_progress_run env logger "Job completed successfully!" "Info" w)
    as (w' & rest & E & T & L).
  rewrite (bind_ok _ _ _ _ _ E). eexists _, _. split; [reflexivity|].
  cbn [logs trace set_logs]. rewrite L, T. split; reflexivity.
Qed.

(** *** The weather step when the fetch fails *)

(** What the [n]-th fetch yields: the readings, or the exception raised
    by the request or by the parsing of its response. *)
Definition weather_outcome (n : nat) : Res (json * json * json * json) :=
  match http_response env n with
  | Ok body => extract_weather env body
  | Raise e => Raise e
  end.

(** The message of lines 276 and 281. *)
Definition weather_warning (e : exn) : string :=
  if is_URLError e then "Failed to fetch weather data: " ++ exn_reason e
  else "Error processing weather data: " ++ exn_str e.

Lemma try_except_raise {A} (m : M A) (h : exn -> M A) w e w' :
  m w = (Raise e, w') -> try_except m h w = h e w'.
Proof. intros E. unfold try_except. rewrite E. reflexivity. Qed.

Lemma fetch_weather_failure logger w e :
  weather_outcome (http_calls w) = Raise e ->
  exists w' l1 l2,
    fetch_weather env logger w = (Ok tt, w') /\
    trace w' = (trace w ++ l1 ++ ELogProgress (weather_warning e) "Warning" :: l2)%list /\
    logs w' = (logs w ++ ["Fetching weather data for Los Angeles, CA";
                          weather_warning e])%list.
Proof.
  intros F. unfold fetch_weather.
  destruct (log_progress_run env logger "Fetching weather data for Los Angeles, CA"
              "Info" w) as (wa & ra & Ea & Ta & La).
  pose proof (log_progress_http_eq logger "Fetching weather data for Los Angeles, CA"
                "Info" w) as Ha.
  rewrite Ea in Ha. cbn [snd] in Ha.
  rewrite (bind_ok _ _ _ _ _ Ea).
  rewrite (bind_ok (logs_append _) _ _ tt _ eq_refl).
  set (wb := set_logs _ wa).
  assert (Hb : http_calls wb = http_calls w) by exact Ha.
  unfold weather_outcome in F. rewrite <- Hb in F.
  match goal with
  | |- context [try_except ?m ?h wb] =>
      assert (X : exists wc,
                 m wb = (Raise e, wc) /\
                 trace wc = (trace wb ++ [EUrlopen WEATHER_URL 30])%list /\
                 logs wc = logs wb);
      [| destruct X as (wc & Ec & Tc & Lc);
         rewrite (try_except_raise m h wb e wc Ec) ]
  end.
  { unfold bind at 1. unfold urlopen_read.
    destruct (http_response env (http_calls wb)) as [body|e'].
    - unfold bind, lift. rewrite F. eexists. split; [reflexivity|]. split; reflexivity.
    - inversion F; subst e'. eexists. split; [reflexivity|]. split; reflexivity. }
  assert (H : forall msg,
             exists w' l2,
               (print msg ;; log_progress env logger msg "Warning" ;; logs_append msg) wc
               = (Ok tt, w') /\
               trace w' = (trace wc ++ [EPrint msg] ++ ELogProgress msg "Warning" :: l2)%list /\
               logs w' = (logs wc ++ [msg])%list).
  { intros msg. rewrite (bind_ok (print msg) _ wc tt _ eq_refl).
    destruct (log_progress_run env logger msg "Warning" (emit (EPrint msg) wc))
      as (wd & rd & Ed & Td & Ld).
    rewrite (bind_ok _ _ _ _ _ Ed). eexists _, _. split; [reflexivity|].
    cbn [logs trace set_logs]. rewrite Ld, Td. world_simpl. split; reflexivity. }
  destruct (H (weather_warning e)) as (w' & l2 & E' & T' & L').
  exists w', (ELogProgress "Fetching weather data for Los Angeles, CA" "Info"
              :: EPrint (console_line env w "Info" "Fetching weather data for Los Angeles, CA")
              :: ra ++ [EUrlopen WEATHER_URL 30; EPrint (weather_warning e)])%list, l2.
  split.
  - unfold weather_warning in E'. destruct (is_URLError e); exact E'.
  - rewrite T', L', Tc, Lc. subst wb. cbn [logs trace set_logs]. rewrite Ta, La.
    rewrite <- !app_assoc. cbn [app]. rewrite <- !app_assoc. split; reflexivity.
Qed.

Lemma report_previous_run_http_eq logger job_id w :
  http_calls (snd (report_previous_run env logger job_id w)) = http_calls w.
Proof. apply (report_previous_run_http env logger job_id w). Qed.

Lemma announce_http_eq a i s logger job_id w :
  http_calls (snd (announce env a i s logger job_id w)) = http_calls w.
Proof. apply (announce_http env a i s logger job_id w). Qed.

(** The steps always end by logging the completion. *)
Lemma job_steps_logs a i s logger job_id w :
  exists mid,
    logs (snd (job_steps env a i s logger job_id w))
    = (logs w ++
       ["Job started"; exec_info a job_id i s; partition_key_info job_id i]
       ++ mid ++ ["Job completed successfully!"])%list.
Proof.
  unfold job_steps.
  rewrite (bind_unit_total _ _ _ (announce_total env a i s logger job_id)).
  rewrite (bind_unit_total _ _ _ (report_previous_run_total env logger job_id)).
  rewrite (bind_unit_total _ _ _ (fetch_weather_total env logger)).
  set (wa := snd (announce env a i s logger job_id w)).
  set (wb := snd (report_previous_run env logger job_id wa)).
  set (wc := snd (fetch_weather env logger wb)).
  destruct (complete_run logger wc) as (wd & rest & E & L & _).
  rewrite E. cbn [snd]. rewrite L.
  destruct (fetch_weather_appends env logger wb) as (l2 & L2). fold wc in L2.
  destruct (report_previous_run_appends env logger job_id wa) as (l1 & L1). fold wb in L1.
  rewrite L2, L1. subst wa. rewrite announce_logs.
  exists (l1 ++ l2)%list. rewrite <- !app_assoc. reflexivity.
Qed.

(** *** Settings without connection descriptors *)

(** The blob is absent, empty, not JSON, or a JSON object without the
    ConnectionStrings key. *)
Definition without_connection_strings (app_settings : option string) : Prop :=
  app_settings = None \/
  app_settings = Some "" \/
  (exists s e, app_settings = Some s /\ json_loads env s = Raise e /\
               is_JSONDecodeError e = true) \/
  (exists s members, app_settings = Some s /\ json_loads env s = Ok (JObj members) /\
                     lookup "ConnectionStrings" members = None).

Lemma parse_settings_empty app_settings w :
  without_connection_strings app_settings ->
  parse_settings env app_settings w = (Ok (JStr "", JStr ""), w).
Proof.
  unfold parse_settings, try_except.
  intros [-> | [-> | [(s & e & -> & J & D) | (s & members & -> & J & L)]]];
    try reflexivity.
  - destruct s as [|c r]; [reflexivity|].
    unfold bind at 1. unfold lift at 1. rewrite J, D. reflexivity.
  - destruct s as [|c r]; [reflexivity|].
    unfold_prims. rewrite J. cbn [dict_get]. rewrite L. reflexivity.
Qed.

Lemma JobLogger_init_empty iid w :
  exists w',
    JobLogger_init env (JStr "") iid (JStr "") w
    = (Ok {| self_connection_string := JStr ""; self_job_instance_id := iid;
             self_table_connection_string := JStr ""; self_connection := None;
             self_job_id := 0; self_table_client := None |}, w').
Proof.
  unfold JobLogger_init, open_connection, open_table_client. cbn [truthy String.eqb negb].
  rewrite andb_false_r. destruct (HAS_AZURE_TABLES env); eexists; reflexivity.
Qed.


(** C6.  When the run has acquired its logger and the fetch of this run
    raises (a timeout, a network failure) or its response does not parse
    or lacks a reading, [execute_job] still returns normally: the failure
    is logged as a progress event of level Warning and appended to
    [logs], the completion is logged after it, and the last entry of the
    returned list is "Job completed successfully!". *)
Theorem weather_failure_is_not_fatal app_settings a j i s w logger w1 e :
  acquire_logger env app_settings i w = (Ok logger, w1) ->
  weather_outcome (http_calls w) = Raise e ->
  exists result w' l1 l2 l3,
    execute_job env app_settings a j i s w = (Ok result, w') /\
    last result "" = "Job completed successfully!" /\
    In (weather_warning e) result /\
    trace w' = (l1 ++ ELogProgress (weather_warning e) "Warning"
                :: l2 ++ ELogProgress "Job completed successfully!" "Info" :: l3)%list.
Proof.
  intros A F.
  destruct (execute_job_run _ a j i s _ _ _ A) as (w2 & w3 & E2 & E3 & E).
  destruct (acquire_logger_spec _ _ _ _ _ A) as (_ & _ & _ & _ & H1 & _).
  set (jid := effective_job_id logger j) in *.
  revert E2. unfold job_steps.
  rewrite (bind_unit_total _ _ _ (announce_total env a i s logger jid)).
  rewrite (bind_unit_total _ _ _ (report_previous_run_total env logger jid)).
  set (wa := snd (announce env a i s logger jid w1)).
  set (wb := snd (report_previous_run env logger jid wa)).
  assert (Hb : http_calls wb = http_calls w).
  { subst wb wa. rewrite report_previous_run_http_eq, announce_http_eq. exact H1. }
  rewrite <- Hb in F.
  destruct (fetch_weather_failure logger wb e F) as (wc & l1 & l2 & Ec & Tc & Lc).
  rewrite (bind_ok _ _ _ _ _ Ec).
  destruct (complete_run logger wc) as (wd & rest & Ed & Ld & Td).
  rewrite Ed. intros X. inversion X; subst w2. clear X.
  destruct (finalization_trace logger jid wd) as (w3' & lf & E3' & T3 & _).
  { pose proof (job_steps_conn env a i s logger jid w1) as C.
    destruct (acquire_logger_spec _ _ _ _ _ A) as (O & _).
    intros H. specialize (O H). unfold Same in C. revert C. unfold job_steps.
    rewrite (bind_unit_total _ _ _ (announce_total env a i s logger jid)).
    rewrite (bind_unit_total _ _ _ (report_previous_run_total env logger jid)).
    fold wa. fold wb. rewrite (bind_ok _ _ _ _ _ Ec), Ed. cbn [snd]. congruence. }
  rewrite E3 in E3'. inversion E3'; subst w3'. clear E3'.
  exists (logs wd), w3, (trace wb ++ l1)%list, l2, (rest ++ lf)%list.
  split; [exact E|]. rewrite Ld, Lc. split; [| split].
  - rewrite last_last. reflexivity.
  - apply in_or_app. left. apply in_or_app. right. right. left. reflexivity.
  - rewrite T3, Td, Tc. rewrite <- ?app_assoc. cbn [app].
    rewrite <- ?app_assoc. cbn [app]. reflexivity.
Qed.

(** *** The table-store writes of a run *)

Lemma Emits_weaken (P Q : Event -> Prop) w w' :
  (forall ev, P ev -> Q ev) -> Emits P w w' -> Emits Q w w'.
Proof.
  intros H (l & T & F). exists l. split; [exact T|].
  eapply Forall_impl; [exact H | exact F].
Qed.

Lemma writes_nothing P ev : writes nothing ev -> writes P ev.
Proof. destruct ev; cbn; auto. intros []. Qed.

Lemma acquire_logger_writes app_settings i :
  keeps (Emits (writes nothing)) (acquire_logger env app_settings i).
Proof.
  pose proof (JobLogger_init_writes env).
  unfold acquire_logger, parse_settings. keeping.
Qed.

Lemma acquire_logger_stores app_settings i :
  keeps (Same JobLogs) (acquire_logger env app_settings i).
Proof.
  pose proof (JobLogger_init_stores env).
  unfold acquire_logger, parse_settings. keeping.
Qed.

(** Every entity a run writes is written by its logger. *)
Lemma run_writes app_settings a j i s w logger w1 :
  acquire_logger env app_settings i w = (Ok logger, w1) ->
  exists result w' l stored,
    execute_job env app_settings a j i s w = (Ok result, w') /\
    trace w' = (trace w ++ l)%list /\ Forall (writes (written_by logger)) l /\
    JobLogs w' = (JobLogs w ++ stored)%list /\ Forall (written_by logger) stored /\
    In (partition_key_info (effective_job_id logger j) i) result.
Proof.
  intros A.
  destruct (execute_job_run _ a j i s _ _ _ A) as (w2 & w3 & E2 & E3 & E).
  destruct (acquire_logger_spec _ _ _ _ _ A) as (_ & _ & _ & L1 & _ & S1 & W1).
  set (jid := effective_job_id logger j) in *.
  pose proof (job_steps_writes env a i s logger jid w1) as W2.
  pose proof (job_steps_stores env a i s logger jid w1) as S2.
  pose proof (finalization_writes env (written_by logger) logger jid w2) as W3.
  pose proof (finalization_stores env logger jid w2) as S3.
  rewrite E2 in W2, S2. rewrite E3 in W3, S3. cbn [snd] in *.
  apply (Emits_weaken _ (writes (written_by logger))) in W1;
    [| apply writes_nothing].
  assert (W : Emits (writes (written_by logger)) w w3)
    by (etransitivity; [exact W1 | etransitivity; eassumption]).
  assert (S : Stores (written_by logger) w w3).
  { destruct S2 as (st & S2 & F2). exists st. unfold Same in *.
    rewrite S3, S2, S1. auto. }
  destruct W as (l & T & F). destruct S as (st & S & Fs).
  exists (logs w2), w3, l, st. repeat (split; [assumption|]).
  destruct (job_steps_logs a i s logger jid w1) as (mid & Lg).
  rewrite E2 in Lg. cbn [snd] in Lg. rewrite Lg, L1. cbn [app].
  right. right. left. reflexivity.
Qed.

(** A run that does not get its logger writes nothing. *)
Lemma run_without_logger app_settings a j i s w e w1 :
  acquire_logger env app_settings i w = (Raise e, w1) ->
  execute_job env app_settings a j i s w = (Raise e, w1) /\
  JobLogs w1 = JobLogs w /\
  exists l, trace w1 = (trace w ++ l)%list /\ Forall (writes nothing) l.
Proof.
  intros A.
  pose proof (acquire_logger_writes app_settings i w) as W.
  pose proof (acquire_logger_stores app_settings i w) as S.
  rewrite A in W, S. cbn [snd] in *.
  split; [| split; [exact S | exact W]].
  unfold execute_job, execute_job_with. apply bind_raise. exact A.
Qed.

Lemma nothing_stored logger stored :
  self_job_id logger <= 0 -> Forall (written_by logger) stored -> stored = [].
Proof.
  intros H F. destruct stored as [|ent r]; [reflexivity|].
  inversion F as [|? ? (_ & _ & _ & _ & J) _]. lia.
Qed.

Lemma nothing_written logger l :
  self_job_id logger <= 0 -> Forall (writes (written_by logger)) l ->
  forall ent, ~ In (ECreateEntity ent) l.
Proof.
  intros H F ent I. rewrite Forall_forall in F.
  destruct (F _ I) as (_ & _ & _ & _ & J). lia.
Qed.

(** C4.  The partition key of a logger is its job id, a hyphen and its
    instance id, "5-12" for job 5 and instance 12.  Every entity that a
    run of [execute_job] sends to the table store, and every entity that
    it stores, carries one and the same key, the key of the run's logger
    with the job id the logger resolved; and when that job id is not
    positive, or no logger was constructed, the run sends and stores no
    entity at all. *)
Theorem partition_key_is_fixed_for_the_run app_settings a j i s w :
  (forall cs tcs c t,
     _get_partition_key
       {| self_connection_string := cs; self_job_instance_id := 12;
          self_table_connection_string := tcs; self_connection := c;
          self_job_id := 5; self_table_client := t |} = "5-12") /\
  exists l stored key,
    trace (snd (execute_job env app_settings a j i s w)) = (trace w ++ l)%list /\
    JobLogs (snd (execute_job env app_settings a j i s w)) = (JobLogs w ++ stored)%list /\
    (forall ent, In (ECreateEntity ent) l -> PartitionKey ent = key) /\
    (forall ent, In ent stored -> PartitionKey ent = key) /\
    match fst (acquire_logger env app_settings i w) with
    | Ok logger =>
        key = _get_partition_key logger /\
        key = str_int (self_job_id logger) ++ "-" ++ str_int i /\
        (self_job_id logger <= 0 ->
         stored = [] /\ forall ent, ~ In (ECreateEntity ent) l)
    | Raise _ => stored = [] /\ forall ent, ~ In (ECreateEntity ent) l
    end.
Proof.
  split; [reflexivity|].
  destruct (acquire_logger env app_settings i w) as [[logger|e] w1] eqn:A.
  - destruct (run_writes _ a j i s _ _ _ A) as (result & w' & l & stored & E & T & F & S & Fs & _).
    destruct (acquire_logger_spec _ _ _ _ _ A) as (_ & _ & Iid & _).
    rewrite E. cbn [fst snd].
    exists l, stored, (_get_partition_key logger).
    split; [exact T|]. split; [exact S|]. split; [| split; [| split; [| split]]].
    + intros ent I. rewrite Forall_forall in F. apply (F _ I).
    + intros ent I. rewrite Forall_forall in Fs. apply (Fs _ I).
    + reflexivity.
    + unfold _get_partition_key. rewrite Iid. reflexivity.
    + intros Z0. split; [eapply nothing_stored | eapply nothing_written]; eassumption.
  - destruct (run_without_logger _ a j i s _ _ _ A) as (E & S & l & T & F).
    rewrite E. cbn [fst snd]. exists l, [], "".
    split; [exact T|]. split; [rewrite app_nil_r; exact S|].
    assert (N : forall ent, ~ In (ECreateEntity ent) l).
    { intros ent I. rewrite Forall_forall in F. apply (F _ I). }
    split; [intros ent I; destruct (N ent I)|]. split; [intros ent []|].
    split; [reflexivity | exact N].
Qed.

(** C10.  The logger of a run is constructed from the settings and the
    instance id alone; the job id supplied to [execute_job] plays no part
    in it.  Every entity the run sends or stores carries the partition
    key and the job id of that logger, and is written only when the
    logger holds a table client and resolved a positive job id.  A logger
    without a connection has job id 0.  So when the resolved job id is 0
    the run writes no entity, whatever job id was supplied, although for
    a positive supplied job id the returned list announces the partition
    key made of the supplied id. *)
Theorem table_writes_ignore_supplied_job_id app_settings a j i s w logger w1 :
  acquire_logger env app_settings i w = (Ok logger, w1) ->
  exists result w' l stored,
    execute_job env app_settings a j i s w = (Ok result, w') /\
    trace w' = (trace w ++ l)%list /\
    JobLogs w' = (JobLogs w ++ stored)%list /\
    (forall ent, In (ECreateEntity ent) l \/ In ent stored ->
       PartitionKey ent = _get_partition_key logger /\
       JobId ent = self_job_id logger /\
       has_table_client logger = true /\ 0 < self_job_id logger) /\
    (has_connection logger = false -> self_job_id logger = 0) /\
    (self_job_id logger = 0 ->
     stored = [] /\ forall ent, ~ In (ECreateEntity ent) l) /\
    (0 < j -> In (partition_key_info j i) result).
Proof.
  intros A.
  destruct (run_writes _ a j i s _ _ _ A) as (result & w' & l & stored & E & T & F & S & Fs & P).
  destruct (acquire_logger_spec _ _ _ _ _ A) as (_ & Z0 & _).
  exists result, w', l, stored. repeat (split; [assumption|]).
  split; [| split; [exact Z0 | split]].
  - rewrite Forall_forall in F, Fs.
    intros ent [I|I]; [destruct (F _ I) as (K & J & _ & C & G)
                      | destruct (Fs _ I) as (K & J & _ & C & G)]; auto.
  - intros Z1. assert (self_job_id logger <= 0) by lia.
    split; [eapply nothing_stored | eapply nothing_written]; eassumption.
  - intros J. unfold effective_job_id in P.
    replace (j <=? 0) with false in P by (symmetry; apply Z.leb_gt; exact J).
    exact P.
Qed.

End Runs.

(* ================================================================== *)
(** ** Concrete runs *)

(** A complete run in the demonstration environment. *)
Example demo_run :
  fst (execute_job Demo.env (Some Demo.settings_blob) 7 0 12 3 Demo.world)
  = Ok ["Job started";
        "Executing Job ID: 5, Instance: 12, Schedule: 3, Agent: 7";
        "Log partition key: 5-12";
        "Fetching weather data for Los Angeles, CA";
        "Los Angeles, CA - Temperature: 68°F (20°C), Humidity: 50%, Conditions: Sunny";
        "Job completed successfully!"].
Proof. vm_compute. reflexivity. Qed.

(** Its six table-store entities all carry the key "5-12". *)
Example demo_run_keys :
  map PartitionKey
    (JobLogs (snd (execute_job Demo.env (Some Demo.settings_blob) 7 0 12 3 Demo.world)))
  = ["5-12"; "5-12"; "5-12"; "5-12"; "5-12"; "5-12"].
Proof. vm_compute. reflexivity. Qed.



Lemma last_run_time_is_upserted_witness :
  has_connection Demo.logger = true /\ 0 < 5 /\
  conn (Demo.connected Demo.tables) = Open /\
  last_run_rows 5 (session (Demo.connected Demo.tables)) = [] /\
  exists w1 w2,
    update_last_job_run_time Demo.env Demo.logger 5 (Demo.connected Demo.tables)
    = (Ok tt, w1) /\
    update_last_job_run_time Demo.env Demo.logger 5 w1 = (Ok tt, w2) /\
    map jd_JobDateValue (last_run_rows 5 (session w1)) = [Some Demo.t0] /\
    map jd_JobDateValue (last_run_rows 5 (session w2)) = [Some (Demo.t0 + 1500)] /\
    map jd_Id (last_run_rows 5 (session w1)) = map jd_Id (last_run_rows 5 (session w2)).
Proof.
  split; [reflexivity|]. split; [lia|]. split; [reflexivity|]. split; [reflexivity|].
  destruct (proj2 (last_run_time_is_upserted Demo.env Demo.logger 5
                     (Demo.connected Demo.tables))
              eq_refl eq_refl eq_refl (fun _ => eq_refl) eq_refl)
    as (w1 & w2 & E1 & E2 & R1 & R2 & _).
  exists w1, w2. split; [exact E1|]. split; [exact E2|].
  rewrite R1, R2.
  assert (C1 : clock_reads w1 = 1%nat).
  { replace w1 with (snd (update_last_job_run_time Demo.env Demo.logger 5
                            (Demo.connected Demo.tables))) by (rewrite E1; reflexivity).
    vm_compute. reflexivity. }
  rewrite C1. repeat split; vm_compute; reflexivity.
Defined.


Lemma weather_failure_is_not_fatal_witness :
  acquire_logger Demo.env_offline (Some Demo.settings_blob) 12 Demo.world
  = (Ok Demo.logger, Demo.started) /\
  weather_outcome Demo.env_offline (http_calls Demo.world) = Raise Demo.timeout /\
  exists result w',
    execute_job Demo.env_offline (Some Demo.settings_blob) 7 0 12 3 Demo.world
    = (Ok result, w') /\
    last result "" = "Job completed successfully!" /\
    In "Failed to fetch weather data: timed out" result.
Proof.
  assert (A : acquire_logger Demo.env_offline (Some Demo.settings_blob) 12 Demo.world
              = (Ok Demo.logger, Demo.started)) by (vm_compute; reflexivity).
  assert (F : weather_outcome Demo.env_offline (http_calls Demo.world) = Raise Demo.timeout)
    by reflexivity.
  split; [exact A|]. split; [exact F|].
  destruct (weather_failure_is_not_fatal Demo.env_offline (Some Demo.settings_blob)
              7 0 12 3 Demo.world Demo.logger Demo.started Demo.timeout A F)
    as (result & w' & l1 & l2 & l3 & E & L & I & _).
  exists result, w'. auto.
Defined.

Lemma previous_run_time_is_reported_witness :
  has_connection Demo.logger = true /\ 0 < 5 /\
  conn (Demo.connected Demo.tables_with_history) = Open /\
  select_last_run_value 5 (session (Demo.connected Demo.tables_with_history))
  = [Some (Demo.t0 + 18000)] /\
  exists w',
    report_previous_run Demo.env Demo.logger 5 (Demo.connected Demo.tables_with_history)
    = (Ok tt, w') /\
    logs w' = ["Previous time the job was run: 04/25/2024 06:05am"].
Proof.
  split; [reflexivity|]. split; [lia|]. split; [reflexivity|]. split; [reflexivity|].
  destruct (previous_run_time_is_reported Demo.env Demo.logger 5
              (Demo.connected Demo.tables_with_history) (Demo.t0 + 18000) []
              eq_refl eq_refl eq_refl (fun _ => eq_refl) eq_refl eq_refl)
    as (w' & E & L & _).
  exists w'. split; [exact E|]. rewrite L. vm_compute. reflexivity.
Defined.

(** With a driver that refuses a closed connection, as pyodbc does, the
    second [close] raises. *)
Lemma close_twice_raises :
  exists w1,
    close Demo.env Demo.logger Demo.started = (Ok tt, w1) /\
    conn w1 = Closed /\
    fst (close Demo.env Demo.logger w1) = Raise closed_connection.
Proof. eexists. split; [reflexivity|]. split; reflexivity. Qed.

Lemma close_releases_connection_witness :
  has_connection Demo.logger = true /\ conn Demo.started = Open /\
  exists w1,
    close Demo.env Demo.logger Demo.started = (Ok tt, w1) /\ conn w1 = Closed.
Proof.
  split; [reflexivity|]. split; [reflexivity|].
  destruct (proj2 (close_releases_connection Demo.env Demo.logger Demo.started)
              eq_refl eq_refl) as (w1 & E & C & _).
  exists w1. split; assumption.
Defined.

Lemma table_writes_ignore_supplied_job_id_witness :
  acquire_logger Demo.env (Some Demo.tables_only_blob) 12 Demo.world
  = (Ok Demo.logger_without_db,
     snd (acquire_logger Demo.env (Some Demo.tables_only_blob) 12 Demo.world)) /\
  exists result w',
    execute_job Demo.env (Some Demo.tables_only_blob) 7 9 12 3 Demo.world
    = (Ok result, w') /\
    JobLogs w' = [] /\
    In "Log partition key: 9-12" result.
Proof.
  assert (A : acquire_logger Demo.env (Some Demo.tables_only_blob) 12 Demo.world
              = (Ok Demo.logger_without_db,
                 snd (acquire_logger Demo.env (Some Demo.tables_only_blob) 12 Demo.world)))
    by (vm_compute; reflexivity).
  split; [exact A|].
  destruct (table_writes_ignore_supplied_job_id Demo.env (Some Demo.tables_only_blob)
              7 9 12 3 Demo.world _ _ A)
    as (result & w' & l & stored & E & _ & S & _ & _ & N & P).
  exists result, w'. split; [exact E|]. split.
  - rewrite S. destruct (N eq_refl) as (-> & _). reflexivity.
  - apply P. lia.
Defined.

(* ================================================================== *)
(** ** The connection-string dialect *)

(** [c in s] for a character. *)
Fixpoint occurs (c : ascii) (s : string) : bool :=
  match s with
  | "" => false
  | String x r => Ascii.eqb c x || occurs c r
  end.

Lemma prefix_cons x old y s :
  prefix (String x old) (String y s) = Ascii.eqb x y && prefix old s.
Proof.
  cbn [prefix]. destruct (ascii_dec x y) as [->|N].
  - rewrite Ascii.eqb_refl. reflexivity.
  - apply Ascii.eqb_neq in N. rewrite N. reflexivity.
Qed.

Lemma prefix_before_separator old a c b :
  occurs c old = false ->
  prefix old (a ++ String c b) = prefix old a.
Proof.
  revert a. induction old as [|x old IH]; intros a H; [destruct a; reflexivity|].
  cbn [occurs] in H. apply orb_false_iff in H. destruct H as [Hx Ho].
  destruct a as [|y a].
  - cbn [append]. rewrite prefix_cons. rewrite Ascii.eqb_sym, Hx. reflexivity.
  - cbn [append]. rewrite !prefix_cons, IH by exact Ho. reflexivity.
Qed.

Lemma prefix_fits old s :
  prefix old s = true -> (String.length old <= String.length s)%nat.
Proof.
  revert s. induction old as [|x old IH]; intros s H; [cbn; lia|].
  destruct s as [|y s]; [discriminate H|].
  rewrite prefix_cons in H. apply andb_prop in H. destruct H as [_ H].
  specialize (IH _ H). cbn [String.length]. lia.
Qed.

(** A character that the pattern does not contain splits the text: the
    two sides are rewritten independently. *)
Lemma replace_from_separator old new c b :
  occurs c old = false -> old <> "" ->
  forall a skip,
    (skip <= String.length a)%nat ->
    replace_from old new skip (a ++ String c b)
    = replace_from old new skip a ++ String c (replace_from old new O b).
Proof.
  intros Hc Hne. induction a as [|y a IH]; intros skip Hs.
  - cbn [String.length] in Hs. assert (skip = O) by lia. subst skip.
    cbn [append replace_from].
    destruct old as [|x old]; [congruence|].
    rewrite prefix_cons. cbn [occurs] in Hc. apply orb_false_iff in Hc.
    destruct Hc as [Hx _]. rewrite Ascii.eqb_sym, Hx. reflexivity.
  - cbn [append replace_from]. destruct skip as [|k].
    + change (String y (a ++ String c b)) with (String y a ++ String c b).
      rewrite (prefix_before_separator old (String y a) c b Hc).
      destruct (prefix old (String y a)) eqn:P.
      * apply prefix_fits in P. cbn [String.length] in P.
        rewrite IH by lia. rewrite append_assoc_string. reflexivity.
      * rewrite IH by lia. reflexivity.
    + cbn [String.length] in Hs. rewrite IH by lia. reflexivity.
Qed.

Lemma replace_separator old new c a b :
  occurs c old = false -> old <> "" ->
  replace old new (a ++ String c b) = replace old new a ++ String c (replace old new b).
Proof.
  intros Hc Hne. unfold replace. apply replace_from_separator; auto. lia.
Qed.

Lemma replace_absent old new s :
  contains old s = false -> replace old new s = s.
Proof.
  unfold replace. induction s as [|y s IH]; intros H; [reflexivity|].
  cbn [contains] in H. apply orb_false_iff in H. destruct H as [P C].
  cbn [replace_from]. rewrite P, IH by exact C. reflexivity.
Qed.

(** The fragments that lines 41-54 look for. *)
Definition ODBC_REWRITTEN : list string :=
  ["TrustServerCertificate=true"; "TrustServerCertificate=True";
   "TrustServerCertificate=false"; "TrustServerCertificate=False";
   "Encrypt=true"; "Encrypt=True"; "Encrypt=false"; "Encrypt=False";
   "User ID="; "User Id="; "Password="].

(** X2.  The rewriting of lines 41-54 works attribute by attribute: the
    rewriting of two texts joined by a semicolon is the two rewritings
    joined by a semicolon.  No rewritten fragment reaches across the
    separator. *)
Theorem odbc_dialect_attribute_wise a b :
  odbc_dialect (a ++ ";" ++ b) = odbc_dialect a ++ ";" ++ odbc_dialect b.
Proof.
  unfold odbc_dialect. cbn [append].
  repeat (rewrite replace_separator by (reflexivity || discriminate)).
  reflexivity.
Qed.

(** X3.  A descriptor that holds none of the eleven fragments of lines
    41-54 reaches the driver unchanged. *)
Theorem odbc_dialect_keeps_other_text s :
  (forall p, In p ODBC_REWRITTEN -> contains p s = false) ->
  odbc_dialect s = s.
Proof.
  intros H. unfold odbc_dialect.
  repeat match goal with
         | |- context [replace ?p ?n s] =>
             rewrite (replace_absent p n s) by (apply H; cbn; tauto)
         end.
  reflexivity.
Qed.

Lemma contains_append_right p a b : contains p b = true -> contains p (a ++ b) = true.
Proof.
  intros H. induction a as [|y a IH]; [exact H|].
  cbn [append contains]. rewrite IH. apply orb_true_r.
Qed.

Lemma prefix_append a b : prefix a (a ++ b) = true.
Proof.
  induction a as [|x a IH]; [destruct b; reflexivity|].
  cbn [append]. rewrite prefix_cons, Ascii.eqb_refl, IH. reflexivity.
Qed.

Lemma prefix_self a : prefix a a = true.
Proof. induction a as [|x a IH]; [reflexivity|]. rewrite prefix_cons, Ascii.eqb_refl, IH. reflexivity. Qed.

(** X4.  Driver selection (lines 57-64) only ever appends: the descriptor
    is a prefix of the result.  A descriptor that names a driver is kept
    as it is.  The result names a driver exactly when the descriptor did
    or one of the three known drivers is installed, and the driver
    appended is the first installed one of ODBC Driver 17, ODBC Driver 18
    (with TrustServerCertificate=yes) and SQL Server. *)
Theorem with_driver_names_a_driver drivers cs :
  prefix cs (with_driver drivers cs) = true /\
  (contains "Driver={" cs = true -> with_driver drivers cs = cs) /\
  contains "Driver={" (with_driver drivers cs)
  = contains "Driver={" cs
    || mem "ODBC Driver 17 for SQL Server" drivers
    || mem "ODBC Driver 18 for SQL Server" drivers
    || mem "SQL Server" drivers /\
  (contains "Driver={" cs = false ->
   with_driver drivers cs
   = cs ++ (if mem "ODBC Driver 17 for SQL Server" drivers
            then ";Driver={ODBC Driver 17 for SQL Server};"
            else if mem "ODBC Driver 18 for SQL Server" drivers
            then ";Driver={ODBC Driver 18 for SQL Server};TrustServerCertificate=yes;"
            else if mem "SQL Server" drivers
            then ";Driver={SQL Server};"
            else "")).
Proof.
  unfold with_driver.
  destruct (contains "Driver={" cs) eqn:C.
  - split; [apply prefix_self|]. split; [reflexivity|].
    split; [exact C | discriminate].
  - destruct (mem "ODBC Driver 17 for SQL Server" drivers);
      [| destruct (mem "ODBC Driver 18 for SQL Server" drivers);
         [| destruct (mem "SQL Server" drivers)]];
      (split; [apply prefix_append || apply prefix_self|]);
      (split; [discriminate|]);
      (split; [| intros _; rewrite ?append_empty; reflexivity]);
      cbn [orb];
      first [apply contains_append_right; reflexivity | exact C].
Qed.

(* ================================================================== *)
(** ** Partition keys *)

From Stdlib Require DecimalZ DecimalPos.

Lemma str_int_inj a b : str_int a = str_int b -> a = b.
Proof.
  unfold str_int. intros H. apply DecimalZ.to_int_inj.
  assert (N : forall n, Z.to_int n <> Decimal.Pos Decimal.Nil /\ Z.to_int n <> Decimal.Neg Decimal.Nil).
  { intros [|p|p]; cbn; split; try discriminate;
      intros X; inversion X as [Y]; apply (DecimalPos.Unsigned.to_uint_nonnil _ Y). }
  assert (S : Some (Z.to_int a) = Some (Z.to_int b)).
  { rewrite <- (NilZero.isi (Z.to_int a)), <- (NilZero.isi (Z.to_int b)), H;
      try apply N. reflexivity. }
  inversion S. reflexivity.
Qed.

Lemma digits_have_no_dash d : occurs "-" (NilEmpty.string_of_uint d) = false.
Proof. induction d; cbn; auto. Qed.

(** [str(n)] is an optional minus sign before a non-empty run of
    digits. *)
Lemma str_int_shape n :
  exists c digits,
    occurs "-" (String c digits) = false /\
    (str_int n = String c digits \/ str_int n = String "-" (String c digits)).
Proof.
  assert (U : forall d, exists c digits,
               NilZero.string_of_uint d = String c digits /\
               occurs "-" (String c digits) = false).
  { intros d. pose proof (digits_have_no_dash d) as H.
    destruct d; cbn in *; eexists _, _; split; try reflexivity; auto. }
  unfold str_int. destruct (Z.to_int n) as [d|d]; cbn [NilZero.string_of_int];
    destruct (U d) as (c & digits & -> & H); exists c, digits; auto.
Qed.

Lemma split_at_first_dash s1 s2 t1 t2 :
  occurs "-" s1 = false -> occurs "-" s2 = false ->
  s1 ++ String "-" t1 = s2 ++ String "-" t2 -> s1 = s2 /\ t1 = t2.
Proof.
  revert s2. induction s1 as [|c s1 IH]; intros [|c2 s2] H1 H2 E; cbn in *.
  - inversion E. auto.
  - inversion E; subst c2. cbn in H2. discriminate.
  - inversion E; subst c. cbn in H1. discriminate.
  - inversion E; subst c2.
    apply orb_false_iff in H1, H2. destruct H1 as [_ H1]. destruct H2 as [_ H2].
    destruct (IH s2 H1 H2) as [-> ->]; auto.
Qed.

(** X7.  Two loggers have the same partition key exactly when they have
    the same job id and the same instance id: the key
    '{JobId}-{JobInstanceId}' never puts the entries of two different
    (job, instance) pairs into one partition, negative ids included. *)
Theorem partition_key_identifies_the_run self1 self2 :
  _get_partition_key self1 = _get_partition_key self2 <->
  self_job_id self1 = self_job_id self2 /\
  self_job_instance_id self1 = self_job_instance_id self2.
Proof.
  unfold _get_partition_key. split; [| intros [-> ->]; reflexivity].
  cbn [append].
  destruct (str_int_shape (self_job_id self1)) as (c1 & d1 & N1 & S1).
  destruct (str_int_shape (self_job_id self2)) as (c2 & d2 & N2 & S2).
  intros E.
  assert (X : str_int (self_job_id self1) = str_int (self_job_id self2) /\
              str_int (self_job_instance_id self1) = str_int (self_job_instance_id self2)).
  { destruct S1 as [S1|S1], S2 as [S2|S2]; rewrite S1, S2 in *.
    - apply split_at_first_dash; assumption.
    - exfalso. cbn in E. inversion E; subst c1. cbn in N1. discriminate.
    - exfalso. cbn in E. inversion E; subst c2. cbn in N2. discriminate.
    - cbn [append] in E.
      assert (E' : String c1 d1 ++ String "-" (str_int (self_job_instance_id self1))
                   = String c2 d2 ++ String "-" (str_int (self_job_instance_id self2)))
        by (cbn [append]; inversion E; reflexivity).
      destruct (split_at_first_dash _ _ _ _ N1 N2 E') as [-> ->]. auto. }
  destruct X as [X1 X2]. split; apply str_int_inj; assumption.
Qed.

(* ================================================================== *)
(** ** Construction of the logger *)

(** The driver calls of lines 89-96 of [_get_job_id_from_instance]. *)
Definition job_id_statements (self : JobLogger) : list Event :=
  [ECursor; EExecute (SelectJobIdOfInstance (self_job_instance_id self)); EFetchone].

Definition job_id_warning (e : exn) : string :=
  "Warning: Could not get job_id from instance: " ++ exn_str e.

Section Construction.
Context (env : Env).

(** X6.  [_get_job_id_from_instance] returns normally for every logger
    and world and changes neither the tables nor the state of the
    connection.  Without a connection, or for an instance id that is not
    positive, it returns 0 and does nothing.  Otherwise its driver calls
    are a cursor, the join for the instance id and one fetch.  When none
    of them raises, all three are made and the result is the first JobId
    joined to the instance, or 0 when there is none.  When one raises, it
    is the last call made, the warning carrying that exception is printed
    and the result is 0. *)
Theorem job_id_resolution_never_raises self w :
  exists j w' l,
    _get_job_id_from_instance env self w = (Ok j, w') /\
    trace w' = (trace w ++ l)%list /\
    session w' = session w /\ durable w' = durable w /\ conn w' = conn w /\
    if has_connection self && (0 <? self_job_instance_id self)
    then
      let plan := job_id_statements self in
      ((forall k, (k < List.length plan)%nat -> driver_outcome env w k = None) /\
       l = plan /\
       j = hd 0 (select_job_id (self_job_instance_id self) (session w)))
      \/
      (exists k e,
         (k < List.length plan)%nat /\
         (forall i, (i < k)%nat -> driver_outcome env w i = None) /\
         driver_outcome env w k = Some e /\
         l = (firstn (S k) plan ++ [EPrint (job_id_warning e)])%list /\
         j = 0)
    else j = 0 /\ w' = w.
Proof.
  unfold _get_job_id_from_instance, job_id_statements.
  replace (negb (has_connection self) || (self_job_instance_id self <=? 0))
    with (negb (has_connection self && (0 <? self_job_instance_id self)))
    by (rewrite negb_andb, Z.ltb_antisym, negb_involutive; reflexivity).
  destruct (has_connection self && (0 <? self_job_instance_id self)); cbn [negb];
    [| exists 0, w, []; rewrite app_nil_r; repeat split; reflexivity].
  unfold try_except. unfold_prims. oracle_cases;
    (eexists _, _, _; split; [reflexivity|]; world_simpl;
     split; [reflexivity|];
     do 3 (split; [first [reflexivity | assumption | congruence]|]);
     cbv zeta;
     first
       [ exfalso; congruence
       | left; split;
         [ let k := fresh "k" in
           let Hk := fresh "Hk" in
           intros k Hk; cbn [List.length] in Hk;
           do 3 (destruct k as [|k]; [outcome_none|]);
           exfalso; lia
         | split; [reflexivity|];
           match goal with H : hd_error ?r = _ |- _ =>
             destruct r; cbn in H |- *; congruence end ]
       | raises_at 0%nat 0
       | raises_at 1%nat 1
       | raises_at 2%nat 2 ]).
Qed.


(** Events other than a call of [pyodbc.connect]. *)
Definition not_connect (ev : Event) : Prop :=
  match ev with
  | EConnect _ => False
  | _ => True
  end.

Lemma get_job_id_value self w :
  exists j w',
    _get_job_id_from_instance env self w = (Ok j, w') /\
    session w' = session w /\ durable w' = durable w /\ conn w' = conn w /\
    JobLogs w' = JobLogs w /\ logs w' = logs w /\
    Emits not_connect w w' /\
    (j = 0 \/ hd_error (select_job_id (self_job_instance_id self) (session w)) = Some j).
Proof.
  destruct (get_job_id_total env self w) as (j & w' & E).
  exists j, w'. split; [exact E|].
  assert (K : forall T (obs : World -> T),
             (forall ev w0, obs (emit ev w0) = obs w0) ->
             (forall w0, obs (tick_db w0) = obs w0) ->
             obs w' = obs w).
  { intros T obs He Ht. revert E. unfold _get_job_id_from_instance, try_except.
    destruct (negb (has_connection self) || (self_job_instance_id self <=? 0));
      unfold_prims; oracle_cases; intros X; inversion X; subst;
      repeat first [rewrite He | rewrite Ht]; reflexivity. }
  split; [apply (K _ session); reflexivity|].
  split; [apply (K _ durable); reflexivity|].
  split; [apply (K _ conn); reflexivity|].
  split; [apply (K _ JobLogs); reflexivity|].
  split; [apply (K _ logs); reflexivity|].
  split.
  - assert (Km : keeps (Emits not_connect) (_get_job_id_from_instance env self))
      by (unfold _get_job_id_from_instance; keeping).
    specialize (Km w). rewrite E in Km. exact Km.
  - revert E. unfold _get_job_id_from_instance, try_except.
    destruct (negb (has_connection self) || (self_job_instance_id self <=? 0));
      unfold_prims; oracle_cases; intros X; inversion X; subst; auto.
Qed.

Lemma open_table_client_quiet tcs w :
  exists t w',
    open_table_client env tcs w = (Ok t, w') /\
    session w' = session w /\ durable w' = durable w /\ conn w' = conn w /\
    JobLogs w' = JobLogs w /\ Emits not_connect w w'.
Proof.
  destruct (open_table_client_total env tcs w) as (t & w' & E).
  exists t, w'. split; [exact E|].
  assert (K1 : keeps (Same session) (open_table_client env tcs))
    by (unfold open_table_client; keeping).
  assert (K2 : keeps (Same durable) (open_table_client env tcs))
    by (unfold open_table_client; keeping).
  assert (K3 : keeps (Same conn) (open_table_client env tcs))
    by (unfold open_table_client; keeping).
  assert (K4 : keeps (Same JobLogs) (open_table_client env tcs))
    by (unfold open_table_client; keeping).
  assert (K5 : keeps (Emits not_connect) (open_table_client env tcs))
    by (unfold open_table_client; keeping).
  specialize (K1 w). specialize (K2 w). specialize (K3 w). specialize (K4 w).
  specialize (K5 w). rewrite E in *. auto.
Qed.

(** The connection block of [__init__] (lines 38-70). *)
Lemma open_connection_run cs iid self0 w :
  exists c j w1 l1,
    open_connection env cs iid self0 w = (Ok (c, j), w1) /\
    trace w1 = (trace w ++ l1)%list /\
    durable w1 = durable w /\ JobLogs w1 = JobLogs w /\
    (j = 0 \/ hd_error (select_job_id (self_job_instance_id self0) (durable w)) = Some j) /\
    match c with
    | Some _ =>
        conn w1 = Open /\ session w1 = durable w /\
        exists s tl,
          cs = JStr s /\ s <> "" /\ HAS_PYODBC env = true /\
          l1 = EConnect (with_driver (odbc_drivers env) (odbc_dialect s)) :: tl /\
          Forall not_connect tl
    | None =>
        j = 0 /\ conn w1 = conn w /\ session w1 = session w /\
        (HAS_PYODBC env = false \/ truthy cs = false \/ (forall s, cs <> JStr s) ->
         Forall not_connect l1)
    end.
Proof.
  unfold open_connection.
  destruct (HAS_PYODBC env) eqn:HP; cbn [andb];
    [| exists None, 0, w, []; rewrite app_nil_r;
       repeat (split; [reflexivity || (left; reflexivity)|]); auto ].
  destruct (truthy cs) eqn:TC;
    [| exists None, 0, w, []; rewrite app_nil_r;
       repeat (split; [reflexivity || (left; reflexivity)|]); auto ].
  unfold try_except.
  destruct cs as [| b | n | r | s | items | members];
    try (eexists None, 0, _, _; split; [reflexivity|]; world_simpl;
         split; [reflexivity|];
         repeat (split; [reflexivity || (left; reflexivity)|]);
         intros _; repeat constructor).
  cbn [as_str].
  rewrite (bind_ok (lift (Ok s)) _ w s w eq_refl).
  set (cs' := with_driver _ _).
  assert (NE : s <> "") by (intros ->; discriminate TC).
  destruct (db_fault env (db_calls w)) as [e|] eqn:DF.
  - assert (C : connect env cs' w = (Raise e, tick_db (emit (EConnect cs') w)))
      by (unfold connect; rewrite DF; reflexivity).
    rewrite (bind_raise _ _ _ _ _ C).
    eexists None, 0, _, _. split; [reflexivity|]. world_simpl.
    split; [reflexivity|]. repeat (split; [reflexivity || (left; reflexivity)|]).
    intros [X | [X | X]]; [discriminate | discriminate | destruct (X s eq_refl)].
  - assert (C : connect env cs' w
                = (Ok PyodbcConnection,
                   set_db Open (durable w) (durable w) (tick_db (emit (EConnect cs') w))))
      by (unfold connect; rewrite DF; reflexivity).
    rewrite (bind_ok _ _ _ _ _ C).
    match goal with
    | |- context [bind (_get_job_id_from_instance env ?self) ?k ?W] =>
        destruct (get_job_id_value self W)
          as (j & w1 & E1 & S1 & D1 & C1 & J1 & L1 & (l1 & T1 & F1) & V);
        rewrite (bind_ok _ _ _ _ _ E1)
    end.
    eexists (Some PyodbcConnection), j, w1, (EConnect cs' :: l1).
    split; [reflexivity|]. split; [rewrite T1; world_simpl; reflexivity|].
    split; [rewrite D1; reflexivity|]. split; [rewrite J1; reflexivity|].
    split; [exact V|]. rewrite C1, S1. do 2 (split; [reflexivity|]).
    exists s, l1. auto.
Qed.

(** X1.  The constructor returns a logger for every descriptor, instance
    id and world: no failure of the driver or of the table store escapes
    it.  The logger stores the three arguments as given.  It holds a
    connection only when pyodbc is present and the descriptor is a
    non-empty string; the first call is then [pyodbc.connect] with the
    descriptor as lines 41-64 rewrite it, no second connect is made, the
    connection is open and its session starts from the committed tables.  A logger without a connection has job id 0 and
    leaves connection and session as they were.  The job id is 0 or the
    first JobId joined to the instance in the committed tables, which the
    constructor never changes.  Without pyodbc, with an empty descriptor
    or with one that is not a string, connect is never called. *)
Theorem JobLogger_init_never_raises cs iid tcs w :
  exists logger w' l,
    JobLogger_init env cs iid tcs w = (Ok logger, w') /\
    trace w' = (trace w ++ l)%list /\
    self_connection_string logger = cs /\ self_job_instance_id logger = iid /\
    self_table_connection_string logger = tcs /\
    durable w' = durable w /\ JobLogs w' = JobLogs w /\
    (self_job_id logger = 0 \/
     hd_error (select_job_id iid (durable w)) = Some (self_job_id logger)) /\
    (has_connection logger = true ->
     conn w' = Open /\ session w' = durable w /\
     exists s tl,
       cs = JStr s /\ s <> "" /\ HAS_PYODBC env = true /\
       l = EConnect (with_driver (odbc_drivers env) (odbc_dialect s)) :: tl /\
       Forall not_connect tl) /\
    (has_connection logger = false ->
     self_job_id logger = 0 /\ conn w' = conn w /\ session w' = session w) /\
    (HAS_PYODBC env = false \/ truthy cs = false \/ (forall s, cs <> JStr s) ->
     has_connection logger = false /\ Forall not_connect l).
Proof.
  unfold JobLogger_init.
  match goal with
  | |- context [bind (open_connection env cs iid ?s0) _ w] =>
      destruct (open_connection_run cs iid s0 w)
        as (c & j & w1 & l1 & E1 & T1 & D1 & J1 & V & R)
  end.
  destruct (open_table_client_quiet tcs w1)
    as (t & w' & E' & S' & D' & C' & J' & l2 & T' & F').
  rewrite (bind_ok _ _ _ _ _ E1), (bind_ok _ _ _ _ _ E').
  eexists _, w', (l1 ++ l2)%list. split; [reflexivity|].
  split; [rewrite T', T1, app_assoc; reflexivity|].
  unfold has_connection. cbn [self_connection_string self_job_instance_id
    self_table_connection_string self_connection self_job_id fst snd].
  do 3 (split; [reflexivity|]). split; [congruence|]. split; [congruence|].
  split; [exact V|]. rewrite C', S'.
  destruct c as [c|].
  - destruct R as (O & S & s & tl & -> & NE & HP & -> & F).
    split; [| split; [discriminate|]].
    + intros _. do 2 (split; [assumption|]).
      exists s, (tl ++ l2)%list. repeat (split; [reflexivity || assumption|]).
      apply Forall_app. auto.
    + intros [X | [X | X]]; [congruence | | destruct (X s eq_refl)].
      cbn [truthy] in X. apply negb_false_iff, String.eqb_eq in X. contradiction.
  - destruct R as (Z0 & C0 & S0 & N). split; [discriminate|].
    split; [auto|]. intros X. split; [reflexivity|]. apply Forall_app. auto.
Qed.

End Construction.

(* ================================================================== *)
(** ** Error records *)

(** The run-time records of all jobs. *)
Definition run_records (t : Tables) : list JobDataRow :=
  filter (fun r => (jd_JobFieldDescription r =? LAST_RUN)%string) (JobData t).

Lemma run_records_error_record jid stamp msg t :
  run_records (sql_apply (InsertErrorRecord jid ("Error_" ++ stamp) msg) t)
  = run_records t.
Proof.
  unfold run_records. cbn [sql_apply insert_JobData JobData].
  rewrite filter_app. cbn. apply app_nil_r.
Qed.

Lemma last_run_rows_of_records job_id t :
  last_run_rows job_id t = filter (fun r => jd_JobId r =? job_id) (run_records t).
Proof.
  unfold last_run_rows, run_records, is_last_run.
  induction (JobData t) as [|r l IH]; cbn [filter]; [reflexivity|].
  destruct (jd_JobFieldDescription r =? LAST_RUN)%string; cbn [filter];
    rewrite ?andb_true_r, ?andb_false_r, IH; reflexivity.
Qed.

Section ErrorRecords.
Context (env : Env).

(** X8.  [log_error] with an open connection, a positive instance id and
    a driver that does not fail: it returns normally, the connection
    stays open and everything is committed.  Exactly the rows of
    JobInstances with the logger's instance id are marked HasError by
    JobExecutor, and JobData gains one row when the logger's job id is
    positive and none otherwise.  The new row belongs to the logger's job,
    its descriptor is Error_, the second clock reading of the call as
    YYYYmmddHHMMSS, an underscore and the first eight hex digits of a
    fresh uuid, and its string value is the message, followed by a
    newline and the stack trace when there is one. *)
Theorem error_is_recorded_when_driver_works self message stack_trace w :
  has_connection self = true -> 0 < self_job_instance_id self ->
  conn w = Open -> (forall n, db_fault env n = None) ->
  exists w',
    log_error env self message stack_trace w = (Ok tt, w') /\
    conn w' = Open /\ durable w' = session w' /\
    JobInstances (session w')
    = map (fun r => if jis_Id r =? self_job_instance_id self
                    then {| jis_Id := jis_Id r; jis_HasError := true;
                            jis_UpdatedBy := Some EXECUTOR |}
                    else r) (JobInstances (session w)) /\
    JobData (session w')
    = (JobData (session w) ++
       if 0 <? self_job_id self
       then [{| jd_Id := next_identity (session w);
                jd_JobId := self_job_id self;
                jd_JobFieldDescription :=
                  "Error_" ++ strftime "%Y%m%d%H%M%S" (clock env (S (clock_reads w)))
                  ++ "_" ++ take 8 (uuid_hex env (uuid_draws w));
                jd_JobStringValue := Some (with_trace message stack_trace);
                jd_JobDateValue := None;
                jd_CreatedBy := EXECUTOR; jd_UpdatedBy := None |}]
       else [])%list.
Proof.
  intros HC HI HO HF.
  assert (G : has_connection self && (0 <? self_job_instance_id self) = true).
  { rewrite HC. simpl. apply Z.ltb_lt. exact HI. }
  destruct (log_error_to_table_spec env self message stack_trace
              (snd (log_error_to_database env self message stack_trace
                      (emit (EPrint (console_line env w "ERROR" message))
                         (tick_clock (emit (ELogError message stack_trace) w))))))
    as (w' & l & E & _ & S & D & _).
  assert (EE : log_error env self message stack_trace w = (Ok tt, w')).
  { unfold log_error.
    rewrite (bind_ok (mark _) _ w tt _ eq_refl).
    rewrite (bind_ok (utcnow env) _ _ _ _ eq_refl).
    rewrite (bind_ok (print _) _ _ tt _ eq_refl).
    destruct (log_error_to_database_spec env self message stack_trace
                (emit (EPrint (console_line env w "ERROR" message))
                   (tick_clock (emit (ELogError message stack_trace) w))))
      as (w2 & l2 & E2 & _).
    unfold console_line in *. cbn [clock_reads emit] in *.
    rewrite (bind_ok _ _ _ _ _ E2). rewrite E2 in E. exact E. }
  exists w'. split; [exact EE|].
  - pose proof (log_error_conn env self message stack_trace w) as C.
    rewrite EE in C. unfold Same in C. cbn [snd] in C.
    rewrite C, S, D. split; [exact HO|].
    unfold log_error_to_database, when, try_except. rewrite G.
    unfold_prims.
    repeat (progress (world_simpl; rewrite ?HO, ?HF)).
    destruct (0 <? self_job_id self);
      repeat (progress (world_simpl; rewrite ?HO, ?HF));
      cbn [snd]; world_simpl; (split; [reflexivity|]); split;
        first [reflexivity | cbn; rewrite ?app_nil_r; reflexivity].
Qed.

(** A relational failure of the error sink never touches a run-time
    record. *)
Lemma log_error_to_database_run_records self message stack_trace :
  keeps (Same (fun w => run_records (session w)))
    (log_error_to_database env self message stack_trace).
Proof.
  intros w. unfold Same, log_error_to_database, when, try_except.
  destruct (has_connection self && (0 <? self_job_instance_id self)); [| reflexivity].
  unfold_prims. oracle_cases; cbn [snd]; world_simpl;
    rewrite ?run_records_error_record; reflexivity.
Qed.

(** X9.  Whatever fails, [log_error] leaves every 'Last Job Run Time'
    row of the session as it was: for every job, the two SELECTs of the
    run bookkeeping return after it what they returned before it. *)
Theorem log_error_keeps_run_records self message stack_trace w :
  let w' := snd (log_error env self message stack_trace w) in
  run_records (session w') = run_records (session w) /\
  forall job_id,
    select_last_run_value job_id (session w') = select_last_run_value job_id (session w) /\
    select_last_run_id job_id (session w') = select_last_run_id job_id (session w).
Proof.
  intros w'.
  assert (R : run_records (session w') = run_records (session w)).
  { pose proof log_error_to_database_run_records as K.
    assert (K' : keeps (Same (fun w => run_records (session w)))
                   (log_error env self message stack_trace))
      by (unfold log_error, log_error_to_table; keeping).
    apply K'. }
  split; [exact R|].
  intros job_id. unfold select_last_run_value, select_last_run_id.
  fold (last_run_rows job_id (session w')). fold (last_run_rows job_id (session w)).
  rewrite !last_run_rows_of_records, R. split; reflexivity.
Qed.

End ErrorRecords.

(* ================================================================== *)
(** ** The report of the previous run *)

(** Events that leave the relational tables alone, the only statement
    among them being the SELECT of the run time of [job_id]. *)
Definition reads_run_time (job_id : Z) (ev : Event) : Prop :=
  match ev with
  | EExecute s => s = SelectLastRunValue job_id
  | ECommit | EClose | EConnect _ => False
  | _ => True
  end.

(** The message of line 241. *)
Definition previous_run_message (local_time : datetime) : string :=
  "Previous time the job was run: " ++ formatted_time local_time.

Section PreviousRunReport.
Context (env : Env).

Lemma log_progress_quiet self message level w :
  exists w' rest,
    log_progress env self message level w = (Ok tt, w') /\
    trace w' = (trace w ++ ELogProgress message level
                  :: EPrint (console_line env w level message) :: rest)%list /\
    logs w' = logs w /\ session w' = session w /\ durable w' = durable w /\
    conn w' = conn w.
Proof.
  destruct (log_progress_run env self message level w) as (w' & rest & E & T & L).
  exists w', rest. repeat (split; [assumption|]).
  assert (K1 : keeps (Same session) (log_progress env self message level))
    by (unfold log_progress; keeping).
  assert (K2 : keeps (Same durable) (log_progress env self message level))
    by (unfold log_progress; keeping).
  pose proof (log_progress_conn env self message level w) as K3.
  specialize (K1 w). specialize (K2 w). rewrite E in *. auto.
Qed.

(** What the report appends to [logs]: nothing, or the one message for
    a stored time moved to local time; and without a connection or a
    positive job id it does nothing at all. *)
Lemma report_previous_run_logs logger job_id w :
  let w' := snd (report_previous_run env logger job_id w) in
  (logs w' = logs w \/
   exists t,
     logs w' = (logs w ++ [previous_run_message t])%list /\
     In (Some t)
       (map (option_map (fun prev => prev + (clock env (clock_reads w) + utc_offset env
                                             - clock env (S (clock_reads w)))))
          (select_last_run_value job_id (session w)))) /\
  (has_connection logger && (0 <? job_id) = false -> w' = w).
Proof.
  unfold report_previous_run, when, try_except.
  destruct (has_connection logger && (0 <? job_id)) eqn:G;
    [| split; [left|]; reflexivity].
  split; [| discriminate].
  unfold_prims. oracle_cases;
    repeat match goal with
           | |- context [match ?o with Some _ => _ | None => _ end] =>
               is_var o; destruct o
           | |- context [dt_add ?a ?b] =>
               unfold dt_add; destruct (in_range (a + b)) eqn:?
           end;
    world_simpl;
    try match goal with
        | |- context [log_progress env ?lg ?m ?lv ?W] =>
            destruct (log_progress_quiet lg m lv W) as (w1 & rest & E1 & _ & L1 & _);
            rewrite E1
        end;
    cbn [snd logs set_logs]; rewrite ?L1; world_simpl;
    try (left; reflexivity).
  right. eexists. split; [reflexivity|].
  match goal with H : hd_error ?r = Some _ |- _ =>
    destruct r; cbn in H; [discriminate|]; inversion H; subst end.
  left. reflexivity.
Qed.

(** X13.  The report of the previous run (lines 225-246) returns
    normally for every logger, job id and world.  It is read-only: the
    only statement it executes is the SELECT of the job's run time, it
    neither commits nor closes nor connects, and session, committed
    tables and connection state are as before.  It appends to [logs]
    either nothing or the one message for a stored time of the job, moved
    by the difference between the local and the UTC clock reading of this
    call.  Without a connection or a positive job id it does nothing at
    all. *)
Theorem report_previous_run_is_read_only logger job_id w :
  exists w' l,
    report_previous_run env logger job_id w = (Ok tt, w') /\
    trace w' = (trace w ++ l)%list /\ Forall (reads_run_time job_id) l /\
    session w' = session w /\ durable w' = durable w /\ conn w' = conn w /\
    (logs w' = logs w \/
     exists t,
       logs w' = (logs w ++ [previous_run_message t])%list /\
       In (Some t)
         (map (option_map (fun prev => prev + (clock env (clock_reads w) + utc_offset env
                                               - clock env (S (clock_reads w)))))
            (select_last_run_value job_id (session w)))) /\
    (has_connection logger = false \/ job_id <= 0 -> w' = w).
Proof.
  destruct (report_previous_run_total env logger job_id w) as ([] & w' & E).
  assert (K : keeps (Emits (reads_run_time job_id)) (report_previous_run env logger job_id)).
  { unfold report_previous_run, log_progress. keeping. }
  assert (K1 : keeps (Same session) (report_previous_run env logger job_id)).
  { unfold report_previous_run, log_progress. keeping. }
  assert (K2 : keeps (Same durable) (report_previous_run env logger job_id)).
  { unfold report_previous_run, log_progress. keeping. }
  pose proof (report_previous_run_conn env logger job_id w) as K3.
  pose proof (report_previous_run_logs logger job_id w) as (L & N).
  specialize (K w). specialize (K1 w). specialize (K2 w).
  rewrite E in K, K1, K2, K3, L, N. cbn [snd] in *. destruct K as (l & T & F).
  exists w', l. do 6 (split; [assumption|]). split; [exact L|].
  intros X. apply N. destruct X as [-> | X]; [reflexivity|].
  apply andb_false_iff. right. apply Z.ltb_ge. exact X.
Qed.

(** X14.  With an open connection, a positive job id and a driver that
    does not fail: when the job has no run-time row, or the first one
    holds NULL, the report makes its three driver calls and nothing else;
    no clock is read, nothing is printed, logged or appended.  When the
    stored time moved to local time leaves the years 1..9999, the
    addition raises inside the [try]: the three calls are followed by the
    one warning line, and nothing is logged or appended. *)
Theorem previous_run_without_usable_time logger job_id w :
  has_connection logger = true -> 0 < job_id -> conn w = Open ->
  (forall n, db_fault env n = None) ->
  let asked := [ECursor; EExecute (SelectLastRunValue job_id); EFetchone] in
  let local_now := clock env (clock_reads w) + utc_offset env in
  let utc_now := clock env (S (clock_reads w)) in
  exists w',
    report_previous_run env logger job_id w = (Ok tt, w') /\
    match hd_error (select_last_run_value job_id (session w)) with
    | None | Some None =>
        trace w' = (trace w ++ asked)%list /\
        logs w' = logs w /\ JobLogs w' = JobLogs w /\ clock_reads w' = clock_reads w
    | Some (Some prev) =>
        in_range (prev + (local_now - utc_now)) = false ->
        trace w' = (trace w ++ asked ++
                    [EPrint "Warning: Failed to read Last Job Run Time: date value out of range"])%list /\
        logs w' = logs w /\ JobLogs w' = JobLogs w
    end.
Proof.
  intros HC HJ HO HF asked local_now utc_now.
  destruct (report_previous_run_total env logger job_id w) as ([] & w' & E).
  exists w'. split; [exact E|]. revert E.
  assert (G : has_connection logger && (0 <? job_id) = true).
  { rewrite HC. simpl. apply Z.ltb_lt. exact HJ. }
  unfold report_previous_run, when, try_except. rewrite G.
  unfold_prims.
  repeat (progress (world_simpl; rewrite ?HO, ?HF)).
  destruct (hd_error (select_last_run_value job_id (session w))) as [[prev|]|].
  - world_simpl. unfold dt_add. fold local_now utc_now.
    intros E R. rewrite R in E. inversion E. world_simpl. repeat split; reflexivity.
  - intros E. inversion E. world_simpl. repeat split; reflexivity.
  - intros E. inversion E. world_simpl. repeat split; reflexivity.
Qed.

(** The report when nothing fails and the first row holds a time. *)
Lemma report_when_driver_works logger job_id w prev :
  has_connection logger = true -> 0 < job_id -> conn w = Open ->
  (forall n, db_fault env n = None) ->
  hd_error (select_last_run_value job_id (session w)) = Some (Some prev) ->
  let local_time :=
    prev + (clock env (clock_reads w) + utc_offset env - clock env (S (clock_reads w))) in
  in_range local_time = true ->
  exists w',
    report_previous_run env logger job_id w = (Ok tt, w') /\
    logs w' = (logs w ++ [previous_run_message local_time])%list /\
    In (EPrint (previous_run_message local_time)) (trace w') /\
    In (ELogProgress (previous_run_message local_time) "Info") (trace w').
Proof.
  intros HC HJ HO HF HS local_time HR.
  assert (G : has_connection logger && (0 <? job_id) = true).
  { rewrite HC. simpl. apply Z.ltb_lt. exact HJ. }
  unfold report_previous_run, when, try_except. rewrite G.
  unfold_prims.
  repeat (progress (world_simpl; rewrite ?HO, ?HF, ?HS)).
  unfold dt_add. fold local_time. rewrite HR.
  fold (formatted_time local_time). fold (previous_run_message local_time).
  match goal with
  | |- context [log_progress env logger ?m ?l ?W] =>
      destruct (log_progress_run env logger m l W) as (w1 & rest & E & T & L)
  end.
  rewrite E. eexists. split; [reflexivity|]. world_simpl.
  rewrite L, T. world_simpl.
  split; [reflexivity|].
  split; apply in_or_app; right; repeat (try (left; reflexivity); right).
Qed.

(** X16.  With an open connection, a positive job id and a driver that
    does not fail, the update of the finally block commits, and the time
    it recorded, a reading of the UTC clock, is what the SELECT of the
    report returns first on the committed tables, also when the job had
    several rows; the job has one row if it had none and as many as
    before otherwise.  So a later report on a session of these tables,
    by any logger with an open connection, returns normally and appends
    the message for exactly that time, moved to local time (when that is
    a representable date). *)
Theorem recorded_time_is_read_back logger job_id w :
  has_connection logger = true -> 0 < job_id -> conn w = Open ->
  (forall n, db_fault env n = None) ->
  exists w',
    update_last_job_run_time env logger job_id w = (Ok tt, w') /\
    durable w' = session w' /\
    hd_error (select_last_run_value job_id (durable w'))
    = Some (Some (clock env (clock_reads w))) /\
    List.length (select_last_run_value job_id (durable w'))
    = Nat.max 1 (List.length (select_last_run_value job_id (session w))) /\
    forall later w2,
      has_connection later = true -> conn w2 = Open -> session w2 = durable w' ->
      let local_time :=
        clock env (clock_reads w)
        + (clock env (clock_reads w2) + utc_offset env - clock env (S (clock_reads w2))) in
      in_range local_time = true ->
      exists w3,
        report_previous_run env later job_id w2 = (Ok tt, w3) /\
        logs w3 = (logs w2 ++ [previous_run_message local_time])%list.
Proof.
  intros HC HJ HO HF.
  destruct (update_when_driver_works env logger job_id w HC HJ HO HF)
    as (w' & E & _ & _ & S & D).
  assert (Hd : hd_error (select_last_run_value job_id (durable w'))
               = Some (Some (clock env (clock_reads w))) /\
               List.length (select_last_run_value job_id (durable w'))
               = Nat.max 1 (List.length (select_last_run_value job_id (session w)))).
  { rewrite D, S.
    unfold select_last_run_id, select_last_run_value.
    fold (last_run_rows job_id (session w)).
    destruct (last_run_rows job_id (session w)) as [|r rows] eqn:R; cbn [map hd_error].
    - fold (last_run_rows job_id (sql_apply (InsertLastRun job_id (clock env (clock_reads w)))
                                    (session w))).
      rewrite last_run_rows_insert, R, Z.eqb_refl. split; reflexivity.
    - fold (last_run_rows job_id (sql_apply (UpdateLastRun (clock env (clock_reads w)) (jd_Id r))
                                    (session w))).
      rewrite last_run_rows_update, R. cbn [map]. rewrite Z.eqb_refl.
      cbn [hd_error jd_JobDateValue].
      split; [reflexivity|]. cbn [List.length]. rewrite !List.length_map. lia. }
  exists w'. split; [exact E|]. split; [exact D|].
  split; [apply Hd|]. split; [apply Hd|].
  intros later w2 HC2 HO2 HS2 local_time HR.
  destruct (report_when_driver_works later job_id w2 (clock env (clock_reads w))
              HC2 HJ HO2 HF) as (w3 & E3 & L3 & _); [rewrite HS2; apply Hd | exact HR |].
  exists w3. split; assumption.
Qed.

End PreviousRunReport.

(* ================================================================== *)
(** ** The weather step *)

(** The message of line 270. *)
Definition weather_info (env : Env) (readings : json * json * json * json) : string :=
  let '(temp_c, temp_f, humidity, weather_desc) := readings in
  "Los Angeles, CA - Temperature: " ++ py_str env temp_f ++ "°F ("
  ++ py_str env temp_c ++ "°C), Humidity: " ++ py_str env humidity
  ++ "%, Conditions: " ++ py_str env weather_desc.

(** What the weather step reports for the [n]-th fetch, and at which
    level. *)
Definition weather_message (env : Env) (n : nat) : string :=
  match weather_outcome env n with
  | Ok readings => weather_info env readings
  | Raise e => weather_warning e
  end.

Definition weather_level (env : Env) (n : nat) : string :=
  match weather_outcome env n with
  | Ok _ => "Info"
  | Raise _ => "Warning"
  end.

Definition FETCHING : string := "Fetching weather data for Los Angeles, CA".

(** Events other than a request to the endpoint. *)
Definition not_urlopen (ev : Event) : Prop :=
  match ev with
  | EUrlopen _ _ => False
  | _ => True
  end.

Section WeatherStep.
Context (env : Env).

Lemma log_progress_offline self message level :
  keeps (Emits not_urlopen) (log_progress env self message level).
Proof. unfold log_progress. keeping. Qed.

(** The weather step: one request, then the readings or the warning. *)
Lemma fetch_weather_run logger w :
  exists w' l1 l2,
    fetch_weather env logger w = (Ok tt, w') /\
    trace w' = (trace w ++ l1 ++ EUrlopen WEATHER_URL 30 :: l2)%list /\
    Forall not_urlopen l1 /\ Forall not_urlopen l2 /\
    In (ELogProgress FETCHING "Info") l1 /\
    In (ELogProgress (weather_message env (http_calls w))
          (weather_level env (http_calls w))) l2 /\
    http_calls w' = S (http_calls w) /\
    logs w' = (logs w ++ [FETCHING; weather_message env (http_calls w)])%list.
Proof.
  pose proof log_progress_offline as Off.
  unfold fetch_weather. fold FETCHING.
  destruct (log_progress_run env logger FETCHING "Info" w) as (wa & ra & Ea & Ta & La).
  pose proof (log_progress_http_eq env logger FETCHING "Info" w) as Ha.
  pose proof (Off logger FETCHING "Info" w) as (la & Ta' & Fa).
  rewrite Ea in Ha, Ta'. cbn [snd] in Ha, Ta'.
  rewrite (bind_ok _ _ _ _ _ Ea).
  rewrite (bind_ok (logs_append _) _ _ tt _ eq_refl).
  set (wb := set_logs _ wa).
  assert (H : forall msg lvl,
             exists w' l2,
               (print msg ;; log_progress env logger msg lvl ;; logs_append msg)
                 (tick_http (emit (EUrlopen WEATHER_URL 30) wb))
               = (Ok tt, w') /\
               trace w' = (trace wb ++ EUrlopen WEATHER_URL 30 :: l2)%list /\
               Forall not_urlopen l2 /\ In (ELogProgress msg lvl) l2 /\
               http_calls w' = S (http_calls wb) /\
               logs w' = (logs wb ++ [msg])%list).
  { intros msg lvl. rewrite (bind_ok (print msg) _ _ tt _ eq_refl).
    match goal with
    | |- context [bind (log_progress env logger msg lvl) ?k ?W] =>
        destruct (log_progress_run env logger msg lvl W) as (wd & rd & Ed & Td & Ld);
        pose proof (log_progress_http_eq env logger msg lvl W) as Hd;
        pose proof (Off logger msg lvl W) as (ld & Td' & Fd)
    end.
    rewrite Ed in Hd, Td'. cbn [snd] in Hd, Td'.
    rewrite (bind_ok _ _ _ _ _ Ed). eexists _, (EPrint msg :: ld)%list.
    split; [reflexivity|]. cbn [logs trace set_logs http_calls].
    rewrite Ld, Hd. split; [rewrite Td'; world_simpl; reflexivity|].
    split; [constructor; [exact I | exact Fd]|].
    split; [| split; reflexivity].
    right. rewrite Td in Td'. revert Td'. world_simpl. intros X.
    apply app_inv_head in X. inversion X. left. reflexivity. }
  assert (Fin : forall msg lvl w' l2,
             trace w' = (trace wb ++ EUrlopen WEATHER_URL 30 :: l2)%list ->
             Forall not_urlopen l2 -> In (ELogProgress msg lvl) l2 ->
             http_calls w' = S (http_calls wb) ->
             logs w' = (logs wb ++ [msg])%list ->
             trace w' = (trace w ++ la ++ EUrlopen WEATHER_URL 30 :: l2)%list /\
             Forall not_urlopen la /\ Forall not_urlopen l2 /\
             In (ELogProgress FETCHING "Info") la /\
             In (ELogProgress msg lvl) l2 /\
             http_calls w' = S (http_calls wb) /\
             logs w' = (logs w ++ [FETCHING; msg])%list).
  { intros msg lvl w' l2 T F2 I2 H2 L2. rewrite T, H2, L2. subst wb.
    cbn [logs trace set_logs http_calls]. rewrite Ta', La, <- !app_assoc.
    repeat split; auto.
    rewrite Ta in Ta'. apply app_inv_head in Ta'. rewrite <- Ta'. left. reflexivity. }
  unfold weather_message, weather_level, weather_outcome.
  replace (http_calls w) with (http_calls wb) by exact Ha.
  unfold try_except, bind at 1, urlopen_read.
  destruct (http_response env (http_calls wb)) as [body|e].
  - unfold bind at 1, lift. destruct (extract_weather env body) as [[[[c f] h] d]|e].
    + destruct (H (weather_info env (c, f, h, d)) "Info") as (w' & l2 & E' & R).
      exists w', la, l2. split; [| apply Fin; apply R].
      unfold weather_info in E'. rewrite E'. reflexivity.
    + destruct (H (weather_warning e) "Warning") as (w' & l2 & E' & R).
      exists w', la, l2. split; [| apply Fin; apply R].
      unfold weather_warning in E'. destruct (is_URLError e); exact E'.
  - destruct (H (weather_warning e) "Warning") as (w' & l2 & E' & R).
    exists w', la, l2. split; [| apply Fin; apply R].
    unfold weather_warning in E'. destruct (is_URLError e); exact E'.
Qed.

End WeatherStep.

(* ================================================================== *)
(** ** Settings that make the run raise *)

Definition not_an_object (v : json) : Prop :=
  match v with
  | JObj _ => False
  | _ => True
  end.

(** What [v.get] raises on a value that is not a dict. *)
Definition no_get (v : json) : exn :=
  mk_exn AttributeError ("'" ++ type_name v ++ "' object has no attribute 'get'").

(** The settings for which the reading of the descriptors raises [e]:
    a text that [json.loads] rejects with something other than
    [JSONDecodeError], a document that is not an object, or one whose
    ConnectionStrings member is not an object. *)
Definition malformed_settings (env : Env) (app_settings : option string) (e : exn) : Prop :=
  exists text,
    app_settings = Some text /\ text <> "" /\
    ((json_loads env text = Raise e /\ is_JSONDecodeError e = false) \/
     exists v,
       json_loads env text = Ok v /\
       ((not_an_object v /\ e = no_get v) \/
        exists members c,
          v = JObj members /\ lookup "ConnectionStrings" members = Some c /\
          not_an_object c /\ e = no_get c)).

Section SettingsFailures.
Context (env : Env).

Lemma parse_settings_raises app_settings w e :
  fst (parse_settings env app_settings w) = Raise e <->
  malformed_settings env app_settings e.
Proof.
  unfold parse_settings, try_except, malformed_settings. unfold_prims.
  destruct app_settings as [[|c r]|];
    [ cbn; split; [discriminate | intros (t & X & N & _); inversion X; congruence]
    | | cbn; split; [discriminate | intros (t & X & _); discriminate] ].
  assert (Back : forall P : Prop,
             (json_loads env (String c r) = Raise e -> is_JSONDecodeError e = false -> P) ->
             (forall v, json_loads env (String c r) = Ok v -> not_an_object v ->
                        e = no_get v -> P) ->
             (forall m c0, json_loads env (String c r) = Ok (JObj m) ->
                           lookup "ConnectionStrings" m = Some c0 ->
                           not_an_object c0 -> e = no_get c0 -> P) ->
             (exists text,
                 Some (String c r) = Some text /\ text <> "" /\
                 ((json_loads env text = Raise e /\ is_JSONDecodeError e = false) \/
                  exists v,
                    json_loads env text = Ok v /\
                    ((not_an_object v /\ e = no_get v) \/
                     exists members c,
                       v = JObj members /\ lookup "ConnectionStrings" members = Some c /\
                       not_an_object c /\ e = no_get c))) -> P).
  { intros P H1 H2 H3
      (t & X & _ & [[J' D'] | (v & J' & [[V E] | (m & c1 & V & L' & N & E)])]);
      inversion X; subst t; [apply H1 | apply (H2 v) | subst v; apply (H3 m c1)]; assumption. }
  assert (Text : String c r <> "") by discriminate.
  destruct (json_loads env (String c r)) as [v|e0] eqn:J.
  - destruct v as [| b | n | f | s | items | members];
      try (cbn; split;
           [ intros X; inversion X; subst; eexists; split; [reflexivity|]; split; [exact Text|];
             right; eexists; split; [exact J|]; left; split; [exact I | reflexivity]
           | apply Back;
             [ discriminate
             | intros v J' V ->; inversion J'; reflexivity
             | discriminate ] ]).
    cbn [dict_get].
    destruct (lookup "ConnectionStrings" members) as [c0|] eqn:L.
    + destruct c0 as [| b | n | f | s | items | m2];
        try (cbn; split;
             [ intros X; inversion X; subst; eexists; split; [reflexivity|]; split; [exact Text|];
               right; eexists; split; [exact J|]; right; eexists _, _;
               split; [reflexivity|]; split; [exact L|]; split; [exact I | reflexivity]
             | apply Back;
               [ discriminate
               | intros v J' V _; inversion J'; subst v; destruct V
               | intros m c1 J' L' N ->; inversion J'; subst m;
                 rewrite L in L'; inversion L'; reflexivity ] ]).
      cbn. split; [discriminate|]. apply Back.
      * discriminate.
      * intros v J' V _. inversion J'; subst v. destruct V.
      * intros m c1 J' L' N _. inversion J'; subst m.
        rewrite L in L'. inversion L'; subst c1. destruct N.
    + cbn. split; [discriminate|]. apply Back.
      * discriminate.
      * intros v J' V _. inversion J'; subst v. destruct V.
      * intros m c1 J' L' N _. inversion J'; subst m.
        rewrite L in L'. discriminate L'.
  - destruct (is_JSONDecodeError e0) eqn:D; cbn; split.
    + discriminate.
    + apply Back; [intros J' D'; inversion J'; congruence | discriminate | discriminate].
    + intros X. inversion X; subst. eexists. split; [reflexivity|].
      split; [exact Text|]. left. auto.
    + apply Back; [intros J' D'; inversion J'; reflexivity | discriminate | discriminate].
Qed.

(** The logger is constructed whenever the descriptors are read. *)
Lemma acquire_logger_outcome app_settings i w :
  match fst (parse_settings env app_settings (set_logs [] w)) with
  | Ok _ => exists logger w1, acquire_logger env app_settings i w = (Ok logger, w1)
  | Raise e => acquire_logger env app_settings i w = (Raise e, set_logs [] w)
  end.
Proof.
  pose proof (parse_settings_pure env app_settings (set_logs [] w)) as Pure.
  unfold acquire_logger. rewrite (bind_ok logs_init _ w tt _ eq_refl).
  destruct (parse_settings env app_settings (set_logs [] w)) as [[d|e0] w0] eqn:Q;
    cbn [fst snd] in *; subst w0.
  - rewrite (bind_ok _ _ _ _ _ Q).
    destruct (JobLogger_init_total env (fst d) i (snd d) (set_logs [] w)) as (lg & w' & I).
    eauto.
  - apply bind_raise. exact Q.
Qed.

(** X10.  [execute_job] raises [e] exactly when the reading of the
    settings does: the text is non-empty and [json.loads] rejects it with
    [e], which is not a JSONDecodeError; or the document is not an object;
    or its ConnectionStrings member is not an object; in the last two
    cases [e] is the AttributeError of the missing [get].  No failure of
    the database, the table store or the endpoint makes it raise.  When it
    raises, nothing has happened yet but the creation of the empty list
    [logs]: nothing was printed, no logger was built, the finally block
    did not run. *)
Theorem run_raises_only_on_malformed_settings app_settings a j i s w e :
  (fst (execute_job env app_settings a j i s w) = Raise e <->
   malformed_settings env app_settings e) /\
  (fst (execute_job env app_settings a j i s w) = Raise e ->
   snd (execute_job env app_settings a j i s w) = set_logs [] w).
Proof.
  pose proof (acquire_logger_outcome app_settings i w) as O.
  rewrite <- (parse_settings_raises app_settings (set_logs [] w) e).
  destruct (fst (parse_settings env app_settings (set_logs [] w))) as [d|e0].
  - destruct O as (logger & w1 & A).
    destruct (execute_job_run env _ a j i s _ _ _ A) as (w2 & w3 & _ & _ & E).
    rewrite E. cbn [fst]. split; [split |]; discriminate.
  - destruct (run_without_logger env _ a j i s _ _ _ O) as (E & _).
    rewrite E. cbn [fst snd]. split; [| reflexivity].
    split; intros Y; inversion Y; reflexivity.
Qed.

End SettingsFailures.

(* ================================================================== *)
(** ** What a run commits *)

(** The statement by which the finally block records the time [t]. *)
Definition record_run_time (job_id : Z) (t : datetime) (tables : Tables) : Sql :=
  match hd_error (select_last_run_id job_id tables) with
  | Some id => UpdateLastRun t id
  | None => InsertLastRun job_id t
  end.

Section RunDatabase.
Context (env : Env).

(** The relational side of a constructed logger. *)
Lemma acquire_logger_db app_settings iid w logger w1 :
  acquire_logger env app_settings iid w = (Ok logger, w1) ->
  durable w1 = durable w /\
  (has_connection logger = true -> conn w1 = Open /\ session w1 = durable w) /\
  (has_connection logger = false -> conn w1 = conn w /\ session w1 = session w).
Proof.
  unfold acquire_logger. rewrite (bind_ok logs_init _ w tt _ eq_refl).
  pose proof (parse_settings_pure env app_settings (set_logs [] w)) as P.
  destruct (parse_settings env app_settings (set_logs [] w)) as [[d|e] w0] eqn:E;
    cbn [snd] in P; subst w0;
    [rewrite (bind_ok _ _ _ _ _ E) | rewrite (bind_raise _ _ _ _ _ E); discriminate].
  unfold JobLogger_init.
  match goal with
  | |- context [bind (open_connection env ?cs iid ?s0) _ ?W] =>
      destruct (open_connection_run env cs iid s0 W)
        as (c & j & w2 & l1 & E1 & T1 & D1 & J1 & V & R)
  end.
  destruct (open_table_client_quiet env (snd d) w2)
    as (t & w' & E' & S' & D' & C' & J' & _).
  rewrite (bind_ok _ _ _ _ _ E1), (bind_ok _ _ _ _ _ E').
  intros X. inversion X; subst logger w1. clear X.
  unfold has_connection. cbn [self_connection fst].
  cbn [conn session durable set_logs] in *.
  split; [congruence|]. rewrite C', S'.
  destruct c as [c|].
  - destruct R as (O & S & _). split; [auto | discriminate].
  - destruct R as (_ & C0 & S0 & _). split; [discriminate | auto].
Qed.

Lemma job_steps_session a i s logger job_id :
  keeps (Same session) (job_steps env a i s logger job_id).
Proof.
  unfold job_steps, announce, report_previous_run, fetch_weather, complete, log_progress.
  keeping.
Qed.

Lemma job_steps_durable a i s logger job_id :
  keeps (Same durable) (job_steps env a i s logger job_id).
Proof.
  unfold job_steps, announce, report_previous_run, fetch_weather, complete, log_progress.
  keeping.
Qed.

(** What the update commits, whatever fails: nothing, or the statement
    that records the reading of the clock it made. *)
Lemma update_commits logger job_id w :
  let w' := snd (update_last_job_run_time env logger job_id w) in
  durable w' = durable w \/
  has_connection logger = true /\ 0 < job_id /\
  clock_reads w' = S (clock_reads w) /\
  durable w' = sql_apply (record_run_time job_id (clock env (clock_reads w)) (session w))
                 (session w).
Proof.
  unfold update_last_job_run_time, when, try_except, record_run_time.
  destruct (has_connection logger && (0 <? job_id)) eqn:G; [| left; reflexivity].
  apply andb_prop in G. destruct G as [G1 G2]. apply Z.ltb_lt in G2.
  unfold_prims. oracle_cases; cbn [snd]; world_simpl;
    first [ left; reflexivity
          | right; split; [exact G1|]; split; [exact G2|]; split; reflexivity ].
Qed.

(** X17.  A run of [execute_job] that built its logger returns
    normally.  With a connection, the run ends with the close of that
    connection, which is then closed with no uncommitted work left.
    Without one, connection, session and committed tables are as before
    the run.  The committed tables are in the end either as before the
    run, or changed by one statement only: the UPDATE of the run-time row
    found for the job, or else the INSERT of one, with the last reading of
    the clock that the run made; and that only with a positive job id. *)
Theorem run_commits_only_its_run_record app_settings a j i s w logger w1 :
  acquire_logger env app_settings i w = (Ok logger, w1) ->
  let job_id := effective_job_id logger j in
  exists result w',
    execute_job env app_settings a j i s w = (Ok result, w') /\
    (has_connection logger = true ->
     conn w' = Closed /\ session w' = durable w' /\
     exists l0, trace w' = (l0 ++ [EClose])%list) /\
    (has_connection logger = false ->
     conn w' = conn w /\ session w' = session w /\ durable w' = durable w) /\
    (durable w' = durable w \/
     has_connection logger = true /\ 0 < job_id /\
     exists n,
       clock_reads w' = S n /\
       durable w' = sql_apply (record_run_time job_id (clock env n) (durable w))
                      (durable w)).
Proof.
  intros A job_id.
  destruct (execute_job_run env _ a j i s _ _ _ A) as (w2 & w3 & E2 & E3 & E).
  destruct (acquire_logger_db _ _ _ _ _ A) as (D1 & Y & N).
  fold job_id in E2, E3.
  pose proof (job_steps_session a i s logger job_id w1) as S2.
  pose proof (job_steps_durable a i s logger job_id w1) as D2.
  pose proof (job_steps_conn env a i s logger job_id w1) as C2.
  rewrite E2 in S2, D2, C2. unfold Same in *. cbn [snd] in *.
  pose proof (update_commits logger job_id w2) as U.
  pose proof (update_last_job_run_time_conn env logger job_id w2) as CU.
  unfold Same in CU.
  revert E3. unfold finalization.
  rewrite (bind_unit_total _ _ _ (update_last_job_run_time_total env logger job_id)).
  set (wu := snd (update_last_job_run_time env logger job_id w2)) in *.
  cbv zeta in U.
  exists (logs w2), w3. split; [exact E|].
  unfold close, when in E3. revert E3.
  destruct (has_connection logger) eqn:H.
  - destruct (Y eq_refl) as (O1 & S1).
    unfold connection_close. rewrite CU, C2, O1.
    intros X. inversion X; subst w3. clear X. world_simpl.
    split; [intros _; split; [reflexivity|]; split; [reflexivity|]; eexists; reflexivity|].
    split; [discriminate|].
    destruct U as [U | (_ & J & K & U)].
    + left. congruence.
    + right. split; [reflexivity|]. split; [exact J|]. exists (clock_reads w2).
      split; [exact K|]. rewrite U. rewrite S2, S1. reflexivity.
  - destruct (N eq_refl) as (C1 & S1).
    intros X. inversion X; subst w3. clear X.
    assert (Wu : wu = w2).
    { subst wu. unfold update_last_job_run_time, when. rewrite H. reflexivity. }
    rewrite Wu. split; [discriminate|].
    split; [intros _; repeat split; congruence|]. left. congruence.
Qed.

End RunDatabase.

(* ================================================================== *)
(** ** The returned list *)

Definition STARTED : string := "Job started".
Definition COMPLETED : string := "Job completed successfully!".

Section ReturnedList.
Context (env : Env).

(** The steps of a run, one after the other. *)
Lemma job_steps_run a i s logger job_id w :
  exists wa wb wc wd,
    announce env a i s logger job_id w = (Ok tt, wa) /\
    report_previous_run env logger job_id wa = (Ok tt, wb) /\
    fetch_weather env logger wb = (Ok tt, wc) /\
    complete env logger wc = (Ok tt, wd) /\
    job_steps env a i s logger job_id w = (Ok tt, wd).
Proof.
  destruct (announce_total env a i s logger job_id w) as ([] & wa & Ea).
  destruct (report_previous_run_total env logger job_id wa) as ([] & wb & Eb).
  destruct (fetch_weather_total env logger wb) as ([] & wc & Ec).
  destruct (complete_total env logger wc) as ([] & wd & Ed).
  exists wa, wb, wc, wd. repeat (split; [assumption|]).
  unfold job_steps.
  rewrite (bind_ok _ _ _ _ _ Ea), (bind_ok _ _ _ _ _ Eb), (bind_ok _ _ _ _ _ Ec).
  exact Ed.
Qed.

(** X11.  The list returned by a run that built its logger is, in this
    order: 'Job started'; the two announcements, made with the supplied
    job id when that is positive and with the id the logger resolved when
    none was supplied and the resolved one is positive; at most one
    message about the previous run, and none without a connection or
    without a positive job id; 'Fetching weather data for Los Angeles,
    CA'; the weather report of the run's fetch, or the warning about its
    failure; 'Job completed successfully!'.  So it has six or seven
    entries. *)
Theorem returned_list_shape app_settings a j i s w logger w1 :
  acquire_logger env app_settings i w = (Ok logger, w1) ->
  let job_id := effective_job_id logger j in
  exists result w' previous,
    execute_job env app_settings a j i s w = (Ok result, w') /\
    result = ([STARTED; exec_info a job_id i s; partition_key_info job_id i]
              ++ previous
              ++ [FETCHING; weather_message env (http_calls w); COMPLETED])%list /\
    (previous = [] \/ exists t, previous = [previous_run_message t]) /\
    (has_connection logger = false \/ job_id <= 0 -> previous = []) /\
    (0 < j -> job_id = j) /\
    (j <= 0 -> 0 < self_job_id logger -> job_id = self_job_id logger).
Proof.
  intros A job_id.
  destruct (execute_job_run env _ a j i s _ _ _ A) as (w2 & w3 & E2 & E3 & E).
  destruct (acquire_logger_spec env _ _ _ _ _ A) as (_ & _ & _ & L1 & H1 & _).
  fold job_id in E2.
  destruct (job_steps_run a i s logger job_id w1) as (wa & wb & wc & wd & Ea & Eb & Ec & Ed & Es).
  rewrite Es in E2. inversion E2; subst w2. clear E2.
  pose proof (announce_logs env a i s logger job_id w1) as La.
  pose proof (announce_http_eq env a i s logger job_id w1) as Ha.
  pose proof (report_previous_run_logs env logger job_id wa) as (Lb & Nb).
  pose proof (report_previous_run_http_eq env logger job_id wa) as Hb.
  destruct (fetch_weather_run env logger wb) as (wc' & l1 & l2 & Ec' & _ & _ & _ & _ & _ & _ & Lc).
  destruct (complete_run env logger wc) as (wd' & rest & Ed' & Ld & _).
  rewrite Ea in La, Ha. rewrite Eb in Lb, Nb, Hb. rewrite Ec in Ec'. rewrite Ed in Ed'.
  inversion Ec'; subst wc'. inversion Ed'; subst wd'. clear Ec' Ed'.
  cbn [snd] in *. rewrite Hb, Ha, H1 in Lc. rewrite L1 in La. cbn [app] in La.
  assert (P : exists previous,
             logs wb = (logs wa ++ previous)%list /\
             (previous = [] \/ exists t, previous = [previous_run_message t]) /\
             (has_connection logger = false \/ job_id <= 0 -> previous = [])).
  { destruct Lb as [Lb | (t & Lb & _)].
    - exists []. rewrite app_nil_r. auto.
    - exists [previous_run_message t]. split; [exact Lb|]. split; [eauto|].
      intros X. assert (G : has_connection logger && (0 <? job_id) = false).
      { destruct X as [-> | X]; [reflexivity|].
        apply andb_false_iff. right. apply Z.ltb_ge. exact X. }
      specialize (Nb G). subst wb. exfalso.
      apply (f_equal (@List.length string)) in Lb. rewrite length_app in Lb.
      cbn in Lb. lia. }
  destruct P as (previous & Lp & Shape & None).
  exists (logs wd), w3, previous. split; [exact E|].
  split; [rewrite Ld, Lc, Lp, La; cbn [app]; rewrite <- !app_assoc; reflexivity|].
  split; [exact Shape|]. split; [exact None|].
  unfold job_id, effective_job_id. split.
  - intros J. replace (j <=? 0) with false by (symmetry; apply Z.leb_gt; exact J).
    reflexivity.
  - intros J1 J2. replace (j <=? 0) with true by (symmetry; apply Z.leb_le; exact J1).
    replace (0 <? self_job_id logger) with true by (symmetry; apply Z.ltb_lt; exact J2).
    reflexivity.
Qed.

End ReturnedList.

(** *** The request to the endpoint *)

Section OneRequest.
Context (env : Env).

Lemma acquire_logger_offline app_settings i :
  keeps (Emits not_urlopen) (acquire_logger env app_settings i).
Proof.
  unfold acquire_logger, parse_settings, JobLogger_init, open_connection,
    open_table_client, _get_job_id_from_instance.
  keeping.
Qed.

Lemma announce_offline a i s logger job_id :
  keeps (Emits not_urlopen) (announce env a i s logger job_id).
Proof. pose proof (log_progress_offline env). unfold announce. keeping. Qed.

Lemma report_previous_run_offline logger job_id :
  keeps (Emits not_urlopen) (report_previous_run env logger job_id).
Proof. pose proof (log_progress_offline env). unfold report_previous_run. keeping. Qed.

Lemma complete_offline logger : keeps (Emits not_urlopen) (complete env logger).
Proof. pose proof (log_progress_offline env). unfold complete. keeping. Qed.

Lemma finalization_offline logger job_id :
  keeps (Emits not_urlopen) (finalization env logger job_id).
Proof. unfold finalization, update_last_job_run_time, close. keeping. Qed.

Lemma finalization_http logger job_id :
  keeps (Same http_calls) (finalization env logger job_id).
Proof. unfold finalization, update_last_job_run_time, close. keeping. Qed.

Lemma complete_http logger : keeps (Same http_calls) (complete env logger).
Proof. unfold complete. keeping. Qed.

(** X15.  A run that built its logger sends exactly one request,
    whatever the endpoint answers: to the wttr.in URL for Los Angeles with
    a timeout of 30 seconds, after the progress message that announces the
    fetch and before the one that reports its outcome.  A failed request
    is not retried. *)
Theorem run_makes_one_request app_settings a j i s w logger w1 :
  acquire_logger env app_settings i w = (Ok logger, w1) ->
  exists result w' l1 l2,
    execute_job env app_settings a j i s w = (Ok result, w') /\
    trace w' = (trace w ++ l1 ++ EUrlopen WEATHER_URL 30 :: l2)%list /\
    Forall not_urlopen l1 /\ Forall not_urlopen l2 /\
    In (ELogProgress FETCHING "Info") l1 /\
    In (ELogProgress (weather_message env (http_calls w))
          (weather_level env (http_calls w))) l2 /\
    http_calls w' = S (http_calls w).
Proof.
  intros A.
  destruct (execute_job_run env _ a j i s _ _ _ A) as (w2 & w3 & E2 & E3 & E).
  destruct (acquire_logger_spec env _ _ _ _ _ A) as (_ & _ & _ & _ & H1 & _).
  set (job_id := effective_job_id logger j) in *.
  destruct (job_steps_run env a i s logger job_id w1)
    as (wa & wb & wc & wd & Ea & Eb & Ec & Ed & Es).
  rewrite Es in E2. inversion E2; subst w2. clear E2.
  pose proof (acquire_logger_offline app_settings i w) as (l0 & T0 & F0).
  pose proof (announce_offline a i s logger job_id w1) as (la & Ta & Fa).
  pose proof (announce_http_eq env a i s logger job_id w1) as Ha.
  pose proof (report_previous_run_offline logger job_id wa) as (lb & Tb & Fb).
  pose proof (report_previous_run_http_eq env logger job_id wa) as Hb.
  destruct (fetch_weather_run env logger wb)
    as (wc' & l1 & l2 & Ec' & Tc & F1 & F2 & I1 & I2 & Hc & _).
  pose proof (complete_offline logger wc) as (ld & Td & Fd).
  pose proof (complete_http logger wc) as Hd.
  pose proof (finalization_offline logger job_id wd) as (lf & Tf & Ff).
  pose proof (finalization_http logger job_id wd) as Hf.
  rewrite A in T0. rewrite Ea in Ta, Ha. rewrite Eb in Tb, Hb. rewrite Ec in Ec'.
  rewrite Ed in Td, Hd. rewrite E3 in Tf, Hf.
  inversion Ec'; subst wc'. clear Ec'. unfold Same in *. cbn [snd] in *.
  rewrite Hb, Ha, H1 in I2.
  exists (logs wd), w3, (l0 ++ la ++ lb ++ l1)%list, (l2 ++ ld ++ lf)%list.
  split; [exact E|].
  split; [rewrite Tf, Td, Tc, Tb, Ta, T0; rewrite <- ?app_assoc; cbn [app];
          rewrite <- ?app_assoc; reflexivity|].
  split; [repeat (apply Forall_app; split); assumption|].
  split; [repeat (apply Forall_app; split); assumption|].
  split; [repeat (apply in_or_app; right); exact I1|].
  split; [apply in_or_app; left; exact I2|].
  congruence.
Qed.

End OneRequest.

(* ================================================================== *)
(** ** The returned list and the progress log *)

(** The messages and levels that a stretch of the trace sends through
    [log_progress], in order. *)
Definition progress_of (l : list Event) : list (string * string) :=
  flat_map (fun ev => match ev with
                      | ELogProgress message level => [(message, level)]
                      | _ => []
                      end) l.

Definition not_progress (ev : Event) : Prop :=
  match ev with
  | ELogProgress _ _ => False
  | _ => True
  end.

(** The levels in use: Info, and Warning for the two weather failures. *)
Definition level_ok (p : string * string) : Prop :=
  snd p = "Info" \/
  snd p = "Warning" /\
  (prefix "Failed to fetch weather data: " (fst p) = true \/
   prefix "Error processing weather data: " (fst p) = true).

(** [logs] grows by exactly the messages sent through [log_progress]. *)
Definition Mirror (w w' : World) : Prop :=
  exists l,
    trace w' = (trace w ++ l)%list /\
    logs w' = (logs w ++ map fst (progress_of l))%list /\
    Forall level_ok (progress_of l).

Lemma progress_of_app l1 l2 :
  progress_of (l1 ++ l2) = (progress_of l1 ++ progress_of l2)%list.
Proof. apply flat_map_app. Qed.

Lemma progress_of_quiet l : Forall not_progress l -> progress_of l = [].
Proof.
  induction 1 as [|ev l H _ IH]; [reflexivity|].
  cbn [progress_of flat_map]. fold (progress_of l). rewrite IH.
  destruct ev; try reflexivity. destruct H.
Qed.

#[export] Instance Mirror_PreOrder : PreOrder Mirror.
Proof.
  split.
  - intros w. exists []. cbn. rewrite !app_nil_r. auto.
  - intros a b c (l1 & T1 & L1 & F1) (l2 & T2 & L2 & F2). exists (l1 ++ l2)%list.
    rewrite T2, T1, L2, L1, progress_of_app, map_app, !app_assoc.
    split; [reflexivity|]. split; [reflexivity|]. apply Forall_app. auto.
Qed.

Lemma Mirror_quiet w w' :
  Emits not_progress w w' -> logs w' = logs w -> Mirror w w'.
Proof.
  intros (l & T & F) L. exists l. rewrite (progress_of_quiet l F). cbn.
  rewrite app_nil_r. auto.
Qed.

Lemma keeps_Mirror_quiet {A} (m : M A) :
  keeps (Emits not_progress) m -> keeps (Same logs) m -> keeps Mirror m.
Proof. intros K1 K2 w. apply Mirror_quiet; [apply K1 | apply K2]. Qed.

Ltac solve_level :=
  solve [ left; reflexivity
        | right; split; [reflexivity | left; apply prefix_append]
        | right; split; [reflexivity | right; apply prefix_append] ].

Ltac mirroring lemma1 lemma2 :=
  repeat first
    [ assumption
    | match goal with
      | |- keeps _ (bind (log_progress _ _ _ _) _) =>
          first [apply lemma1; [solve_level |] | apply lemma2; solve_level]
      end
    | apply keeps_ret; exact _
    | apply keeps_raise; exact _
    | apply keeps_lift; exact _
    | apply keeps_bind; [exact _ | | intro]
    | apply keeps_try_except; [exact _ | | intro]
    | match goal with
      | |- keeps _ (when ?b _) =>
          destruct b eqn:?; unfold when; [| apply keeps_ret; exact _]
      | |- keeps _ (if ?b then _ else _) => destruct b eqn:?
      | |- keeps _ (match ?x with _ => _ end) => destruct x eqn:?
      end
    | solve [apply keeps_Mirror_quiet; prim] ].

Section Mirroring.
Context (env : Env).

(** One call of [log_progress] followed by the append of its message. *)
Lemma logged_and_appended {A} self message level (k : unit -> M A) :
  level_ok (message, level) ->
  keeps Mirror (k tt) ->
  keeps Mirror (log_progress env self message level ;;
                x <- logs_append message ;; k x).
Proof.
  intros Lv Kk w.
  destruct (log_progress_total env self message level w) as ([] & w1 & E).
  pose proof (log_progress_logs env self message level w) as L.
  assert (K : keeps (Emits not_progress)
                (t <- utcnow env ;;
                 print ("[" ++ strftime "%Y-%m-%d %H:%M:%S" t ++ "] [" ++ level ++ "] "
                        ++ message) ;;
                 when (has_table_client self && (0 <? self_job_id self))
                   (try_except
                      (row_key <- uuid4_hex env ;;
                       ts <- utcnow env ;;
                       create_entity env
                         {| PartitionKey := _get_partition_key self;
                            RowKey := uuid_str row_key;
                            Action := "JobProgress";
                            Details := message;
                            Level := level;
                            Timestamp := ts;
                            JobId := self_job_id self;
                            JobInstanceId := self_job_instance_id self |})
                      (fun e => print ("[ERROR!] Failed to log to Azure Table Storage: "
                                       ++ exn_str e))))).
  { keeping. }
  specialize (K (emit (ELogProgress message level) w)).
  change (snd _) with (snd (log_progress env self message level w)) in K.
  rewrite E in K, L. unfold Same in L. cbn [snd] in K, L. destruct K as (l & T & F).
  rewrite (bind_ok _ _ _ _ _ E).
  rewrite (bind_ok (logs_append message) _ w1 tt _ eq_refl).
  transitivity (set_logs (logs w1 ++ [message]) w1); [| apply Kk].
  exists (ELogProgress message level :: l).
  cbn [trace logs set_logs progress_of flat_map]. fold (progress_of l).
  rewrite (progress_of_quiet l F), T, L. world_simpl.
  split; [reflexivity|]. split; [reflexivity|]. constructor; [exact Lv | constructor].
Qed.

Lemma logged_and_appended_last self message level :
  level_ok (message, level) ->
  keeps Mirror (log_progress env self message level ;; logs_append message).
Proof.
  intros Lv w.
  pose proof (logged_and_appended self message level (fun _ => ret tt) Lv
                (keeps_ret _ tt) w) as K.
  revert K. unfold bind, ret, logs_append.
  destruct (log_progress env self message level w) as [[[]|e] w1]; cbn; auto.
Qed.

Lemma job_steps_mirror a i s logger job_id :
  keeps Mirror (job_steps env a i s logger job_id).
Proof.
  unfold job_steps, announce, report_previous_run, fetch_weather, complete.
  mirroring (@logged_and_appended unit) logged_and_appended_last.
Qed.

Lemma acquire_logger_quiet app_settings i :
  keeps (Emits not_progress) (acquire_logger env app_settings i).
Proof.
  unfold acquire_logger, parse_settings, JobLogger_init, open_connection,
    open_table_client, _get_job_id_from_instance.
  keeping.
Qed.

Lemma finalization_quiet logger job_id :
  keeps (Emits not_progress) (finalization env logger job_id).
Proof. unfold finalization, update_last_job_run_time, close. keeping. Qed.

(** X12.  In a run that built its logger, the returned list is exactly
    the sequence of messages sent through [log_progress], in the same
    order: nothing is returned that was not logged and nothing is logged
    that is not returned.  Every one is logged at level Info or Warning,
    and at level Warning only the two weather failure messages. *)
Theorem returned_list_mirrors_progress app_settings a j i s w logger w1 :
  acquire_logger env app_settings i w = (Ok logger, w1) ->
  exists result w' l,
    execute_job env app_settings a j i s w = (Ok result, w') /\
    trace w' = (trace w ++ l)%list /\
    map fst (progress_of l) = result /\
    Forall level_ok (progress_of l).
Proof.
  intros A.
  destruct (execute_job_run env _ a j i s _ _ _ A) as (w2 & w3 & E2 & E3 & E).
  destruct (acquire_logger_spec env _ _ _ _ _ A) as (_ & _ & _ & L1 & _).
  pose proof (acquire_logger_quiet app_settings i w) as (l0 & T0 & F0).
  pose proof (job_steps_mirror a i s logger (effective_job_id logger j) w1)
    as (l & T & L & F).
  pose proof (finalization_quiet logger (effective_job_id logger j) w2) as (lf & Tf & Ff).
  rewrite A in T0. rewrite E2 in T, L. rewrite E3 in Tf. cbn [snd] in *.
  exists (logs w2), w3, (l0 ++ l ++ lf)%list. split; [exact E|].
  split; [rewrite Tf, T, T0, <- !app_assoc; reflexivity|].
  rewrite !progress_of_app, (progress_of_quiet l0 F0), (progress_of_quiet lf Ff).
  cbn [app]. rewrite app_nil_r. split; [| exact F].
  rewrite L, L1. reflexivity.
Qed.

End Mirroring.

(* ================================================================== *)
(** ** Further concrete cases *)

Module Fixtures.

(** A descriptor already in the ODBC dialect. *)
Definition odbc_descriptor : string :=
  "Server=db;Database=jobs;UID=sa;PWD=pw;Encrypt=yes;TrustServerCertificate=no".

(** Job 5 last ran in the first second of year 1. *)
Definition tables_with_first_day : Tables := {|
  JobInstance := JobInstance Demo.tables;
  JobSchedule := JobSchedule Demo.tables;
  JobInstances := JobInstances Demo.tables;
  JobData := [{| jd_Id := 1; jd_JobId := 5;
                 jd_JobFieldDescription := LAST_RUN;
                 jd_JobStringValue := None;
                 jd_JobDateValue := Some 0;
                 jd_CreatedBy := EXECUTOR; jd_UpdatedBy := None |}];
  next_identity := 2
|}.

(** 0999-06-15 19:00:01 UTC. *)
Definition year_999 : datetime := (364677 * 86400 + 19 * 3600 + 1) * 1000000.

(** Job 5 last ran in the year 999. *)
Definition tables_of_year_999 : Tables := {|
  JobInstance := JobInstance Demo.tables;
  JobSchedule := JobSchedule Demo.tables;
  JobInstances := JobInstances Demo.tables;
  JobData := [{| jd_Id := 1; jd_JobId := 5;
                 jd_JobFieldDescription := LAST_RUN;
                 jd_JobStringValue := None;
                 jd_JobDateValue := Some year_999;
                 jd_CreatedBy := EXECUTOR; jd_UpdatedBy := None |}];
  next_identity := 2
|}.

(** The world of [Demo.world] over these tables. *)
Definition world_of_year_999 : World := {|
  trace := []; clock_reads := 0; uuid_draws := 0; db_calls := 0;
  table_calls := 0; http_calls := 0; conn := NotConnected;
  session := tables_of_year_999; durable := tables_of_year_999;
  JobLogs := []; logs := []
|}.

End Fixtures.


Lemma odbc_dialect_keeps_other_text_witness :
  (forall p, In p ODBC_REWRITTEN -> contains p Fixtures.odbc_descriptor = false) /\
  odbc_dialect Fixtures.odbc_descriptor = Fixtures.odbc_descriptor.
Proof.
  assert (H : forall p, In p ODBC_REWRITTEN -> contains p Fixtures.odbc_descriptor = false).
  { intros p I. cbn [In ODBC_REWRITTEN] in I.
    repeat (destruct I as [<- | I]; [vm_compute; reflexivity|]). destruct I. }
  split; [exact H|]. apply (odbc_dialect_keeps_other_text _ H).
Defined.

Lemma error_is_recorded_when_driver_works_witness :
  has_connection Demo.logger = true /\ 0 < self_job_instance_id Demo.logger /\
  conn (Demo.connected Demo.tables) = Open /\
  exists w',
    log_error Demo.env Demo.logger "Job execution error: step failed" "Traceback"
      (Demo.connected Demo.tables) = (Ok tt, w') /\
    map jis_HasError (JobInstances (durable w')) = [true] /\
    map jd_JobFieldDescription (JobData (durable w')) = ["Error_20240425130509_01234567"].
Proof.
  split; [reflexivity|]. split; [reflexivity|]. split; [reflexivity|].
  destruct (error_is_recorded_when_driver_works Demo.env Demo.logger
              "Job execution error: step failed" "Traceback"
              (Demo.connected Demo.tables) eq_refl eq_refl eq_refl (fun _ => eq_refl))
    as (w' & E & _ & D & JI & JD).
  exists w'. split; [exact E|]. rewrite D, JI, JD. split; vm_compute; reflexivity.
Defined.

Lemma previous_run_without_usable_time_witness :
  has_connection Demo.logger = true /\ 0 < 5 /\
  conn (Demo.connected Fixtures.tables_with_first_day) = Open /\
  exists w',
    report_previous_run Demo.env Demo.logger 5
      (Demo.connected Fixtures.tables_with_first_day) = (Ok tt, w') /\
    logs w' = [] /\
    trace w' = [ECursor; EExecute (SelectLastRunValue 5); EFetchone;
                EPrint "Warning: Failed to read Last Job Run Time: date value out of range"].
Proof.
  split; [reflexivity|]. split; [lia|]. split; [reflexivity|].
  destruct (previous_run_without_usable_time Demo.env Demo.logger 5
              (Demo.connected Fixtures.tables_with_first_day)
              eq_refl eq_refl eq_refl (fun _ => eq_refl))
    as (w' & E & R).
  exists w'. split; [exact E|].
  destruct (R eq_refl) as (T & L & _). split; [exact L | exact T].
Defined.

Lemma recorded_time_is_read_back_witness :
  has_connection Demo.logger = true /\ 0 < 5 /\
  conn (Demo.connected Demo.tables) = Open /\
  exists w',
    update_last_job_run_time Demo.env Demo.logger 5 (Demo.connected Demo.tables)
    = (Ok tt, w') /\
    select_last_run_value 5 (durable w') = [Some Demo.t0].
Proof.
  split; [reflexivity|]. split; [lia|]. split; [reflexivity|].
  destruct (recorded_time_is_read_back Demo.env Demo.logger 5 (Demo.connected Demo.tables)
              eq_refl eq_refl eq_refl (fun _ => eq_refl))
    as (w' & E & _ & H & N & _).
  exists w'. split; [exact E|].
  destruct (select_last_run_value 5 (durable w')) as [|v [|v' r]];
    [discriminate H | | discriminate N].
  inversion H. reflexivity.
Defined.

Lemma run_makes_one_request_witness :
  acquire_logger Demo.env (Some Demo.settings_blob) 12 Demo.world
  = (Ok Demo.logger, Demo.started) /\
  exists result w',
    execute_job Demo.env (Some Demo.settings_blob) 7 0 12 3 Demo.world = (Ok result, w') /\
    http_calls w' = 1%nat.
Proof.
  assert (A : acquire_logger Demo.env (Some Demo.settings_blob) 12 Demo.world
              = (Ok Demo.logger, Demo.started)) by (vm_compute; reflexivity).
  split; [exact A|].
  destruct (run_makes_one_request Demo.env (Some Demo.settings_blob) 7 0 12 3
              Demo.world Demo.logger Demo.started A)
    as (result & w' & l1 & l2 & E & _ & _ & _ & _ & _ & H).
  exists result, w'. split; [exact E | exact H].
Defined.

Lemma run_commits_only_its_run_record_witness :
  acquire_logger Demo.env (Some Demo.settings_blob) 12 Demo.world
  = (Ok Demo.logger, Demo.started) /\
  exists result w',
    execute_job Demo.env (Some Demo.settings_blob) 7 0 12 3 Demo.world = (Ok result, w') /\
    conn w' = Closed /\ session w' = durable w'.
Proof.
  assert (A : acquire_logger Demo.env (Some Demo.settings_blob) 12 Demo.world
              = (Ok Demo.logger, Demo.started)) by (vm_compute; reflexivity).
  split; [exact A|].
  destruct (run_commits_only_its_run_record Demo.env (Some Demo.settings_blob) 7 0 12 3
              Demo.world Demo.logger Demo.started A)
    as (result & w' & E & Y & _).
  exists result, w'. split; [exact E|]. destruct (Y eq_refl) as (C & S & _). auto.
Defined.

Lemma returned_list_shape_witness :
  acquire_logger Demo.env (Some Demo.settings_blob) 12 Demo.world
  = (Ok Demo.logger, Demo.started) /\
  exists result w',
    execute_job Demo.env (Some Demo.settings_blob) 7 0 12 3 Demo.world = (Ok result, w') /\
    nth 1 result "" = "Executing Job ID: 5, Instance: 12, Schedule: 3, Agent: 7" /\
    last result "" = "Job completed successfully!".
Proof.
  assert (A : acquire_logger Demo.env (Some Demo.settings_blob) 12 Demo.world
              = (Ok Demo.logger, Demo.started)) by (vm_compute; reflexivity).
  split; [exact A|].
  destruct (returned_list_shape Demo.env (Some Demo.settings_blob) 7 0 12 3
              Demo.world Demo.logger Demo.started A)
    as (result & w' & previous & E & -> & _).
  eexists. exists w'. split; [exact E|]. split; [vm_compute; reflexivity|].
  rewrite !app_assoc.
  change [FETCHING; weather_message Demo.env (http_calls Demo.world); COMPLETED]
    with ([FETCHING; weather_message Demo.env (http_calls Demo.world)] ++ [COMPLETED])%list.
  rewrite app_assoc. apply last_last.
Defined.

Lemma returned_list_mirrors_progress_witness :
  acquire_logger Demo.env (Some Demo.settings_blob) 12 Demo.world
  = (Ok Demo.logger, Demo.started) /\
  exists result w',
    execute_job Demo.env (Some Demo.settings_blob) 7 0 12 3 Demo.world = (Ok result, w') /\
    map fst (progress_of (trace w')) = result.
Proof.
  assert (A : acquire_logger Demo.env (Some Demo.settings_blob) 12 Demo.world
              = (Ok Demo.logger, Demo.started)) by (vm_compute; reflexivity).
  split; [exact A|].
  destruct (returned_list_mirrors_progress Demo.env (Some Demo.settings_blob) 7 0 12 3
              Demo.world Demo.logger Demo.started A)
    as (result & w' & l & E & T & R & _).
  exists result, w'. split; [exact E|]. rewrite T. exact R.
Defined.
